(** * The typing session engine of zentype (client/internal/game/game.go)

    A shallow embedding of [TypingGame] and its methods, and the properties
    of the engine that the specification states.

    - [Go]      : the pieces of the Go language and library the engine
                  relies on: machine integers, strings as byte sequences,
                  UTF-8 conversion, [strings.Fields], [float64], and the
                  monotonic clock of package [time].
    - [Game]    : the engine itself, method by method.
    - [Model], [Samples] : the notions the properties are stated with
                  (reachable sessions, invariants, the clock as an
                  operation sees it) and concrete worlds and sessions.
    - the rest  : facts about the Go layer, invariants of reachable
                  sessions, and the properties. *)

From Stdlib Require Import ZArith Lia Bool List String Ascii Floats.
From stdpp Require Import gmap.
Import ListNotations.

Local Open Scope Z_scope.

(* ===================================================================== *)
(** * Go: integers, strings, runes, floats, time *)
(* ===================================================================== *)

Module Go.

(** ** [int] and [int64]: 64-bit two's complement *)

Definition max_int : Z := 9223372036854775807.
Definition min_int : Z := -9223372036854775808.

Definition in_int (z : Z) : Prop := min_int <= z <= max_int.

(** Wrap-around of signed 64-bit arithmetic. *)
Definition wrap (z : Z) : Z := (z + 2 ^ 63) mod 2 ^ 64 - 2 ^ 63.

Definition int_add (a b : Z) : Z := wrap (a + b).
Definition int_sub (a b : Z) : Z := wrap (a - b).
Definition int_mul (a b : Z) : Z := wrap (a * b).

(** [x++] and [x--]. *)
Definition incr (a : Z) : Z := int_add a 1.
Definition decr (a : Z) : Z := int_sub a 1.

(** ** Strings: immutable byte sequences; runes: code points *)

Definition rune := Z.

Definition len {A} (l : list A) : Z := Z.of_nat (List.length l).

(** [len(s)] of a string: its number of bytes. *)
Definition slen (s : string) : Z := Z.of_nat (String.length s).

Definition byte_val (a : ascii) : Z := Z.of_N (N_of_ascii a).
Definition byte_of (z : Z) : ascii := ascii_of_N (Z.to_N z).

Definition bytes (s : string) : list Z := map byte_val (list_ascii_of_string s).

(** The runtime refuses to build a string or a slice whose length leaves
    the [int] range ("string concatenation too long", "growslice: len out
    of range"); [None] stands for that fatal error. *)
Definition concat (s t : string) : option string :=
  if slen s + slen t <=? max_int then Some (String.append s t) else None.

Definition append {A} (l new : list A) : option (list A) :=
  if len l + len new <=? max_int then Some (l ++ new) else None.

(** [l[i]]: panics (here [None]) when the index is out of range. *)
Definition index {A} (l : list A) (i : Z) : option A :=
  if (0 <=? i) && (i <? len l) then nth_error l (Z.to_nat i) else None.

(** [s[:len(s)-1]] for a non-empty [s]. *)
Fixpoint drop_last (s : string) : string :=
  match s with
  | EmptyString => EmptyString
  | String a EmptyString => EmptyString
  | String a rest => String a (drop_last rest)
  end.

(** *** UTF-8 *)

Definition RuneError : rune := 65533.

Definition is_cont (b : Z) : bool := (128 <=? b) && (b <=? 191).

(** [[]rune(s)]: decoding consumes one to four bytes per rune; a byte that
    does not start a well-formed sequence decodes to [RuneError] and
    consumes one byte. The second byte of a sequence is restricted by
    the first one (no overlong forms, no surrogates, nothing past
    U+10FFFF). *)
Fixpoint decode (s : list Z) : list rune :=
  match s with
  | [] => []
  | b0 :: t0 =>
    if b0 <? 128 then b0 :: decode t0
    else
      let bad := RuneError :: decode t0 in
      if (194 <=? b0) && (b0 <=? 223) then
        match t0 with
        | b1 :: t1 =>
          if is_cont b1
          then ((b0 - 192) * 64 + (b1 - 128)) :: decode t1
          else bad
        | _ => bad
        end
      else if (224 <=? b0) && (b0 <=? 239) then
        match t0 with
        | b1 :: (b2 :: t2) =>
          let lo := if b0 =? 224 then 160 else 128 in
          let hi := if b0 =? 237 then 159 else 191 in
          if (lo <=? b1) && (b1 <=? hi) && is_cont b2
          then ((b0 - 224) * 4096 + (b1 - 128) * 64 + (b2 - 128)) :: decode t2
          else bad
        | _ => bad
        end
      else if (240 <=? b0) && (b0 <=? 244) then
        match t0 with
        | b1 :: (b2 :: (b3 :: t3)) =>
          let lo := if b0 =? 240 then 144 else 128 in
          let hi := if b0 =? 244 then 143 else 191 in
          if (lo <=? b1) && (b1 <=? hi) && is_cont b2 && is_cont b3
          then ((b0 - 240) * 262144 + (b1 - 128) * 4096
                + (b2 - 128) * 64 + (b3 - 128)) :: decode t3
          else bad
        | _ => bad
        end
      else bad
  end.

Definition runes (s : string) : list rune := decode (bytes s).

Definition string_of_bytes (l : list Z) : string :=
  string_of_list_ascii (map byte_of l).

(** [string(r)]: the UTF-8 encoding of [r]; a value that is not a valid
    code point is encoded as U+FFFD. *)
Definition encode (r : rune) : string :=
  string_of_bytes
    (if (0 <=? r) && (r <? 128) then [r]
     else if (128 <=? r) && (r <? 2048) then
       [192 + r / 64; 128 + r mod 64]
     else if ((2048 <=? r) && (r <? 55296)) || ((57344 <=? r) && (r <? 65536)) then
       [224 + r / 4096; 128 + (r / 64) mod 64; 128 + r mod 64]
     else if (65536 <=? r) && (r <=? 1114111) then
       [240 + r / 262144; 128 + (r / 4096) mod 64; 128 + (r / 64) mod 64;
        128 + r mod 64]
     else [239; 191; 189]).

(** *** [strings.Fields] *)

(** The [asciiSpace] table of package [strings]. *)
Definition asciiSpace (b : Z) : bool :=
  (b =? 9) || (b =? 10) || (b =? 11) || (b =? 12) || (b =? 13) || (b =? 32).

(** [unicode.IsSpace]. *)
Definition IsSpace (r : rune) : bool :=
  if (0 <=? r) && (r <=? 255) then
    asciiSpace r || (r =? 133) || (r =? 160)
  else
    (r =? 5760) || ((8192 <=? r) && (r <=? 8202)) || (r =? 8232) || (r =? 8233)
    || (r =? 8239) || (r =? 8287) || (r =? 12288).

(** Number of maximal runs of non-space items: a field starts at every
    non-space item that follows a space or the start of the text. *)
Fixpoint count_fields (space : Z -> bool) (wasSpace : bool) (l : list Z) : Z :=
  match l with
  | [] => 0
  | x :: rest =>
    (if wasSpace && negb (space x) then 1 else 0)
    + count_fields space (space x) rest
  end.

(** [len(strings.Fields(s))]: an ASCII-only text is split on [asciiSpace]
    bytes, any other text on [unicode.IsSpace] runes. *)
Definition Fields_len (s : string) : Z :=
  if forallb (fun b => b <? 128) (bytes s)
  then count_fields asciiSpace true (bytes s)
  else count_fields IsSpace true (runes s).

(** [strings.Join(a, sep)]. *)
Fixpoint Join (a : list string) (sep : string) : string :=
  match a with
  | [] => EmptyString
  | [x] => x
  | x :: rest => String.append x (String.append sep (Join rest sep))
  end.

(** ** [float64] *)

(** [float64(z)] for an [int]: correctly rounded conversion. *)
Definition float64 (z : Z) : float :=
  if z =? min_int then (-9223372036854775808)%float
  else if z <? 0 then (- PrimFloat.of_uint63 (Uint63.of_Z (- z)))%float
  else PrimFloat.of_uint63 (Uint63.of_Z z).

(** ** Package [time] *)

(** A [time.Duration] is an [int64] count of nanoseconds. *)
Definition Second : Z := 1000000000.
Definition Minute : Z := 60 * Second.
Definition maxDuration : Z := max_int.
Definition minDuration : Z := min_int.

(** [d.Seconds()] and [d.Minutes()]; [/] and [%] on integers truncate
    toward zero. *)
Definition Seconds (d : Z) : float :=
  (float64 (Z.quot d Second) + float64 (Z.rem d Second) / 1e9)%float.

Definition Minutes (d : Z) : float :=
  (float64 (Z.quot d Minute) + float64 (Z.rem d Minute) / (60 * 1e9))%float.

(** A [time.Time] as the engine uses it: [None] is the zero value, which
    carries no monotonic reading; [Some t] is a value produced by
    [time.Now()], [t] being its monotonic clock reading in nanoseconds. *)
Definition Time := option Z.

(** [subMono] of package [time]: difference of two monotonic readings,
    saturating instead of overflowing. *)
Definition subMono (t u : Z) : Z :=
  let d := int_sub t u in
  if (d <? 0) && (u <? t) then maxDuration
  else if (0 <? d) && (t <? u) then minDuration
  else d.

(** [now.Sub(start)]. Against the zero [Time] the wall clocks are
    compared: year 1 lies more than [maxDuration] in the past, and the
    result saturates. *)
Definition Sub (now : Z) (start : Time) : Z :=
  match start with
  | Some u => subMono now u
  | None => maxDuration
  end.

End Go.

(* ===================================================================== *)
(** * The engine: package game *)
(* ===================================================================== *)

Module Game.
Import Go.

(** ** The world outside the session

    The engine reads the clock ([time.Now], [time.Since]) and asks the word
    source for words ([GenerateWords], a function of package game whose
    body is not part of the sources at hand; the word list is shuffled at
    random). The world holds what both will answer: the successive
    readings of the monotonic clock, in nanoseconds, and the successive
    answers of the word source to a request for [count] words. [ticks]
    and [draws] count the readings and answers consumed so far. *)
Record World := mkWorld {
  clock : nat -> Z;
  ticks : nat;
  wordSource : nat -> Z -> list string;
  draws : nat
}.

(** A computation reads and advances the world, and either returns or
    stops with a run-time panic ([None]). *)
Definition M (A : Type) : Type := World -> option (A * World).

Definition ret {A} (a : A) : M A := fun w => Some (a, w).

Definition bind {A B} (m : M A) (k : A -> M B) : M B :=
  fun w => match m w with
           | Some (a, w') => k a w'
           | None => None
           end.

Definition lift {A} (o : option A) : M A :=
  fun w => match o with
           | Some a => Some (a, w)
           | None => None
           end.

Notation "'let*' x ':=' m 'in' k" := (bind m (fun x => k))
  (at level 10, x name, m at level 100, k at level 200).

(** The world after one more clock reading, and after one more answer of
    the word source. *)
Definition tick (w : World) : World :=
  mkWorld (clock w) (S (ticks w)) (wordSource w) (draws w).

Definition drawn (w : World) : World :=
  mkWorld (clock w) (ticks w) (wordSource w) (S (draws w)).

Definition time_Now : M Z := fun w => Some (clock w (ticks w), tick w).

Definition time_Since (t : Time) : M Z :=
  let* now := time_Now in ret (Sub now t).

(** [GenerateWords(count)] hands over the next answer of the word source
    as a slice; no slice is longer than the [int] range, the runtime
    panics when asked to make one. *)
Definition GenerateWords (count : Z) : M (list string) :=
  fun w =>
    if len (wordSource w (draws w) count) <=? max_int
    then Some (wordSource w (draws w) count, drawn w)
    else None.

(** ** Data *)

Record TypingStats := mkStats {
  WPM : float;
  Accuracy : float;
  CharactersTyped : Z;
  CorrectChars : Z;
  TotalChars : Z;
  TimeElapsed : Z;
  IsComplete : bool;
  UncorrectedErrors : Z
}.

Record TypingGame := mkGame {
  AllWords : list string;
  DisplayLines : list string;
  UserInput : string;
  CurrentPos : Z;
  GlobalPos : Z;
  StartTime : Time;
  Duration : Z;
  IsStarted : bool;
  IsFinished : bool;
  Errors : gmap Z bool;
  TotalErrorsMade : Z;
  LinesPerView : Z;
  CharsPerLine : Z;
  WordsTyped : Z
}.

(** Assignments to single fields. *)
Definition set_AllWords (v : list string) (g : TypingGame) : TypingGame :=
  mkGame v (DisplayLines g) (UserInput g) (CurrentPos g) (GlobalPos g)
    (StartTime g) (Duration g) (IsStarted g) (IsFinished g) (Errors g)
    (TotalErrorsMade g) (LinesPerView g) (CharsPerLine g) (WordsTyped g).

Definition set_DisplayLines (v : list string) (g : TypingGame) : TypingGame :=
  mkGame (AllWords g) v (UserInput g) (CurrentPos g) (GlobalPos g)
    (StartTime g) (Duration g) (IsStarted g) (IsFinished g) (Errors g)
    (TotalErrorsMade g) (LinesPerView g) (CharsPerLine g) (WordsTyped g).

Definition set_UserInput (v : string) (g : TypingGame) : TypingGame :=
  mkGame (AllWords g) (DisplayLines g) v (CurrentPos g) (GlobalPos g)
    (StartTime g) (Duration g) (IsStarted g) (IsFinished g) (Errors g)
    (TotalErrorsMade g) (LinesPerView g) (CharsPerLine g) (WordsTyped g).

Definition set_CurrentPos (v : Z) (g : TypingGame) : TypingGame :=
  mkGame (AllWords g) (DisplayLines g) (UserInput g) v (GlobalPos g)
    (StartTime g) (Duration g) (IsStarted g) (IsFinished g) (Errors g)
    (TotalErrorsMade g) (LinesPerView g) (CharsPerLine g) (WordsTyped g).

Definition set_GlobalPos (v : Z) (g : TypingGame) : TypingGame :=
  mkGame (AllWords g) (DisplayLines g) (UserInput g) (CurrentPos g) v
    (StartTime g) (Duration g) (IsStarted g) (IsFinished g) (Errors g)
    (TotalErrorsMade g) (LinesPerView g) (CharsPerLine g) (WordsTyped g).

Definition set_Started (t : Time) (g : TypingGame) : TypingGame :=
  mkGame (AllWords g) (DisplayLines g) (UserInput g) (CurrentPos g)
    (GlobalPos g) t (Duration g) true (IsFinished g) (Errors g)
    (TotalErrorsMade g) (LinesPerView g) (CharsPerLine g) (WordsTyped g).

Definition set_IsFinished (v : bool) (g : TypingGame) : TypingGame :=
  mkGame (AllWords g) (DisplayLines g) (UserInput g) (CurrentPos g)
    (GlobalPos g) (StartTime g) (Duration g) (IsStarted g) v (Errors g)
    (TotalErrorsMade g) (LinesPerView g) (CharsPerLine g) (WordsTyped g).

Definition set_Errors (v : gmap Z bool) (g : TypingGame) : TypingGame :=
  mkGame (AllWords g) (DisplayLines g) (UserInput g) (CurrentPos g)
    (GlobalPos g) (StartTime g) (Duration g) (IsStarted g) (IsFinished g) v
    (TotalErrorsMade g) (LinesPerView g) (CharsPerLine g) (WordsTyped g).

Definition set_TotalErrorsMade (v : Z) (g : TypingGame) : TypingGame :=
  mkGame (AllWords g) (DisplayLines g) (UserInput g) (CurrentPos g)
    (GlobalPos g) (StartTime g) (Duration g) (IsStarted g) (IsFinished g)
    (Errors g) v (LinesPerView g) (CharsPerLine g) (WordsTyped g).

Definition set_WordsTyped (v : Z) (g : TypingGame) : TypingGame :=
  mkGame (AllWords g) (DisplayLines g) (UserInput g) (CurrentPos g)
    (GlobalPos g) (StartTime g) (Duration g) (IsStarted g) (IsFinished g)
    (Errors g) (TotalErrorsMade g) (LinesPerView g) (CharsPerLine g) v.

(** ** generateDisplayLines *)

(** The inner loop: fills [currentLine] with the words [rest] =
    [AllWords[wordIndex:]] while they fit, and returns the line with the
    words left over. [wordIndex++] shows as the step to the tail. *)
Fixpoint fillLine (charsPerLine : Z) (currentLine : string)
    (rest : list string) : string * list string :=
  match rest with
  | [] => (currentLine, [])
  | word :: rest' =>
    let spaceNeeded := if 0 <? slen currentLine then 1 else 0 in
    if slen currentLine + spaceNeeded + slen word <=? charsPerLine then
      let withSpace :=
        if 0 <? slen currentLine
        then String.append currentLine " " else currentLine in
      fillLine charsPerLine (String.append withSpace word) rest'
    else (currentLine, rest)
  end.

(** The outer loop: at most [n] lines, as long as words are left. *)
Fixpoint fillLines (charsPerLine : Z) (n : nat) (rest : list string)
    : list string :=
  match n, rest with
  | O, _ => []
  | _, [] => []
  | S n', _ =>
    let '(currentLine, rest') := fillLine charsPerLine EmptyString rest in
    (if 0 <? slen currentLine then currentLine else EmptyString)
      :: fillLines charsPerLine n' rest'
  end.

(** The last loop: empty lines until there are [linesPerView] of them. *)
Definition padLines (linesPerView : Z) (lines : list string) : list string :=
  lines ++ repeat EmptyString (Z.to_nat (linesPerView - len lines)).

(** [make([]string, 0, g.LinesPerView)] panics on a negative capacity,
    and a negative [WordsTyped] makes the first [AllWords[wordIndex]]
    panic, when the loops are entered at all. *)
Definition generateDisplayLines (g : TypingGame) : option TypingGame :=
  if LinesPerView g <? 0 then None
  else if (WordsTyped g <? 0) && (0 <? LinesPerView g) then None
  else
    let rest := skipn (Z.to_nat (WordsTyped g)) (AllWords g) in
    let lines :=
      fillLines (CharsPerLine g) (Z.to_nat (LinesPerView g)) rest in
    Some (set_DisplayLines (padLines (LinesPerView g) lines) g).

(** ** NewTypingGame *)

Definition NewTypingGame (duration : Z) : M TypingGame :=
  let* words := GenerateWords 200 in
  lift (generateDisplayLines
          (mkGame words [] EmptyString 0 0 None duration false false ∅
                  0 3 50 0)).

(** ** Start, IsTimeUp *)

Definition Start (g : TypingGame) : M TypingGame :=
  if negb (IsStarted g) then
    let* now := time_Now in ret (set_Started (Some now) g)
  else ret g.

(** [time.Since(g.StartTime).Seconds() >= float64(g.Duration)]. *)
Definition timeUp (duration elapsed : Z) : bool :=
  PrimFloat.leb (float64 duration) (Seconds elapsed).

Definition IsTimeUp (g : TypingGame) : M bool :=
  if negb (IsStarted g) then ret false
  else
    let* elapsed := time_Since (StartTime g) in
    ret (timeUp (Duration g) elapsed).

(** ** shiftLines *)

Definition shiftLines (g : TypingGame) : M TypingGame :=
  let* line0 := lift (index (DisplayLines g) 0) in
  let g := set_WordsTyped (int_add (WordsTyped g) (Fields_len line0)) g in
  let g := set_CurrentPos 0 g in
  let* g := lift (generateDisplayLines g) in
  if len (AllWords g) - 50 <? WordsTyped g then
    let* newWords := GenerateWords 100 in
    let* all := lift (append (AllWords g) newWords) in
    ret (set_AllWords all g)
  else ret g.

(** ** AddCharacter *)

Definition AddCharacter (g : TypingGame) (char : rune) : M TypingGame :=
  let* g := (if negb (IsStarted g) then Start g else ret g) in
  let* up := (if IsFinished g then ret true else IsTimeUp g) in
  if up then ret (set_IsFinished true g)
  else
    let* line0 := lift (index (DisplayLines g) 0) in
    let lineText := runes line0 in
    if CurrentPos g =? len lineText then
      if char =? 32 then
        let* input := lift (concat (UserInput g) (encode char)) in
        let g := set_UserInput input g in
        let g := set_CurrentPos (incr (CurrentPos g)) g in
        let g := set_GlobalPos (incr (GlobalPos g)) g in
        shiftLines g
      else ret g
    else if (CurrentPos g <? len lineText) && (0 <=? CurrentPos g) then
      let* input := lift (concat (UserInput g) (encode char)) in
      let g := set_UserInput input g in
      let* expected := lift (index lineText (CurrentPos g)) in
      let g :=
        if negb (expected =? char) then
          set_TotalErrorsMade (incr (TotalErrorsMade g))
            (set_Errors (<[GlobalPos g := true]> (Errors g)) g)
        else g in
      let g := set_CurrentPos (incr (CurrentPos g)) g in
      ret (set_GlobalPos (incr (GlobalPos g)) g)
    else ret g.

(** ** HandleEnterKey *)

Definition HandleEnterKey (g : TypingGame) : M (bool * TypingGame) :=
  let* up := (if IsFinished g then ret true else IsTimeUp g) in
  if up then ret (false, g)
  else
    let* line0 := lift (index (DisplayLines g) 0) in
    let lineText := runes line0 in
    if CurrentPos g =? len lineText then
      let* input := lift (concat (UserInput g) " ") in
      let g := set_UserInput input g in
      let g := set_CurrentPos (incr (CurrentPos g)) g in
      let g := set_GlobalPos (incr (GlobalPos g)) g in
      let* g := shiftLines g in
      ret (true, g)
    else ret (false, g).

(** ** RemoveCharacter *)

(** Reads no clock and cannot panic: the slice expression is guarded. *)
Definition RemoveCharacter (g : TypingGame) : TypingGame :=
  if (0 <? slen (UserInput g)) && (0 <? CurrentPos g) then
    let g := set_UserInput (drop_last (UserInput g)) g in
    let g := set_CurrentPos (decr (CurrentPos g)) g in
    let g := set_GlobalPos (decr (GlobalPos g)) g in
    set_Errors (delete (GlobalPos g) (Errors g)) g
  else g.

(** ** GetDisplayText, GetStats *)

Definition GetDisplayText (g : TypingGame) : string :=
  Join (DisplayLines g) " ".

Definition zeroStats : TypingStats :=
  mkStats 0%float 0%float 0 0 0 0 false 0.

(** The method has a pointer receiver: it returns the statistics together
    with the session as the call leaves it. *)
Definition GetStats (g : TypingGame) : M (TypingStats * TypingGame) :=
  if negb (IsStarted g) then ret (zeroStats, g)
  else
    let* elapsed := time_Since (StartTime g) in
    let* up := IsTimeUp g in
    let timeForCalculation :=
      if up then int_mul (Duration g) Second else elapsed in
    let minutes := Minutes timeForCalculation in
    let wpm :=
      if PrimFloat.ltb 0 minutes
      then (float64 (GlobalPos g) / 5 / minutes)%float else 0%float in
    let correctChars := int_sub (GlobalPos g) (TotalErrorsMade g) in
    let accuracy :=
      if 0 <? GlobalPos g
      then (float64 correctChars / float64 (GlobalPos g) * 100)%float
      else 0%float in
    let wpm := if PrimFloat.ltb wpm 0 then 0%float else wpm in
    let accuracy := if PrimFloat.ltb accuracy 0 then 0%float else accuracy in
    ret (mkStats wpm accuracy (GlobalPos g) correctChars
           (len (runes (GetDisplayText g))) timeForCalculation
           (IsFinished g) (Z.of_nat (size (Errors g))),
         g).

End Game.

(* ===================================================================== *)
(** * Notions used to state the properties *)
(* ===================================================================== *)

Module Model.
Import Go Game.

(** [accept g char] is the body of [AddCharacter] from
    [lineText := []rune(g.DisplayLines[0])] on. *)
Definition accept (g : TypingGame) (char : rune) : M TypingGame :=
  let* line0 := lift (index (DisplayLines g) 0) in
  let lineText := runes line0 in
  if CurrentPos g =? len lineText then
    if char =? 32 then
      let* input := lift (concat (UserInput g) (encode char)) in
      let g := set_UserInput input g in
      let g := set_CurrentPos (incr (CurrentPos g)) g in
      let g := set_GlobalPos (incr (GlobalPos g)) g in
      shiftLines g
    else ret g
  else if (CurrentPos g <? len lineText) && (0 <=? CurrentPos g) then
    let* input := lift (concat (UserInput g) (encode char)) in
    let g := set_UserInput input g in
    let* expected := lift (index lineText (CurrentPos g)) in
    let g :=
      if negb (expected =? char) then
        set_TotalErrorsMade (incr (TotalErrorsMade g))
          (set_Errors (<[GlobalPos g := true]> (Errors g)) g)
      else g in
    let g := set_CurrentPos (incr (CurrentPos g)) g in
    ret (set_GlobalPos (incr (GlobalPos g)) g)
  else ret g.

(** [advance g] is the body of [HandleEnterKey] once the cursor is known
    to sit at the end of the line. *)
Definition advance (g : TypingGame) : M TypingGame :=
  let* input := lift (concat (UserInput g) " ") in
  let g := set_UserInput input g in
  let g := set_CurrentPos (incr (CurrentPos g)) g in
  let g := set_GlobalPos (incr (GlobalPos g)) g in
  shiftLines g.

(** What holds of every session the engine builds: the window has its
    three lines, the cursor stays on the line, the positions are counted
    by the input text, and errors are keyed below [GlobalPos]. *)
Record inv (g : TypingGame) : Prop := mkInv {
  inv_lines : LinesPerView g = 3;
  inv_chars : CharsPerLine g = 50;
  inv_window : len (DisplayLines g) = 3;
  inv_pos : 0 <= CurrentPos g <= GlobalPos g;
  inv_input : GlobalPos g <= slen (UserInput g) <= max_int;
  inv_errors : forall k, is_Some (Errors g !! k) -> 0 <= k < GlobalPos g;
  inv_words : 0 <= WordsTyped g <= max_int;
  inv_cursor : forall line0, index (DisplayLines g) 0 = Some line0 ->
               CurrentPos g <= len (runes line0);
  inv_clock : IsStarted g = true -> StartTime g <> None;
  inv_mistakes : in_int (TotalErrorsMade g);
  inv_buffer : len (AllWords g) <= max_int
}.

(** The sessions that the operations of the engine build, from worlds that
    satisfy [ok]. *)
Inductive sessions (ok : World -> Prop) : TypingGame -> Prop :=
| s_new d w g w' :
    ok w -> NewTypingGame d w = Some (g, w') -> sessions ok g
| s_add g c w g' w' :
    sessions ok g -> ok w -> AddCharacter g c w = Some (g', w') ->
    sessions ok g'
| s_enter g w b g' w' :
    sessions ok g -> ok w -> HandleEnterKey g w = Some (b, g', w') ->
    sessions ok g'
| s_remove g :
    sessions ok g -> sessions ok (RemoveCharacter g).

Definition reachable : TypingGame -> Prop := sessions (fun _ => True).

(** The time since the start of the session, at the next reading of the
    clock, and the verdict of [IsTimeUp] on it. *)
Definition elapsed (g : TypingGame) (w : World) : Z :=
  Sub (clock w (ticks w)) (StartTime g).

Definition time_is_up (g : TypingGame) (w : World) : bool :=
  timeUp (Duration g) (elapsed g w).

(** The window [generateDisplayLines] computes. *)
Definition window (g : TypingGame) : list string :=
  padLines (LinesPerView g)
    (fillLines (CharsPerLine g) (Z.to_nat (LinesPerView g))
       (skipn (Z.to_nat (WordsTyped g)) (AllWords g))).

(** The session a line advance leaves, before the buffer grows. *)
Definition shifted (g : TypingGame) (line0 : string) : TypingGame :=
  let g1 :=
    set_CurrentPos 0
      (set_WordsTyped (WordsTyped g + Fields_len line0) g) in
  set_DisplayLines (window g1) g1.

(** Room for one more keystroke: the input text and the word buffer can
    still grow, and the count of typed words stays in range. *)
Definition room (g : TypingGame) (w : World) : Prop :=
  slen (UserInput g) + 4 <= max_int /\
  (forall line0, index (DisplayLines g) 0 = Some line0 ->
                 WordsTyped g + Fields_len line0 <= max_int) /\
  (forall i, len (AllWords g) + len (wordSource w i 100) <= max_int).

(** The session after [char] was typed where [expected] stands. *)
Definition typed (g : TypingGame) (char expected : rune) : TypingGame :=
  let g1 := set_UserInput (String.append (UserInput g) (encode char)) g in
  let g2 :=
    if negb (expected =? char) then
      set_TotalErrorsMade (incr (TotalErrorsMade g1))
        (set_Errors (<[GlobalPos g1 := true]> (Errors g1)) g1)
    else g1 in
  set_GlobalPos (incr (GlobalPos g2))
    (set_CurrentPos (incr (CurrentPos g2)) g2).

(** The session as space or Enter at the end of the line leaves it before
    [shiftLines] is called. *)
Definition spaced (g : TypingGame) : TypingGame :=
  set_GlobalPos (incr (GlobalPos g))
    (set_CurrentPos (incr (CurrentPos g))
       (set_UserInput (String.append (UserInput g) " ") g)).

(** The session and the world after the line advance: [shiftLines] on
    [spaced g], the buffer grown when fewer than 50 words are left. *)
Definition advanced (g : TypingGame) (w : World) (line0 : string)
    : TypingGame * World :=
  if len (AllWords g) - 50 <? WordsTyped g + Fields_len line0
  then (set_AllWords (AllWords g ++ wordSource w (draws w) 100)
          (shifted (spaced g) line0), drawn w)
  else (shifted (spaced g) line0, w).

(** Modelled from the spec: [GenerateWords] is not among the sources at
    hand; the spec has the word source produce lowercase words. What is
    used of that is less: a word is ASCII text without white space. *)
Definition plain_byte (b : Z) : bool := (b <? 128) && negb (asciiSpace b).

Definition plain_word (s : string) : bool := forallb plain_byte (bytes s).

(** A world whose word source delivers nothing but such words. *)
Definition tidy (w : World) : Prop :=
  forall i n, forallb plain_word (wordSource w i n) = true.

Definition is_ascii (s : string) : bool :=
  forallb (fun b => b <? 128) (bytes s).

(** The first line of the window, counted in words: it has at most [n]
    fields, where the [n] words from [WordsTyped] on exist and fit a
    line. *)
Definition first_line_bound (g : TypingGame) (line0 : string) : Prop :=
  exists n,
    0 <= n /\ Fields_len line0 <= n /\
    WordsTyped g + n <= len (AllWords g) /\
    forall i word,
      WordsTyped g <= i < WordsTyped g + n ->
      index (AllWords g) i = Some word -> slen word <= CharsPerLine g.

(** What holds in addition of a session over a tidy word source: the
    first display line stands for words that fit a line, and
    [WordsTyped] is at or before every word that does not. *)
Record orderly (g : TypingGame) : Prop := mkOrderly {
  ord_lines : LinesPerView g = 3;
  ord_window : len (DisplayLines g) = 3;
  ord_typed : 0 <= WordsTyped g <= len (AllWords g);
  ord_buffer : len (AllWords g) <= max_int;
  ord_plain : forallb plain_word (AllWords g) = true;
  ord_first : forall line0, index (DisplayLines g) 0 = Some line0 ->
              first_line_bound g line0;
  ord_blocked : forall k word,
      index (AllWords g) k = Some word -> CharsPerLine g < slen word ->
      WordsTyped g <= k;
  ord_empty : forall word,
      index (AllWords g) (WordsTyped g) = Some word ->
      CharsPerLine g < slen word ->
      index (DisplayLines g) 0 = Some EmptyString;
  ord_exhausted :
      len (AllWords g) <= WordsTyped g ->
      index (DisplayLines g) 0 = Some EmptyString
}.

(** Two sessions with the same buffer, window and word count. *)
Definition same_words (g g' : TypingGame) : Prop :=
  AllWords g' = AllWords g /\ DisplayLines g' = DisplayLines g /\
  WordsTyped g' = WordsTyped g /\ CharsPerLine g' = CharsPerLine g /\
  LinesPerView g' = LinesPerView g.

(** Either nothing, or a line advance. *)
Definition words_step (g g' : TypingGame) (w : World) : Prop :=
  same_words g g' \/
  exists gs ws w',
    same_words g gs /\ wordSource ws = wordSource w /\
    shiftLines gs ws = Some (g', w').

(** From [g] to [g']: the word count has not gone back, and the buffer
    has only grown at its end. *)
Definition carried (g g' : TypingGame) : Prop :=
  WordsTyped g <= WordsTyped g' /\
  (exists new, AllWords g' = AllWords g ++ new) /\
  CharsPerLine g' = CharsPerLine g.

(** One operation on a session, and any number of them. *)
Inductive step (ok : World -> Prop) (g : TypingGame) : TypingGame -> Prop :=
| step_add c w g' w' :
    ok w -> AddCharacter g c w = Some (g', w') -> step ok g g'
| step_enter w b g' w' :
    ok w -> HandleEnterKey g w = Some (b, g', w') -> step ok g g'
| step_remove : step ok g (RemoveCharacter g).

Inductive steps (ok : World -> Prop) : TypingGame -> TypingGame -> Prop :=
| steps_none g : steps ok g g
| steps_more g g1 g2 : step ok g g1 -> steps ok g1 g2 -> steps ok g g2.

(** The record [GetStats] builds for a started session, from the elapsed
    time it reads first and the verdict of [IsTimeUp] it obtains next. *)
Definition stats_of (g : TypingGame) (elapsed : Z) (up : bool)
    : TypingStats :=
  let timeForCalculation :=
    if up then int_mul (Duration g) Second else elapsed in
  let minutes := Minutes timeForCalculation in
  let wpm :=
    if PrimFloat.ltb 0 minutes
    then (float64 (GlobalPos g) / 5 / minutes)%float else 0%float in
  let correctChars := int_sub (GlobalPos g) (TotalErrorsMade g) in
  let accuracy :=
    if 0 <? GlobalPos g
    then (float64 correctChars / float64 (GlobalPos g) * 100)%float
    else 0%float in
  let wpm := if PrimFloat.ltb wpm 0 then 0%float else wpm in
  let accuracy := if PrimFloat.ltb accuracy 0 then 0%float else accuracy in
  mkStats wpm accuracy (GlobalPos g) correctChars
    (len (runes (GetDisplayText g))) timeForCalculation
    (IsFinished g) (Z.of_nat (size (Errors g))).

(** Zero of either sign, not-a-number, or of positive sign. *)
Definition not_negative (f : spec_float) : bool :=
  match f with
  | S754_zero _ | S754_nan => true
  | S754_infinity s | S754_finite s _ _ => negb s
  end.

(** Of positive sign and not zero. *)
Definition positive (f : spec_float) : bool :=
  match f with
  | S754_infinity s | S754_finite s _ _ => negb s
  | _ => false
  end.

End Model.

(* ===================================================================== *)
(** * Concrete worlds and sessions *)
(* ===================================================================== *)

Module Samples.
Import Go Game Model.

(** A clock read once per second, starting at [t0] seconds. *)
Definition clock_from (t0 : Z) : nat -> Z :=
  fun i => (t0 + Z.of_nat i) * Second.

(** A word source with the answer [["ab"; "cd"]] to every request. *)
Definition ab_cd : nat -> Z -> list string :=
  fun _ _ => ["ab"; "cd"]%string.

(** A word source that answers a request for [n] words with [n] times
    ["ab"]. *)
Definition abs_source : nat -> Z -> list string :=
  fun _ n => repeat "ab"%string (Z.to_nat n).

(** A word of 52 letters, and a source of nothing else. *)
Definition long_word : string :=
  "abcdefghijklmnopqrstuvwxyzabcdefghijklmnopqrstuvwxyz".

Definition long_source : nat -> Z -> list string :=
  fun _ n => repeat long_word (Z.to_nat n).

Definition calm : World := mkWorld (clock_from 0) 0 ab_cd 0.
Definition late : World := mkWorld (clock_from 11) 0 ab_cd 0.

(** The session [NewTypingGame(10)] builds over ["ab"], ["cd"]. *)
Definition fresh : TypingGame :=
  mkGame ["ab"; "cd"]%string ["ab cd"; ""; ""]%string "" 0 0 None 10
         false false ∅ 0 3 50 0.

(** [fresh] after the keystroke [a] at time 0. *)
Definition typed_a : TypingGame :=
  mkGame ["ab"; "cd"]%string ["ab cd"; ""; ""]%string "a" 1 1 (Some 0) 10
         true false ∅ 0 3 50 0.

(** [typed_a] after the keystroke [b]. *)
Definition typed_ab : TypingGame :=
  mkGame ["ab"; "cd"]%string ["ab cd"; ""; ""]%string "ab" 2 2 (Some 0) 10
         true false ∅ 0 3 50 0.

(** [typed_a] after the wrong keystroke [x]. *)
Definition typed_ax : TypingGame :=
  mkGame ["ab"; "cd"]%string ["ab cd"; ""; ""]%string "ax" 2 2 (Some 0) 10
         true false {[1 := true]} 1 3 50 0.

(** The session [NewTypingGame(10)] builds when the first word is too long
    for a line. *)
Definition blocked : TypingGame :=
  mkGame (repeat long_word 200) [""; ""; ""]%string "" 0 0 None 10
         false false ∅ 0 3 50 0.

(** A world whose clock is read once per millisecond and whose word
    source answers every request in full. *)
Definition plenty : World :=
  mkWorld (fun i => Z.of_nat i * 1000000) 0 abs_source 0.

Definition line17 : string :=
  "ab ab ab ab ab ab ab ab ab ab ab ab ab ab ab ab ab".

(** The session [NewTypingGame(10)] builds over 200 times ["ab"], and the
    same session with its first line typed, the cursor at the end of the
    line. *)
Definition fresh200 : TypingGame :=
  mkGame (repeat "ab"%string 200) [line17; line17; line17] "" 0 0 None 10
         false false ∅ 0 3 50 0.

Definition eol200 : TypingGame :=
  mkGame (repeat "ab"%string 200) [line17; line17; line17] line17 50 50
         (Some 0) 10 true false ∅ 0 3 50 0.

(** A sequence of keystrokes. *)
Fixpoint type_keys (cs : list rune) (g : TypingGame) : M TypingGame :=
  match cs with
  | [] => ret g
  | c :: cs' => let* g' := AddCharacter g c in type_keys cs' g'
  end.

(** [fresh] with its line ["ab cd"] typed. *)
Definition typed_line : TypingGame :=
  mkGame ["ab"; "cd"]%string ["ab cd"; ""; ""]%string "ab cd" 5 5 (Some 0)
         10 true false ∅ 0 3 50 0.

End Samples.

(* ===================================================================== *)
(** * Further notions: more invariants, line advances, the renderer's view *)
(* ===================================================================== *)

Module More.
Import Go Game Model Samples.

(** More of what holds of every session the engine builds: the display
    lines fit the line width, [Errors] holds nothing but [true], and only
    a started session is finished. *)
Record kept (g : TypingGame) : Prop := mkKept {
  kept_width : Forall (fun line => slen line <= 50) (DisplayLines g);
  kept_true : forall k v, Errors g !! k = Some v -> v = true;
  kept_finished : IsFinished g = true -> IsStarted g = true
}.

(** A word as a word list has it: plain and not empty. *)
Definition proper_word (s : string) : bool :=
  plain_word s && (0 <? slen s).

(** The clock stays short of the configured duration at the next [n]
    readings, the ones that [n] keystrokes of a running session take. *)
Definition in_time (g : TypingGame) (w : World) (n : nat) : Prop :=
  forall i, (i < n)%nat ->
    timeUp (Duration g)
      (Sub (clock w (ticks w + i)%nat) (StartTime g)) = false.

(** ** styleChar (internal/ui/ui.go)

    The renderer picks one of four styles for the character at [index]
    of the line; [style.Render(string(char))] is the call of the terminal
    styling library, of which the embedding keeps the style and the text
    it is applied to. A nil [Errors] map reads like an empty one. *)
Inductive Style : Set := errorStyle | boldStyle | cursorStyle | mutedStyle.

Definition styleChar (g : TypingGame) (char : rune) (index : Z)
    : Style * string :=
  let userPos := CurrentPos g in
  let errorIndex := int_sub (GlobalPos g) (int_sub userPos index) in
  if index <? userPos then
    match Errors g !! errorIndex with
    | Some _ => (errorStyle, encode char)
    | None => (boldStyle, encode char)
    end
  else if index =? userPos then (cursorStyle, encode char)
  else (mutedStyle, encode char).

(** Lines packed greedily: each of the [chunks] of words is followed, if
    any word follows at all, by a word that its line has no room for. *)
Fixpoint packed (c : Z) (chunks : list (list string)) (rest : list string)
    : Prop :=
  match chunks with
  | [] => True
  | ch :: more =>
    match List.concat more ++ rest with
    | [] => True
    | word :: _ =>
      c < slen (Join ch " ")
          + (if 0 <? slen (Join ch " ") then 1 else 0) + slen word
    end /\ packed c more rest
  end.

(** What an operation may do to the world between [w] and [w']: the clock
    is read [reads] times, and the word source is asked either not at
    all, the buffer staying as it was, or once for 100 words that are
    appended to the buffer. *)
Definition used (g g' : TypingGame) (w w' : World) (reads : nat) : Prop :=
  clock w' = clock w /\ wordSource w' = wordSource w /\
  ticks w' = (ticks w + reads)%nat /\
  ((draws w' = draws w /\ AllWords g' = AllWords g) \/
   (draws w' = S (draws w) /\
    AllWords g' = AllWords g ++ wordSource w (draws w) 100)).

(** The window is the one computed from the words the buffer held when
    it was generated; the buffer has at most grown at its end since. *)
Definition shown (g : TypingGame) : Prop :=
  exists old new,
    AllWords g = old ++ new /\
    DisplayLines g = window (set_AllWords old g).

(** A line advance from [g]: Enter accepted, or a space accepted at the
    end of the line. *)
Definition advances (g : TypingGame) (w : World) (g' : TypingGame)
    (w' : World) : Prop :=
  HandleEnterKey g w = Some (true, g', w') \/
  (AddCharacter g 32 w = Some (g', w') /\ GlobalPos g' <> GlobalPos g /\
   exists line0,
     index (DisplayLines g) 0 = Some line0 /\
     CurrentPos g = len (runes line0)).

(** A word source that answers a request for [n] words with [n] times
    ["a"], in a world whose clock is read once per millisecond. *)
Definition as_source : nat -> Z -> list string :=
  fun _ n => repeat "a"%string (Z.to_nat n).

Definition steady : World :=
  mkWorld (fun i => Z.of_nat i * 1000000) 0 as_source 0.

(** 25 times ["a"], as a line: 49 bytes. *)
Definition line25 : string :=
  "a a a a a a a a a a a a a a a a a a a a a a a a a".

(** The session [NewTypingGame(10)] builds over 200 times ["a"]. *)
Definition fresh_a : TypingGame :=
  mkGame (repeat "a"%string 200) [line25; line25; line25] "" 0 0 None 10
         false false ∅ 0 3 50 0.

(** The keystrokes that complete [n] lines, each closed by a space, and
    type the next line up to its end. *)
Definition keys_to (n : nat) : list rune :=
  List.concat (repeat (runes line25 ++ [32]) n) ++ runes line25.

(** [fresh_a] after five lines and with the sixth typed, the cursor at
    its end: 125 words are counted, 75 are left. *)
Definition eol150 : TypingGame :=
  mkGame (repeat "a"%string 200) [line25; line25; line25]
         (Join (repeat line25 6) " ") 49 299 (Some 0) 10
         true false ∅ 0 3 50 125.

(** The same one line later: 150 words are counted, 50 are left. *)
Definition eol175 : TypingGame :=
  mkGame (repeat "a"%string 200) [line25; line25; EmptyString]
         (Join (repeat line25 7) " ") 49 349 (Some 0) 10
         true false ∅ 0 3 50 150.

(** [typed_a] marked finished, as [AddCharacter] leaves it once time is
    up. *)
Definition finished_a : TypingGame := set_IsFinished true typed_a.

End More.

(* ===================================================================== *)
(** * Facts about the Go layer *)
(* ===================================================================== *)

Module GoFacts.
Import Go.

Lemma wrap_id z : in_int z -> wrap z = z.
Proof.
  unfold in_int, wrap, min_int, max_int. intros H.
  rewrite Z.mod_small; lia.
Qed.

Lemma wrap_in_int z : in_int (wrap z).
Proof.
  unfold in_int, wrap, min_int, max_int.
  pose proof (Z.mod_pos_bound (z + 2 ^ 63) (2 ^ 64)). lia.
Qed.

(** Wrapping never takes a value of the range or above it upward. *)
Lemma wrap_le z : min_int <= z -> wrap z <= z.
Proof.
  intros H. destruct (Z_le_gt_dec z max_int) as [Hle | Hgt].
  - rewrite wrap_id; [lia | split; assumption].
  - pose proof (wrap_in_int z) as [_ Hw]. lia.
Qed.

Lemma incr_id z : min_int <= z < max_int -> incr z = z + 1.
Proof.
  intros H. unfold incr, int_add. apply wrap_id.
  unfold in_int, min_int, max_int in *. lia.
Qed.

Lemma decr_id z : min_int < z <= max_int -> decr z = z - 1.
Proof.
  intros H. unfold decr, int_sub. apply wrap_id.
  unfold in_int, min_int, max_int in *. lia.
Qed.

Lemma len_nonneg {A} (l : list A) : 0 <= len l.
Proof. unfold len. lia. Qed.

Lemma len_app {A} (l1 l2 : list A) : len (l1 ++ l2) = len l1 + len l2.
Proof. unfold len. rewrite List.length_app. lia. Qed.

Lemma slen_nonneg s : 0 <= slen s.
Proof. unfold slen. lia. Qed.

Lemma append_empty t : String.append EmptyString t = t.
Proof. reflexivity. Qed.

Lemma append_String a s t :
  String.append (String a s) t = String a (String.append s t).
Proof. reflexivity. Qed.

Lemma slen_append s t : slen (String.append s t) = slen s + slen t.
Proof.
  unfold slen. induction s as [| a s IH].
  - rewrite append_empty. simpl. lia.
  - rewrite append_String. cbn [String.length]. lia.
Qed.

Lemma slen_zero s : slen s = 0 -> s = EmptyString.
Proof. destruct s; [reflexivity |]. unfold slen. cbn [String.length]. lia. Qed.

Lemma slen_drop_last s : 0 < slen s -> slen (drop_last s) = slen s - 1.
Proof.
  unfold slen. induction s as [| a s IH]; [simpl; lia |].
  intros _. destruct s as [| b s]; [reflexivity |].
  change (drop_last (String a (String b s)))
    with (String a (drop_last (String b s))).
  cbn [String.length] in *. lia.
Qed.

Lemma slen_string_of_bytes l : slen (string_of_bytes l) = len l.
Proof.
  unfold slen, len, string_of_bytes.
  induction l as [| x l IH];
    cbn [map string_of_list_ascii String.length length]; lia.
Qed.

(** Every rune is encoded in one to four bytes. *)
Lemma slen_encode r : 1 <= slen (encode r) <= 4.
Proof.
  unfold encode. rewrite slen_string_of_bytes.
  repeat match goal with |- context [if ?b then _ else _] => destruct b end;
    unfold len; cbn [length]; lia.
Qed.

Lemma index_Some {A} (l : list A) i x :
  index l i = Some x -> 0 <= i < len l.
Proof.
  unfold index. destruct (0 <=? i) eqn:H0; simpl; [| discriminate].
  destruct (i <? len l) eqn:H1; [| discriminate]. lia.
Qed.

Lemma index_in_range {A} (l : list A) i :
  0 <= i < len l -> exists x, index l i = Some x.
Proof.
  intros [H0 H1]. unfold index.
  destruct (Z.leb_spec 0 i); [| lia]. destruct (Z.ltb_spec i (len l)); [| lia].
  simpl. destruct (nth_error l (Z.to_nat i)) as [x |] eqn:E; [eauto |].
  apply nth_error_None in E. unfold len in H1. lia.
Qed.

Lemma index_0_cons {A} (x : A) l : index (x :: l) 0 = Some x.
Proof.
  unfold index, len. cbn [length].
  destruct (Z.ltb_spec 0 (Z.of_nat (S (length l)))); [reflexivity | lia].
Qed.

End GoFacts.

(* ===================================================================== *)
(** * Facts about [float64] *)
(* ===================================================================== *)

Module FloatFacts.
Import Go Model.

Lemma not_negative_ltb f :
  not_negative f = true -> SFltb f (S754_zero false) = false.
Proof. destruct f as [s | s | | s m e]; try destruct s; cbn; congruence. Qed.

Lemma ltb_positive f : SFltb (S754_zero false) f = true -> positive f = true.
Proof. destruct f as [s | s | | s m e]; try destruct s; cbn; congruence. Qed.

Lemma not_negative_round m e l :
  not_negative (binary_round_aux prec emax false m e l) = true.
Proof.
  unfold binary_round_aux.
  destruct (shr_fexp prec emax m e l) as [mrs' e'].
  destruct (shr_fexp prec emax _ e' loc_Exact) as [mrs'' e''].
  destruct (shr_m mrs''); [reflexivity | | reflexivity].
  destruct (Z.leb e'' (Z.sub emax prec)); reflexivity.
Qed.

Lemma not_negative_div x y :
  not_negative x = true -> positive y = true ->
  not_negative (SFdiv prec emax x y) = true.
Proof.
  destruct x as [sx | sx | | sx mx ex], y as [sy | sy | | sy my ey];
    cbn [not_negative positive SFdiv]; intros Hx Hy;
    try discriminate; try reflexivity;
    try (apply negb_true_iff in Hx; subst sx);
    try (apply negb_true_iff in Hy; subst sy); try reflexivity.
  destruct (SFdiv_core_binary prec emax (Zpos mx) ex (Zpos my) ey)
    as [[mz ez] lz].
  apply not_negative_round.
Qed.

Lemma not_negative_of_int z :
  0 <= z <= max_int -> not_negative (Prim2SF (float64 z)) = true.
Proof.
  intros [Hz Hmax]. unfold float64.
  destruct (Z.eqb_spec z min_int); [unfold min_int in *; lia |].
  destruct (Z.ltb_spec z 0); [lia |].
  rewrite of_uint63_spec.
  unfold binary_normalize. destruct (Uint63Axioms.to_Z (Uint63.of_Z z)) eqn:E;
    [reflexivity | | ].
  - unfold binary_round.
    destruct (shl_align p 0 _) as [mz ez]. apply not_negative_round.
  - pose proof (Uint63.to_Z_bounded (Uint63.of_Z z)) as Hb.
    change Uint63Axioms.to_Z with Uint63.to_Z in E. lia.
Qed.

(** The quotient [float64(z) / 5 / minutes] is not below zero when [z]
    is not and [minutes] is above zero. *)
Lemma wpm_not_negative z minutes :
  0 <= z <= max_int -> PrimFloat.ltb 0 minutes = true ->
  PrimFloat.ltb (float64 z / 5 / minutes) 0 = false.
Proof.
  intros Hz Hm. rewrite ltb_spec in Hm |- *.
  change (Prim2SF 0) with (S754_zero false) in *.
  apply not_negative_ltb. rewrite !div_spec.
  apply not_negative_div; [| apply ltb_positive; assumption].
  apply not_negative_div; [apply not_negative_of_int; assumption |].
  vm_compute. reflexivity.
Qed.

End FloatFacts.

(* ===================================================================== *)
(** * Reachable sessions and their invariants *)
(* ===================================================================== *)

Module Session.
Import Go GoFacts Game Model.

(** ** Running a computation *)

Lemma bind_Some {A B} (m : M A) (k : A -> M B) w r :
  bind m k w = Some r <-> exists a w1, m w = Some (a, w1) /\ k a w1 = Some r.
Proof.
  unfold bind. destruct (m w) as [[a w1] |].
  - split; [eauto | intros (a' & w' & E & H); congruence].
  - split; [discriminate | intros (a' & w' & E & H); discriminate].
Qed.

Lemma lift_Some {A} (o : option A) w a w' :
  lift o w = Some (a, w') <-> o = Some a /\ w' = w.
Proof.
  unfold lift. destruct o; split; try discriminate;
    intros H; try (destruct H; discriminate).
  - inversion H; auto.
  - destruct H as [H ->]. congruence.
Qed.

Lemma ret_Some {A} (a b : A) w w' :
  ret a w = Some (b, w') <-> b = a /\ w' = w.
Proof.
  unfold ret. split; intros H; [inversion H; auto | destruct H; congruence].
Qed.

(** ** The display window *)

Lemma length_fillLines c n rest : (length (fillLines c n rest) <= n)%nat.
Proof.
  revert rest. induction n as [| n IH]; intros rest; [simpl; lia |].
  destruct rest as [| word rest]; [simpl; lia |].
  cbn [fillLines]. destruct (fillLine c EmptyString (word :: rest)) as [l r].
  cbn [length]. specialize (IH r). lia.
Qed.

Lemma len_padLines n lines :
  0 <= n -> len lines <= n -> len (padLines n lines) = n.
Proof.
  intros Hn Hl. unfold padLines. rewrite len_app. unfold len in *.
  rewrite repeat_length. lia.
Qed.

Lemma generateDisplayLines_Some g g' :
  generateDisplayLines g = Some g' ->
  (0 < LinesPerView g -> 0 <= WordsTyped g) /\
  g' = set_DisplayLines
         (padLines (LinesPerView g)
            (fillLines (CharsPerLine g) (Z.to_nat (LinesPerView g))
               (skipn (Z.to_nat (WordsTyped g)) (AllWords g)))) g.
Proof.
  unfold generateDisplayLines.
  destruct (LinesPerView g <? 0); [discriminate |].
  destruct (Z.ltb_spec (WordsTyped g) 0) as [Hw | Hw],
           (Z.ltb_spec 0 (LinesPerView g)) as [Hl | Hl];
    simpl; intros H; try discriminate; inversion H; split; auto; lia.
Qed.

(** The window always has [LinesPerView] entries. *)
Lemma generateDisplayLines_len g g' :
  generateDisplayLines g = Some g' -> 0 <= LinesPerView g ->
  len (DisplayLines g') = LinesPerView g.
Proof.
  intros H Hn. apply generateDisplayLines_Some in H as [_ ->].
  cbn [DisplayLines set_DisplayLines]. apply len_padLines; [assumption |].
  pose proof (length_fillLines (CharsPerLine g) (Z.to_nat (LinesPerView g))
                (skipn (Z.to_nat (WordsTyped g)) (AllWords g))).
  unfold len. lia.
Qed.

(** ** What a line advance changes *)

Lemma shiftLines_Some g w g' w' :
  shiftLines g w = Some (g', w') ->
  exists line0 gd,
    index (DisplayLines g) 0 = Some line0 /\
    generateDisplayLines
      (set_CurrentPos 0
         (set_WordsTyped (int_add (WordsTyped g) (Fields_len line0)) g))
      = Some gd /\
    (((len (AllWords g) - 50 <? WordsTyped gd) = false /\ g' = gd /\ w' = w)
     \/
     ((len (AllWords g) - 50 <? WordsTyped gd) = true /\
      len (AllWords g) + len (wordSource w (draws w) 100) <= max_int /\
      g' = set_AllWords (AllWords g ++ wordSource w (draws w) 100) gd /\
      w' = drawn w)).
Proof.
  unfold shiftLines. intros H.
  apply bind_Some in H as (line0 & w1 & E0 & H).
  apply lift_Some in E0 as [E0 ->].
  apply bind_Some in H as (gd & w1 & Eg & H).
  apply lift_Some in Eg as [Eg ->].
  exists line0, gd. split; [assumption |]. split; [assumption |].
  pose proof (generateDisplayLines_Some _ _ Eg) as [_ Hgd].
  assert (Hall : AllWords gd = AllWords g) by (rewrite Hgd; reflexivity).
  rewrite Hall in H.
  destruct (len (AllWords g) - 50 <? WordsTyped gd) eqn:Egrow.
  - right. apply bind_Some in H as (new & w1 & En & H).
    unfold GenerateWords in En.
    destruct (len (wordSource w (draws w) 100) <=? max_int); [| discriminate].
    inversion En; subst new w1; clear En.
    apply bind_Some in H as (all & w1 & Ea & H).
    apply lift_Some in Ea as [Ea ->]. apply ret_Some in H as [-> ->].
    unfold append in Ea.
    destruct (Z.leb_spec (len (AllWords g) + len (wordSource w (draws w) 100))
                max_int); [| discriminate].
    inversion Ea. auto.
  - left. apply ret_Some in H as [-> ->]. auto.
Qed.

(** The fields a line advance leaves alone, and the ones it sets. *)
Lemma shiftLines_frame g w g' w' :
  shiftLines g w = Some (g', w') ->
  UserInput g' = UserInput g /\ GlobalPos g' = GlobalPos g /\
  CurrentPos g' = 0 /\ Errors g' = Errors g /\
  TotalErrorsMade g' = TotalErrorsMade g /\ StartTime g' = StartTime g /\
  Duration g' = Duration g /\ IsStarted g' = IsStarted g /\
  IsFinished g' = IsFinished g /\ LinesPerView g' = LinesPerView g /\
  CharsPerLine g' = CharsPerLine g /\
  (0 <= LinesPerView g -> len (DisplayLines g') = LinesPerView g) /\
  (0 < LinesPerView g -> 0 <= WordsTyped g') /\
  in_int (WordsTyped g') /\
  (len (AllWords g) <= max_int -> len (AllWords g') <= max_int).
Proof.
  intros H. apply shiftLines_Some in H as (line0 & gd & E0 & Eg & H).
  pose proof (generateDisplayLines_len _ _ Eg) as Hlen.
  pose proof (generateDisplayLines_Some _ _ Eg) as [Hwt Hgd].
  cbn [LinesPerView WordsTyped set_CurrentPos set_WordsTyped] in Hlen, Hwt.
  assert (Hin : in_int (WordsTyped gd)).
  { rewrite Hgd. cbn. apply wrap_in_int. }
  assert (Hw : WordsTyped gd = int_add (WordsTyped g) (Fields_len line0))
    by (rewrite Hgd; reflexivity).
  destruct H as [(_ & -> & _) | (_ & Hroom & -> & _)];
    cbn [AllWords UserInput GlobalPos CurrentPos Errors TotalErrorsMade StartTime
         Duration IsStarted IsFinished LinesPerView CharsPerLine DisplayLines
         WordsTyped set_AllWords];
    rewrite ?Hw in *; rewrite Hgd in *;
    cbn [AllWords UserInput GlobalPos CurrentPos Errors TotalErrorsMade
         StartTime Duration IsStarted IsFinished LinesPerView CharsPerLine
         DisplayLines WordsTyped set_DisplayLines set_CurrentPos
         set_WordsTyped] in *;
    repeat split; auto;
    try apply (wrap_in_int (WordsTyped g + Fields_len line0));
    rewrite ?len_app; intros; lia.
Qed.

(** ** The step after the time check *)

Lemma AddCharacter_eq g char :
  AddCharacter g char =
  (let* g := (if negb (IsStarted g) then Start g else ret g) in
   let* up := (if IsFinished g then ret true else IsTimeUp g) in
   if up then ret (set_IsFinished true g) else accept g char).
Proof. reflexivity. Qed.

Ltac fields :=
  cbn [AllWords DisplayLines UserInput CurrentPos GlobalPos StartTime
       Duration IsStarted IsFinished Errors TotalErrorsMade LinesPerView
       CharsPerLine WordsTyped set_AllWords set_DisplayLines set_UserInput
       set_CurrentPos set_GlobalPos set_Started set_IsFinished set_Errors
       set_TotalErrorsMade set_WordsTyped] in *.

Lemma concat_Some s t u :
  concat s t = Some u ->
  u = String.append s t /\ slen u = slen s + slen t /\ slen u <= max_int.
Proof.
  unfold concat. destruct (Z.leb_spec (slen s + slen t) max_int);
    [| discriminate].
  intros E. inversion E. rewrite slen_append. auto.
Qed.

(** ** The operations keep the invariant *)

Lemma inv_advance g w g' w' :
  inv g -> advance g w = Some (g', w') -> inv g'.
Proof.
  intros [] H. unfold advance in H.
  apply bind_Some in H as (input & w1 & Ec & H).
  apply lift_Some in Ec as [Ec ->].
  apply concat_Some in Ec as (_ & Hlen & Hmax).
  change (slen " ") with 1 in Hlen.
  apply shiftLines_frame in H; fields.
  destruct H as (HU & HG & HC & HE & HT & HS & HD & HIs & HIf & HL & HCh
                 & HW & HWt & HWi & HA).
  assert (HG1 : incr (GlobalPos g) = GlobalPos g + 1)
    by (apply incr_id; unfold min_int; lia).
  constructor; rewrite ?HU, ?HG, ?HC, ?HE, ?HS, ?HIs, ?HL, ?HCh, ?HG1, ?HT;
    try lia; auto.
  - intros k Hk. specialize (inv_errors0 k Hk). lia.
  - destruct HWi. lia.
  - intros line0 _. apply len_nonneg.
Qed.

Lemma inv_accept g c w g' w' :
  inv g -> accept g c w = Some (g', w') -> inv g'.
Proof.
  intros Hinv H. unfold accept in H.
  apply bind_Some in H as (line0 & w1 & E0 & H).
  apply lift_Some in E0 as [E0 ->].
  destruct (CurrentPos g =? len (runes line0)) eqn:Eeol.
  - destruct (c =? 32) eqn:Esp.
    + apply Z.eqb_eq in Esp. subst c. eapply inv_advance; eassumption.
    + apply ret_Some in H as [-> ->]. assumption.
  - destruct ((CurrentPos g <? len (runes line0)) && (0 <=? CurrentPos g))
      eqn:Emid.
    + apply andb_true_iff in Emid as [Hlt _]. apply Z.ltb_lt in Hlt.
      apply bind_Some in H as (input & w1 & Ec & H).
      apply lift_Some in Ec as [Ec ->].
      apply concat_Some in Ec as (_ & Hlen & Hmax).
      pose proof (slen_encode c) as Henc.
      apply bind_Some in H as (expected & w1 & Ee & H).
      apply lift_Some in Ee as [_ ->]. fields.
      apply ret_Some in H as [-> ->].
      destruct Hinv.
      assert (HG1 : incr (GlobalPos g) = GlobalPos g + 1)
        by (apply incr_id; unfold min_int; lia).
      assert (HC1 : incr (CurrentPos g) = CurrentPos g + 1)
        by (apply incr_id; unfold min_int; lia).
      destruct (negb (expected =? c)); fields;
        constructor; fields; rewrite ?HG1, ?HC1; try lia; auto.
      * intros k Hk. destruct (decide (k = GlobalPos g)) as [-> | Hne];
          [lia |].
        rewrite lookup_insert_ne in Hk by congruence.
        specialize (inv_errors0 k Hk). lia.
      * intros l0 El0. rewrite E0 in El0. inversion El0; subst. lia.
      * apply wrap_in_int.
      * intros k Hk. specialize (inv_errors0 k Hk). lia.
      * intros l0 El0. rewrite E0 in El0. inversion El0; subst. lia.
    + apply ret_Some in H as [-> ->]. assumption.
Qed.

Lemma inv_set_IsFinished g b : inv g -> inv (set_IsFinished b g).
Proof. intros []. constructor; fields; auto. Qed.

Lemma Start_Some g w g' w' :
  Start g w = Some (g', w') ->
  (IsStarted g = true /\ g' = g /\ w' = w) \/
  (IsStarted g = false /\ g' = set_Started (Some (clock w (ticks w))) g
   /\ w' = tick w).
Proof.
  unfold Start. destruct (IsStarted g); simpl; intros H.
  - apply ret_Some in H as [-> ->]. auto.
  - apply bind_Some in H as (now & w1 & En & H).
    unfold time_Now in En. inversion En; subst.
    apply ret_Some in H as [-> ->]. auto.
Qed.

Lemma inv_Start g w g' w' : inv g -> Start g w = Some (g', w') -> inv g'.
Proof.
  intros Hinv H.
  apply Start_Some in H as [(_ & -> & _) | (_ & -> & _)]; [assumption |].
  destruct Hinv. constructor; fields; auto; discriminate.
Qed.

Lemma inv_AddCharacter g c w g' w' :
  inv g -> AddCharacter g c w = Some (g', w') -> inv g'.
Proof.
  intros Hinv H. rewrite AddCharacter_eq in H.
  apply bind_Some in H as (gs & w1 & Es & H).
  assert (Hs : inv gs).
  { destruct (negb (IsStarted g)).
    - eapply inv_Start; eassumption.
    - apply ret_Some in Es as [-> _]. assumption. }
  apply bind_Some in H as (up & w2 & _ & H).
  destruct up.
  - apply ret_Some in H as [-> _]. apply inv_set_IsFinished. assumption.
  - eapply inv_accept; eassumption.
Qed.

Lemma HandleEnterKey_eq g w :
  HandleEnterKey g w =
  (let* up := (if IsFinished g then ret true else IsTimeUp g) in
   if up then ret (false, g)
   else
     let* line0 := lift (index (DisplayLines g) 0) in
     if CurrentPos g =? len (runes line0) then
       let* g := advance g in ret (true, g)
     else ret (false, g)) w.
Proof.
  unfold HandleEnterKey, advance, bind.
  destruct ((if IsFinished g then ret true else IsTimeUp g) w)
    as [[[] w1] |]; try reflexivity.
  destruct (lift (index (DisplayLines g) 0) w1) as [[line0 w2] |];
    try reflexivity.
  destruct (CurrentPos g =? len (runes line0)); try reflexivity.
  destruct (lift (concat (UserInput g) " ") w2) as [[input w3] |];
    reflexivity.
Qed.

Lemma inv_HandleEnterKey g w b g' w' :
  inv g -> HandleEnterKey g w = Some (b, g', w') -> inv g'.
Proof.
  intros Hinv H. rewrite HandleEnterKey_eq in H.
  apply bind_Some in H as (up & w1 & _ & H).
  destruct up.
  - apply ret_Some in H as [E _]. inversion E; subst. assumption.
  - apply bind_Some in H as (line0 & w2 & _ & H).
    destruct (CurrentPos g =? len (runes line0)).
    + apply bind_Some in H as (ga & w3 & Ea & H).
      apply ret_Some in H as [E _]. inversion E; subst.
      eapply inv_advance; eassumption.
    + apply ret_Some in H as [E _]. inversion E; subst. assumption.
Qed.

Lemma inv_RemoveCharacter g : inv g -> inv (RemoveCharacter g).
Proof.
  intros Hinv. unfold RemoveCharacter.
  destruct (Z.ltb_spec 0 (slen (UserInput g))) as [Hu | Hu]; simpl;
    [| assumption].
  destruct (Z.ltb_spec 0 (CurrentPos g)) as [Hc | Hc]; [| assumption].
  destruct Hinv.
  assert (HG1 : decr (GlobalPos g) = GlobalPos g - 1)
    by (apply decr_id; unfold min_int; lia).
  assert (HC1 : decr (CurrentPos g) = CurrentPos g - 1)
    by (apply decr_id; unfold min_int; lia).
  constructor; fields; rewrite ?HG1, ?HC1, ?slen_drop_last; try lia; auto.
  - intros k Hk. destruct (decide (k = GlobalPos g - 1)) as [-> | Hne].
    + rewrite lookup_delete_eq in Hk. destruct Hk; discriminate.
    + rewrite lookup_delete_ne in Hk by congruence.
      specialize (inv_errors0 k Hk). lia.
  - intros l0 El0. specialize (inv_cursor0 l0 El0). lia.
Qed.

Lemma inv_NewTypingGame d w g w' :
  NewTypingGame d w = Some (g, w') -> inv g.
Proof.
  unfold NewTypingGame. intros H.
  apply bind_Some in H as (words & w1 & Eg & H).
  unfold GenerateWords in Eg.
  destruct (Z.leb_spec (len (wordSource w (draws w) 200)) max_int)
    as [Hwords |]; [| discriminate].
  inversion Eg; subst words w1; clear Eg.
  apply lift_Some in H as [H _].
  pose proof (generateDisplayLines_len _ _ H) as Hlen.
  apply generateDisplayLines_Some in H as [_ ->]. fields.
  constructor; fields; try (unfold max_int; lia); auto.
  - change (slen "") with 0. unfold max_int. lia.
  - intros k Hk. rewrite lookup_empty in Hk. destruct Hk; discriminate.
  - intros line0 _. apply len_nonneg.
  - unfold in_int, min_int, max_int. lia.
Qed.

Lemma sessions_inv ok g : sessions ok g -> inv g.
Proof.
  induction 1.
  - eapply inv_NewTypingGame; eassumption.
  - eapply inv_AddCharacter; eassumption.
  - eapply inv_HandleEnterKey; eassumption.
  - apply inv_RemoveCharacter; assumption.
Qed.

(** ** The clock as an operation sees it *)

Lemma IsTimeUp_started g w :
  IsStarted g = true -> IsTimeUp g w = Some (time_is_up g w, tick w).
Proof. intros Hs. unfold IsTimeUp. rewrite Hs. reflexivity. Qed.

Lemma IsTimeUp_fresh g w :
  IsStarted g = false -> IsTimeUp g w = Some (false, w).
Proof. intros Hs. unfold IsTimeUp. rewrite Hs. reflexivity. Qed.

(** A started session, neither finished nor out of time, passes the time
    check of [AddCharacter] and of [HandleEnterKey]. *)
Lemma AddCharacter_running g c w :
  IsStarted g = true -> IsFinished g = false -> time_is_up g w = false ->
  AddCharacter g c w = accept g c (tick w).
Proof.
  intros Hs Hf Hup. rewrite AddCharacter_eq. unfold bind at 1.
  rewrite Hs. cbn [negb ret]. unfold bind at 1. rewrite Hf.
  rewrite IsTimeUp_started, Hup by assumption. reflexivity.
Qed.

Lemma HandleEnterKey_running g w :
  IsStarted g = true -> IsFinished g = false -> time_is_up g w = false ->
  HandleEnterKey g w =
  (let* line0 := lift (index (DisplayLines g) 0) in
   if CurrentPos g =? len (runes line0) then
     let* g := advance g in ret (true, g)
   else ret (false, g)) (tick w).
Proof.
  intros Hs Hf Hup. rewrite HandleEnterKey_eq. unfold bind at 1.
  rewrite Hf, IsTimeUp_started, Hup by assumption. reflexivity.
Qed.

(** ** When the operations return *)

Lemma count_fields_nonneg space b l : 0 <= count_fields space b l.
Proof.
  revert b. induction l as [| x l IH]; intros b; cbn [count_fields]; [lia |].
  specialize (IH (space x)). destruct (b && negb (space x)); lia.
Qed.

Lemma Fields_len_nonneg s : 0 <= Fields_len s.
Proof.
  unfold Fields_len. destruct (forallb _ _); apply count_fields_nonneg.
Qed.

Lemma generateDisplayLines_total g :
  0 <= LinesPerView g -> 0 <= WordsTyped g ->
  generateDisplayLines g = Some (set_DisplayLines (window g) g).
Proof.
  intros Hl Hw. unfold generateDisplayLines.
  destruct (Z.ltb_spec (LinesPerView g) 0); [lia |].
  destruct (Z.ltb_spec (WordsTyped g) 0); [lia |]. reflexivity.
Qed.

Lemma shiftLines_total g w line0 :
  index (DisplayLines g) 0 = Some line0 -> 0 <= LinesPerView g ->
  0 <= WordsTyped g -> WordsTyped g + Fields_len line0 <= max_int ->
  len (AllWords g) + len (wordSource w (draws w) 100) <= max_int ->
  shiftLines g w =
  Some (if len (AllWords g) - 50 <? WordsTyped g + Fields_len line0
        then (set_AllWords (AllWords g ++ wordSource w (draws w) 100)
                (shifted g line0), drawn w)
        else (shifted g line0, w)).
Proof.
  intros E0 Hl Hw Hf Hroom. pose proof (Fields_len_nonneg line0) as Hn.
  unfold shiftLines, bind at 1. rewrite E0. cbn [lift].
  assert (Hadd : int_add (WordsTyped g) (Fields_len line0)
                 = WordsTyped g + Fields_len line0).
  { apply wrap_id. unfold in_int, min_int. lia. }
  rewrite Hadd. unfold bind at 1.
  rewrite generateDisplayLines_total by (fields; lia).
  cbn [lift]. fold (shifted g line0).
  change (AllWords (shifted g line0)) with (AllWords g).
  change (WordsTyped (shifted g line0))
    with (WordsTyped g + Fields_len line0).
  destruct (len (AllWords g) - 50 <? WordsTyped g + Fields_len line0);
    [| reflexivity].
  pose proof (len_nonneg (AllWords g)) as Hlen.
  unfold bind, GenerateWords, lift, append, ret.
  destruct (Z.leb_spec (len (wordSource w (draws w) 100)) max_int); [| lia].
  destruct (Z.leb_spec (len (AllWords g) + len (wordSource w (draws w) 100))
              max_int); [reflexivity | lia].
Qed.

Lemma concat_total s t :
  slen s + slen t <= max_int -> concat s t = Some (String.append s t).
Proof.
  intros H. unfold concat.
  destruct (Z.leb_spec (slen s + slen t) max_int); [reflexivity | lia].
Qed.

Lemma advance_total g w line0 :
  index (DisplayLines g) 0 = Some line0 -> 0 <= LinesPerView g ->
  0 <= WordsTyped g -> WordsTyped g + Fields_len line0 <= max_int ->
  slen (UserInput g) + 1 <= max_int ->
  len (AllWords g) + len (wordSource w (draws w) 100) <= max_int ->
  exists g' w', advance g w = Some (g', w').
Proof.
  intros E0 Hl Hw Hf Hin Hroom. unfold advance, bind at 1.
  rewrite concat_total by (change (slen " ") with 1; lia). cbn [lift].
  rewrite (shiftLines_total _ _ line0) by (fields; assumption).
  destruct (_ <? _); eauto.
Qed.

Lemma accept_total g c w :
  inv g -> room g w -> exists g' w', accept g c w = Some (g', w').
Proof.
  intros Hinv (Hin & Hwt & Hall).
  destruct (index_in_range (DisplayLines g) 0) as [line0 E0].
  { rewrite (inv_window _ Hinv). lia. }
  pose proof (slen_encode c) as Henc. pose proof (inv_words _ Hinv) as Hw.
  unfold accept, bind at 1. rewrite E0. cbn [lift].
  destruct (CurrentPos g =? len (runes line0)).
  - destruct (Z.eqb_spec c 32) as [-> | Hc]; [| unfold ret; eauto].
    apply (advance_total g w line0); auto; try lia.
    rewrite (inv_lines _ Hinv). lia.
  - destruct ((CurrentPos g <? len (runes line0)) && (0 <=? CurrentPos g))
      eqn:Emid; [| unfold ret; eauto].
    apply andb_true_iff in Emid as [Hlt Hge].
    apply Z.ltb_lt in Hlt. apply Z.leb_le in Hge.
    destruct (index_in_range (runes line0) (CurrentPos g)) as [e Ee];
      [lia |].
    unfold bind at 1. rewrite concat_total by lia. cbn [lift].
    unfold bind at 1. fields. rewrite Ee. cbn [lift]. unfold ret. eauto.
Qed.

Lemma AddCharacter_total g c w :
  inv g -> room g w -> exists g' w', AddCharacter g c w = Some (g', w').
Proof.
  intros Hinv Hroom. rewrite AddCharacter_eq. unfold bind at 1.
  assert (Hs : exists gs ws,
             (if negb (IsStarted g) then Start g else ret g) w
             = Some (gs, ws) /\ inv gs /\ room gs ws).
  { destruct (IsStarted g) eqn:Es; cbn [negb].
    - exists g, w. auto.
    - exists (set_Started (Some (clock w (ticks w))) g), (tick w).
      split; [unfold Start; rewrite Es; reflexivity |].
      split; [| exact Hroom].
      eapply inv_Start; [exact Hinv |].
      unfold Start. rewrite Es. reflexivity. }
  destruct Hs as (gs & ws & -> & Hinvs & Hrooms).
  unfold bind at 1.
  assert (Hup : exists up wu,
             (if IsFinished gs then ret true else IsTimeUp gs) ws
             = Some (up, wu) /\ room gs wu).
  { destruct (IsFinished gs); [exists true, ws; auto |].
    destruct (IsStarted gs) eqn:Es.
    - rewrite IsTimeUp_started by assumption. eexists _, _. split; eauto.
    - rewrite IsTimeUp_fresh by assumption. eauto. }
  destruct Hup as (up & wu & -> & Hroomu).
  destruct up; [unfold ret; eauto |].
  apply accept_total; assumption.
Qed.

(** ** A keystroke in the middle of the line *)

Lemma accept_mid g c w line0 expected :
  index (DisplayLines g) 0 = Some line0 ->
  index (runes line0) (CurrentPos g) = Some expected ->
  slen (UserInput g) + slen (encode c) <= max_int ->
  accept g c w = Some (typed g c expected, w).
Proof.
  intros E0 Ee Hin. pose proof (index_Some _ _ _ Ee) as [Hge Hlt].
  unfold accept, bind at 1. rewrite E0. cbn [lift].
  destruct (Z.eqb_spec (CurrentPos g) (len (runes line0))); [lia |].
  destruct (Z.ltb_spec (CurrentPos g) (len (runes line0))); [| lia].
  destruct (Z.leb_spec 0 (CurrentPos g)); [| lia]. cbn [andb].
  unfold bind at 1. rewrite concat_total by assumption. cbn [lift].
  unfold bind at 1. fields. rewrite Ee. cbn [lift].
  unfold typed, ret. destruct (negb (expected =? c)); reflexivity.
Qed.

(** ** A line advance *)

Lemma advance_eq g w line0 :
  index (DisplayLines g) 0 = Some line0 -> 0 <= LinesPerView g ->
  0 <= WordsTyped g -> WordsTyped g + Fields_len line0 <= max_int ->
  slen (UserInput g) + 1 <= max_int ->
  len (AllWords g) + len (wordSource w (draws w) 100) <= max_int ->
  advance g w = Some (advanced g w line0).
Proof.
  intros E0 Hl Hw Hf Hin Hroom. unfold advance, bind at 1.
  rewrite concat_total by (change (slen " ") with 1; lia). cbn [lift].
  change (shiftLines (spaced g) w = Some (advanced g w line0)).
  rewrite (shiftLines_total (spaced g) w line0) by (fields; assumption).
  reflexivity.
Qed.

(** Space and Enter at the end of the line, in a running session, do the
    same thing. *)
Lemma line_advance g w line0 :
  IsStarted g = true -> IsFinished g = false -> time_is_up g w = false ->
  index (DisplayLines g) 0 = Some line0 ->
  CurrentPos g = len (runes line0) -> 0 <= LinesPerView g ->
  0 <= WordsTyped g -> WordsTyped g + Fields_len line0 <= max_int ->
  slen (UserInput g) + 1 <= max_int ->
  len (AllWords g) + len (wordSource w (draws w) 100) <= max_int ->
  AddCharacter g 32 w = Some (advanced g (tick w) line0) /\
  HandleEnterKey g w
  = Some (true, fst (advanced g (tick w) line0),
          snd (advanced g (tick w) line0)).
Proof.
  intros Hs Hf Hup E0 Heol Hl Hw Hwf Hin Hroom.
  pose proof (advance_eq g (tick w) line0 E0 Hl Hw Hwf Hin Hroom) as Ha.
  split.
  - rewrite AddCharacter_running by assumption.
    unfold accept, bind at 1. rewrite E0. cbn [lift].
    rewrite Heol, Z.eqb_refl. exact Ha.
  - rewrite HandleEnterKey_running by assumption.
    unfold bind at 1. rewrite E0. cbn [lift].
    rewrite Heol, Z.eqb_refl. unfold bind. rewrite Ha.
    destruct (advanced g (tick w) line0). reflexivity.
Qed.

(** With the buffer used up, the window is padded with empty lines. *)
Lemma window_exhausted g :
  LinesPerView g = 3 -> len (AllWords g) <= WordsTyped g ->
  window g = [EmptyString; EmptyString; EmptyString].
Proof.
  intros Hl Hex. unfold window. rewrite Hl.
  rewrite skipn_all2 by (unfold len in Hex; lia). reflexivity.
Qed.

(** ** Words and fields *)

Lemma bytes_append s t : bytes (String.append s t) = bytes s ++ bytes t.
Proof.
  unfold bytes. induction s as [| a s IH].
  - rewrite append_empty. reflexivity.
  - rewrite append_String. cbn [list_ascii_of_string map]. rewrite IH.
    reflexivity.
Qed.

Lemma count_fields_after_space b l1 l2 :
  count_fields asciiSpace b (l1 ++ 32 :: l2)
  = count_fields asciiSpace b l1 + count_fields asciiSpace true l2.
Proof.
  revert b. induction l1 as [| x l1 IH]; intros b.
  - cbn [app count_fields]. change (asciiSpace 32) with true.
    rewrite andb_false_r. lia.
  - cbn [app count_fields]. rewrite IH. lia.
Qed.

Lemma count_fields_inside l :
  forallb plain_byte l = true -> count_fields asciiSpace false l = 0.
Proof.
  induction l as [| x l IH]; [reflexivity |].
  cbn [forallb count_fields]. intros H.
  apply andb_true_iff in H as [Hx Hl]. unfold plain_byte in Hx.
  apply andb_true_iff in Hx as [_ Hx]. apply negb_true_iff in Hx.
  rewrite Hx. cbn [andb]. rewrite IH by assumption. reflexivity.
Qed.

Lemma count_fields_word b l :
  forallb plain_byte l = true -> count_fields asciiSpace b l <= 1.
Proof.
  destruct l as [| x l]; [cbn; lia |].
  cbn [forallb count_fields]. intros H.
  apply andb_true_iff in H as [Hx Hl]. unfold plain_byte in Hx.
  apply andb_true_iff in Hx as [_ Hx]. apply negb_true_iff in Hx.
  rewrite Hx, count_fields_inside by assumption.
  destruct (b && negb false); lia.
Qed.

Lemma plain_word_ascii s : plain_word s = true -> is_ascii s = true.
Proof.
  unfold plain_word, is_ascii. induction (bytes s) as [| x l IH];
    [reflexivity |].
  cbn [forallb]. intros H. apply andb_true_iff in H as [Hx Hl].
  unfold plain_byte in Hx. apply andb_true_iff in Hx as [Hx _].
  rewrite Hx, IH by assumption. reflexivity.
Qed.

Lemma is_ascii_append s t :
  is_ascii s = true -> is_ascii t = true ->
  is_ascii (String.append s t) = true.
Proof.
  unfold is_ascii. rewrite bytes_append, forallb_app. intros -> ->.
  reflexivity.
Qed.

Lemma Fields_len_ascii s :
  is_ascii s = true ->
  Fields_len s = count_fields asciiSpace true (bytes s).
Proof. unfold Fields_len, is_ascii. intros ->. reflexivity. Qed.

(** The words a line takes are the first of the words on offer, each of
    them fits the line, and the line has at most as many fields as it
    took words. *)
Lemma fillLine_words c : forall rest cur line rest',
  forallb plain_word rest = true -> is_ascii cur = true ->
  fillLine c cur rest = (line, rest') ->
  exists taken,
    rest = taken ++ rest' /\
    Forall (fun word => slen word <= c) taken /\
    is_ascii line = true /\
    count_fields asciiSpace true (bytes line)
    <= count_fields asciiSpace true (bytes cur) + len taken.
Proof.
  induction rest as [| word rest IH]; intros cur line rest' Hp Ha E;
    cbn [fillLine] in E.
  - inversion E; subst. exists []. repeat split; auto.
    change (len []) with 0. lia.
  - cbn [forallb] in Hp. apply andb_true_iff in Hp as [Hw Hp].
    pose proof (slen_nonneg cur) as Hcur.
    destruct (Z.leb_spec
                (slen cur + (if 0 <? slen cur then 1 else 0) + slen word) c)
      as [Hfit | Hfit].
    + set (cur' := String.append
                     (if 0 <? slen cur then String.append cur " " else cur)
                     word) in E.
      assert (Ha' : is_ascii cur' = true).
      { unfold cur'. apply is_ascii_append; [| apply plain_word_ascii, Hw].
        destruct (0 <? slen cur); [| assumption].
        apply is_ascii_append; [assumption | reflexivity]. }
      assert (Hc' : count_fields asciiSpace true (bytes cur')
                    <= count_fields asciiSpace true (bytes cur) + 1).
      { unfold cur'. pose proof (count_fields_word true (bytes word) Hw).
        destruct (Z.ltb_spec 0 (slen cur)) as [Hpos | Hzero].
        - rewrite !bytes_append. change (bytes " ") with [32].
          rewrite <- app_assoc. cbn [app].
          rewrite count_fields_after_space. lia.
        - rewrite (slen_zero cur) by lia. rewrite append_empty.
          change (bytes "") with (@nil Z). cbn [count_fields]. lia. }
      destruct (IH cur' line rest' Hp Ha' E) as (taken & Hr & Hs & Hl & Hn).
      exists (word :: taken). split; [rewrite Hr; reflexivity |].
      split; [constructor; [destruct (0 <? slen cur); lia | assumption] |].
      split; [assumption |].
      unfold len in *. cbn [length]. lia.
    + inversion E; subst. exists []. repeat split; auto.
      change (len []) with 0. lia.
Qed.

Lemma index_nth {A} (l : list A) i x :
  index l i = Some x <-> 0 <= i /\ nth_error l (Z.to_nat i) = Some x.
Proof.
  unfold index. split.
  - destruct (Z.leb_spec 0 i); [| discriminate].
    destruct (i <? len l); [auto | discriminate].
  - intros [Hi Hn]. destruct (Z.leb_spec 0 i); [| lia].
    assert (Hlt : (Z.to_nat i < length l)%nat)
      by (apply nth_error_Some; congruence).
    destruct (Z.ltb_spec i (len l)); [assumption | unfold len in *; lia].
Qed.

Lemma index_app_Some {A} (l1 l2 : list A) i x :
  index l1 i = Some x -> index (l1 ++ l2) i = Some x.
Proof.
  intros H. pose proof (index_Some _ _ _ H) as [_ Hlt].
  apply index_nth in H as [Hi Hn]. apply index_nth. split; [assumption |].
  rewrite nth_error_app1; [assumption |]. unfold len in Hlt. lia.
Qed.

Lemma index_app_old {A} (l1 l2 : list A) i x :
  index (l1 ++ l2) i = Some x -> i < len l1 -> index l1 i = Some x.
Proof.
  intros H Hlt. apply index_nth in H as [Hi Hn]. apply index_nth.
  split; [assumption |].
  rewrite nth_error_app1 in Hn; [assumption |]. unfold len in Hlt. lia.
Qed.

Lemma forallb_skipn {A} (f : A -> bool) n l :
  forallb f l = true -> forallb f (skipn n l) = true.
Proof.
  revert l. induction n as [| n IH]; intros l H; [assumption |].
  destruct l as [| x l]; [reflexivity |].
  cbn [skipn]. apply IH. cbn [forallb] in H.
  apply andb_true_iff in H as [_ H]. assumption.
Qed.

Lemma window_first g :
  LinesPerView g = 3 -> 0 <= WordsTyped g <= len (AllWords g) ->
  forallb plain_word (AllWords g) = true ->
  exists line0, index (window g) 0 = Some line0 /\ first_line_bound g line0.
Proof.
  intros Hl [Hw Hlen] Hp. unfold window. rewrite Hl.
  change (Z.to_nat 3) with 3%nat.
  pose proof (forallb_skipn plain_word (Z.to_nat (WordsTyped g)) _ Hp) as Hr.
  pose proof (length_skipn (Z.to_nat (WordsTyped g)) (AllWords g)) as Hs.
  pose proof (nth_error_skipn (Z.to_nat (WordsTyped g)) (AllWords g)) as Hn.
  destruct (skipn (Z.to_nat (WordsTyped g)) (AllWords g)) as [| word rest].
  - exists EmptyString. split; [reflexivity |].
    exists 0. repeat split; try lia. reflexivity.
  - cbn [fillLines].
    destruct (fillLine (CharsPerLine g) EmptyString (word :: rest))
      as [cur rest'] eqn:Ef.
    assert (He : is_ascii EmptyString = true) by reflexivity.
    destruct (fillLine_words _ _ _ _ _ Hr He Ef)
      as (taken & Ht & Hfit & Ha & Hc).
    change (bytes "") with (@nil Z) in Hc. cbn [count_fields] in Hc.
    eexists. split; [unfold padLines; cbn [app]; apply index_0_cons |].
    exists (len taken). split; [apply len_nonneg |].
    split; [| split].
    + destruct (0 <? slen cur); [| pose proof (len_nonneg taken);
                                     change (Fields_len "") with 0; lia].
      rewrite Fields_len_ascii by assumption. lia.
    + assert (length taken <= length (word :: rest))%nat
        by (rewrite Ht, List.length_app; lia).
      unfold len in *. lia.
    + intros i w [Hi1 Hi2] Hiw. apply index_nth in Hiw as [_ Hiw].
      rewrite List.Forall_forall in Hfit. apply Hfit.
      apply (nth_error_In taken (Z.to_nat (i - WordsTyped g))).
      specialize (Hn (Z.to_nat (i - WordsTyped g))).
      replace (Z.to_nat (WordsTyped g) + Z.to_nat (i - WordsTyped g))%nat
        with (Z.to_nat i) in Hn by lia.
      rewrite <- Hiw, <- Hn, Ht. symmetry. apply nth_error_app1.
      unfold len in Hi2. lia.
Qed.

(** A word too long for a line, right at [WordsTyped], leaves the first
    line of the window empty. *)
Lemma window_blocked g word :
  0 < LinesPerView g -> 0 <= WordsTyped g ->
  index (AllWords g) (WordsTyped g) = Some word ->
  CharsPerLine g < slen word ->
  index (window g) 0 = Some EmptyString.
Proof.
  intros Hl Hw Ei Hlong. apply index_nth in Ei as [_ Ei]. unfold window.
  pose proof (nth_error_skipn (Z.to_nat (WordsTyped g)) (AllWords g) 0) as Hn.
  rewrite Nat.add_0_r, Ei in Hn.
  destruct (skipn (Z.to_nat (WordsTyped g)) (AllWords g)) as [| word' rest];
    [discriminate |].
  cbn [nth_error] in Hn. inversion Hn; subst word'.
  destruct (Z.to_nat (LinesPerView g)) as [| m] eqn:Em; [lia |].
  cbn [fillLines fillLine]. change (slen "") with 0. cbn [Z.ltb Z.compare].
  destruct (Z.leb_spec (0 + 0 + slen word) (CharsPerLine g)); [lia |].
  cbn [Z.ltb Z.compare]. unfold padLines. cbn [app]. apply index_0_cons.
Qed.

(** ** Sessions over a tidy word source *)

Lemma same_words_refl g : same_words g g.
Proof. unfold same_words. auto. Qed.

Lemma orderly_same g g' : same_words g g' -> orderly g -> orderly g'.
Proof.
  intros (HA & HD & HW & HC & HL) []. unfold first_line_bound in *.
  constructor; unfold first_line_bound; rewrite ?HA, ?HD, ?HW, ?HC, ?HL;
    assumption.
Qed.

(** A freshly generated window makes an orderly session. *)
Lemma orderly_window g :
  LinesPerView g = 3 -> 0 <= WordsTyped g <= len (AllWords g) ->
  len (AllWords g) <= max_int ->
  forallb plain_word (AllWords g) = true ->
  (forall k word,
      index (AllWords g) k = Some word -> CharsPerLine g < slen word ->
      WordsTyped g <= k) ->
  orderly (set_DisplayLines (window g) g).
Proof.
  intros Hl Hw Hlen Hp Hb.
  destruct (window_first g Hl Hw Hp) as (line0 & E0 & Hbound).
  constructor; fields; auto.
  - unfold window. rewrite Hl. apply len_padLines; [lia |].
    pose proof (length_fillLines (CharsPerLine g) (Z.to_nat 3)
                  (skipn (Z.to_nat (WordsTyped g)) (AllWords g))).
    unfold len. lia.
  - intros l0 El0. rewrite E0 in El0. inversion El0; subst. exact Hbound.
  - intros word Ei Hlong. apply (window_blocked g word); auto; lia.
  - intros Hex. rewrite window_exhausted by assumption. reflexivity.
Qed.

(** Words appended behind the buffer do not disturb the order. *)
Lemma orderly_grow g new :
  orderly g -> forallb plain_word new = true ->
  len (AllWords g ++ new) <= max_int ->
  orderly (set_AllWords (AllWords g ++ new) g).
Proof.
  intros [] Hp Hlen. pose proof (len_nonneg new) as Hnew.
  constructor; fields; auto.
  - rewrite len_app. lia.
  - rewrite forallb_app, ord_plain0, Hp. reflexivity.
  - intros line0 E0. destruct (ord_first0 line0 E0) as (n & Hn & Hf & Hw & Hs).
    exists n. fields. rewrite len_app. repeat split; try lia.
    intros i word Hi Ei. apply (Hs i word Hi).
    apply (index_app_old _ new); [assumption | lia].
  - intros k word Ek Hlong.
    destruct (Z_lt_ge_dec k (len (AllWords g))) as [Hk | Hk]; [| lia].
    apply (ord_blocked0 k word); [| assumption].
    apply (index_app_old _ new); assumption.
  - intros word Ei Hlong.
    destruct (Z_lt_ge_dec (WordsTyped g) (len (AllWords g))) as [Hk | Hk].
    + apply (ord_empty0 word); [| assumption].
      apply (index_app_old _ new); assumption.
    + apply ord_exhausted0. lia.
  - rewrite len_app. intros Hex. apply ord_exhausted0. lia.
Qed.

(** A line advance in an orderly session: the word count moves on by the
    number of fields of the completed line, never past a word that is too
    long for a line, and the buffer keeps what it holds. *)
Lemma shift_orderly g w g' w' :
  orderly g -> tidy w -> shiftLines g w = Some (g', w') ->
  orderly g' /\
  (exists line0, index (DisplayLines g) 0 = Some line0 /\
                 WordsTyped g' = WordsTyped g + Fields_len line0) /\
  (exists new, AllWords g' = AllWords g ++ new) /\
  CharsPerLine g' = CharsPerLine g.
Proof.
  intros Ho Ht H. apply shiftLines_Some in H as (line0 & gd & E0 & Eg & H).
  destruct (ord_first _ Ho line0 E0) as (n & Hn & Hf & Hw & Hs).
  pose proof (Fields_len_nonneg line0) as Hf0.
  pose proof (ord_typed _ Ho) as Hwt. pose proof (ord_buffer _ Ho) as Hbuf.
  assert (Hadd : int_add (WordsTyped g) (Fields_len line0)
                 = WordsTyped g + Fields_len line0).
  { apply wrap_id. unfold in_int, min_int. lia. }
  rewrite Hadd in Eg. apply generateDisplayLines_Some in Eg as [_ Hgd].
  fields. fold (window (set_CurrentPos 0
                  (set_WordsTyped (WordsTyped g + Fields_len line0) g)))
    in Hgd.
  assert (Hod : orderly gd).
  { rewrite Hgd. apply orderly_window; fields.
    - apply (ord_lines _ Ho).
    - lia.
    - assumption.
    - apply (ord_plain _ Ho).
    - intros k word Ek Hlong. pose proof (ord_blocked _ Ho k word Ek Hlong).
      destruct (Z_lt_ge_dec k (WordsTyped g + n)) as [Hk | Hk]; [| lia].
      specialize (Hs k word (conj H0 Hk) Ek). lia. }
  assert (Hfacts : AllWords gd = AllWords g /\
                   WordsTyped gd = WordsTyped g + Fields_len line0 /\
                   CharsPerLine gd = CharsPerLine g)
    by (rewrite Hgd; auto).
  destruct Hfacts as (HA & HW & HC).
  destruct H as [(_ & -> & _) | (_ & Hroom & -> & _)].
  - split; [assumption |]. split; [eauto |].
    split; [exists []; rewrite app_nil_r; assumption | assumption].
  - split.
    { rewrite <- HA. apply orderly_grow; [assumption | apply Ht |].
      rewrite HA, len_app. assumption. }
    fields. split; [eauto |]. split; [eauto | assumption].
Qed.

(** ** What the operations do to buffer, window and word count *)

Lemma start_words g w g' w' :
  (if negb (IsStarted g) then Start g else ret g) w = Some (g', w') ->
  same_words g g' /\ wordSource w' = wordSource w.
Proof.
  destruct (negb (IsStarted g)); intros H.
  - apply Start_Some in H as [(_ & -> & ->) | (_ & -> & ->)];
      split; auto using same_words_refl. unfold same_words. auto.
  - apply ret_Some in H as [-> ->]. auto using same_words_refl.
Qed.

Lemma time_check_world g w up wu :
  (if IsFinished g then ret true else IsTimeUp g) w = Some (up, wu) ->
  wordSource wu = wordSource w.
Proof.
  destruct (IsFinished g); intros H.
  - apply ret_Some in H as [_ ->]. reflexivity.
  - unfold IsTimeUp in H. destruct (negb (IsStarted g)).
    + apply ret_Some in H as [_ ->]. reflexivity.
    + apply bind_Some in H as (e & w1 & Ee & H).
      apply ret_Some in H as [_ ->].
      unfold time_Since in Ee. apply bind_Some in Ee as (now & w2 & En & Ee).
      apply ret_Some in Ee as [_ ->]. unfold time_Now in En.
      inversion En. reflexivity.
Qed.

Lemma advance_words g w g' w' :
  advance g w = Some (g', w') ->
  exists gs, same_words g gs /\ shiftLines gs w = Some (g', w').
Proof.
  unfold advance. intros H. apply bind_Some in H as (input & w1 & Ec & H).
  apply lift_Some in Ec as [_ ->]. eexists. split; [| exact H].
  unfold same_words. auto.
Qed.

Lemma AddCharacter_words g c w g' w' :
  AddCharacter g c w = Some (g', w') -> words_step g g' w.
Proof.
  intros H. rewrite AddCharacter_eq in H.
  apply bind_Some in H as (gs & ws & Es & H).
  apply start_words in Es as [Hsame Hws].
  apply bind_Some in H as (up & wu & Eu & H).
  apply time_check_world in Eu as Hwu.
  assert (Hk : forall g1, same_words gs g1 -> same_words g g1).
  { intros g1 (HA & HD & HW & HC & HL).
    destruct Hsame as (HA' & HD' & HW' & HC' & HL').
    unfold same_words. rewrite HA, HD, HW, HC, HL. auto. }
  destruct up.
  - apply ret_Some in H as [-> _]. left. apply Hk. unfold same_words. auto.
  - unfold accept in H. apply bind_Some in H as (line0 & w1 & E0 & H).
    apply lift_Some in E0 as [_ ->].
    destruct (CurrentPos gs =? len (runes line0)).
    + destruct (c =? 32) eqn:Ec.
      * apply Z.eqb_eq in Ec. subst c.
        change (advance gs wu = Some (g', w')) in H.
        apply advance_words in H as (ga & Hga & H).
        right. exists ga, wu, w'. split; [apply Hk, Hga |].
        split; [congruence | assumption].
      * apply ret_Some in H as [-> _]. left. assumption.
    + destruct ((CurrentPos gs <? len (runes line0))
                && (0 <=? CurrentPos gs)).
      * apply bind_Some in H as (input & w2 & _ & H).
        apply bind_Some in H as (e & w3 & _ & H).
        apply ret_Some in H as [-> _]. left. apply Hk.
        destruct (negb (e =? c)); unfold same_words; auto.
      * apply ret_Some in H as [-> _]. left. assumption.
Qed.

Lemma HandleEnterKey_words g w b g' w' :
  HandleEnterKey g w = Some (b, g', w') -> words_step g g' w.
Proof.
  intros H. rewrite HandleEnterKey_eq in H.
  apply bind_Some in H as (up & wu & Eu & H).
  apply time_check_world in Eu as Hwu. destruct up.
  - apply ret_Some in H as [E _]. inversion E. left. apply same_words_refl.
  - apply bind_Some in H as (line0 & w1 & E0 & H).
    apply lift_Some in E0 as [_ ->].
    destruct (CurrentPos g =? len (runes line0)).
    + apply bind_Some in H as (ga & w2 & Ea & H).
      apply ret_Some in H as [E ->]. inversion E; subst.
      apply advance_words in Ea as (gs & Hgs & Ea).
      right. exists gs, wu, w2. auto.
    + apply ret_Some in H as [E _]. inversion E. left. apply same_words_refl.
Qed.

Lemma RemoveCharacter_words g : same_words g (RemoveCharacter g).
Proof.
  unfold RemoveCharacter, same_words.
  destruct ((0 <? slen (UserInput g)) && (0 <? CurrentPos g)); auto.
Qed.

Lemma carried_refl g : carried g g.
Proof.
  unfold carried. split; [lia |].
  split; [exists []; rewrite app_nil_r; reflexivity | reflexivity].
Qed.

Lemma carried_trans g1 g2 g3 :
  carried g1 g2 -> carried g2 g3 -> carried g1 g3.
Proof.
  intros (H1 & [n1 H2] & H3) (H4 & [n2 H5] & H6). unfold carried.
  split; [lia |]. split; [| congruence].
  exists (n1 ++ n2). rewrite H5, H2, app_assoc. reflexivity.
Qed.

Lemma words_step_orderly g g' w :
  orderly g -> tidy w -> words_step g g' w -> orderly g' /\ carried g g'.
Proof.
  intros Ho Ht [Hsame | (gs & ws & w' & Hsame & Hws & H)].
  - split; [eapply orderly_same; eassumption |].
    destruct Hsame as (HA & _ & HW & HC & _). unfold carried.
    rewrite HA, HW, HC. apply carried_refl.
  - assert (Hts : tidy ws) by (unfold tidy; rewrite Hws; exact Ht).
    pose proof (orderly_same _ _ Hsame Ho) as Hos.
    destruct (shift_orderly gs ws g' w' Hos Hts H)
      as (Ho' & (line0 & _ & HW') & Hnew & HC').
    split; [assumption |].
    destruct Hsame as (HA & _ & HW & HC & _). unfold carried.
    rewrite <- HA, <- HW, <- HC.
    pose proof (Fields_len_nonneg line0). split; [lia | auto].
Qed.

Lemma step_orderly g g' :
  orderly g -> step tidy g g' -> orderly g' /\ carried g g'.
Proof.
  intros Ho [c w g1 w1 Ht E | w b g1 w1 Ht E |].
  - apply AddCharacter_words in E. eapply words_step_orderly; eassumption.
  - apply HandleEnterKey_words in E. eapply words_step_orderly; eassumption.
  - apply (words_step_orderly g _ (mkWorld (fun _ => 0) 0 (fun _ _ => []) 0));
      [assumption | intros i n; reflexivity |].
    left. apply RemoveCharacter_words.
Qed.

Lemma steps_orderly g g' :
  orderly g -> steps tidy g g' -> orderly g' /\ carried g g'.
Proof.
  intros Ho Hs. induction Hs as [g | g g1 g2 H1 _ IH].
  - split; [assumption | apply carried_refl].
  - destruct (step_orderly g g1 Ho H1) as [Ho1 Hc1].
    destruct (IH Ho1) as [Ho2 Hc2].
    split; [assumption | eapply carried_trans; eassumption].
Qed.

Lemma orderly_NewTypingGame d w g w' :
  tidy w -> NewTypingGame d w = Some (g, w') -> orderly g.
Proof.
  unfold NewTypingGame. intros Ht H.
  apply bind_Some in H as (words & w1 & Eg & H).
  unfold GenerateWords in Eg.
  destruct (Z.leb_spec (len (wordSource w (draws w) 200)) max_int)
    as [Hwords |]; [| discriminate].
  inversion Eg; subst words w1; clear Eg.
  apply lift_Some in H as [H _].
  apply generateDisplayLines_Some in H as [_ ->]. fields.
  match goal with
  | |- orderly (set_DisplayLines _ ?g0) =>
      change (orderly (set_DisplayLines (window g0) g0))
  end.
  apply orderly_window; fields; auto.
  - pose proof (len_nonneg (wordSource w (draws w) 200)). lia.
  - intros k word Ek _. apply index_Some in Ek. lia.
Qed.

Lemma sessions_orderly g : sessions tidy g -> orderly g.
Proof.
  induction 1 as [d w g w' Ht E | g c w g' w' _ IH Ht E
                 | g w b g' w' _ IH Ht E | g _ IH].
  - eapply orderly_NewTypingGame; eassumption.
  - apply (step_orderly g g' IH). eapply step_add; eassumption.
  - apply (step_orderly g g' IH). eapply step_enter; eassumption.
  - apply (step_orderly g _ IH). apply step_remove.
Qed.

(** ** Statistics *)

Lemma GetStats_started g w :
  IsStarted g = true ->
  GetStats g w
  = Some (stats_of g (elapsed g w) (time_is_up g (tick w)), g,
          tick (tick w)).
Proof.
  intros Hs. unfold GetStats, IsTimeUp. rewrite Hs. reflexivity.
Qed.

Lemma GetStats_fresh g w :
  IsStarted g = false -> GetStats g w = Some (zeroStats, g, w).
Proof. intros Hs. unfold GetStats. rewrite Hs. reflexivity. Qed.

End Session.

(* ===================================================================== *)
(** * Facts about the concrete sessions *)
(* ===================================================================== *)

Module SampleFacts.
Import Go GoFacts Game Model Samples Session.

Lemma type_keys_reachable cs : forall g w g' w',
  reachable g -> type_keys cs g w = Some (g', w') -> reachable g'.
Proof.
  induction cs as [| c cs IH]; intros g w g' w' Hr E; cbn [type_keys] in E.
  - apply ret_Some in E as [-> _]. assumption.
  - apply bind_Some in E as (g1 & w1 & E1 & E).
    apply (IH g1 w1 g' w'); [| assumption].
    exact (s_add _ g c w g1 w1 Hr I E1).
Qed.

Lemma fresh200_new : NewTypingGame 10 plenty = Some (fresh200, drawn plenty).
Proof. vm_compute. reflexivity. Qed.

Lemma eol200_typed :
  exists w', type_keys (runes line17) fresh200 plenty = Some (eol200, w').
Proof. eexists. vm_compute. reflexivity. Qed.

Lemma reachable_eol200 : reachable eol200.
Proof.
  destruct eol200_typed as [w' E].
  apply (type_keys_reachable _ _ _ _ _ (s_new _ 10 plenty _ _ I fresh200_new) E).
Qed.

Lemma fresh_new : NewTypingGame 10 calm = Some (fresh, drawn calm).
Proof. vm_compute. reflexivity. Qed.

Lemma typed_a_add :
  AddCharacter fresh 97 calm = Some (typed_a, tick (tick calm)).
Proof. vm_compute. reflexivity. Qed.

Lemma typed_ab_add :
  AddCharacter typed_a 98 calm = Some (typed_ab, tick calm).
Proof. vm_compute. reflexivity. Qed.

Lemma typed_ax_add :
  AddCharacter typed_a 120 calm = Some (typed_ax, tick calm).
Proof. vm_compute. reflexivity. Qed.

Lemma blocked_new :
  NewTypingGame 10 (mkWorld (clock_from 0) 0 long_source 0)
  = Some (blocked, drawn (mkWorld (clock_from 0) 0 long_source 0)).
Proof. vm_compute. reflexivity. Qed.

(** These sessions are far from the limits of the [int] range. *)
Ltac closed_le := vm_compute; discriminate.

Ltac room_of_first_line Hw :=
  unfold room; rewrite Hw; split; [closed_le |]; split;
  [ intros line0 E; cbv delta [fresh typed_a typed_ab typed_ax blocked eol200] in E;
    cbn [DisplayLines] in E; rewrite index_0_cons in E;
    inversion E; closed_le
  | intros i; closed_le ].

Lemma room_fresh w : wordSource w = ab_cd -> room fresh w.
Proof. intros Hw. room_of_first_line Hw. Qed.

Lemma room_typed_a w : wordSource w = ab_cd -> room typed_a w.
Proof. intros Hw. room_of_first_line Hw. Qed.

Lemma room_blocked w : wordSource w = ab_cd -> room blocked w.
Proof. intros Hw. room_of_first_line Hw. Qed.


Lemma reachable_fresh : reachable fresh.
Proof. exact (s_new _ 10 calm fresh _ I fresh_new). Defined.

Lemma reachable_typed_a : reachable typed_a.
Proof. exact (s_add _ _ 97 calm _ _ reachable_fresh I typed_a_add). Defined.

Lemma reachable_typed_ab : reachable typed_ab.
Proof.
  exact (s_add _ _ 98 calm _ _ reachable_typed_a I typed_ab_add).
Defined.

Lemma reachable_typed_line : reachable typed_line.
Proof.
  assert (E : exists w', type_keys (runes "ab cd") fresh calm
                         = Some (typed_line, w'))
    by (eexists; vm_compute; reflexivity).
  destruct E as [w' E].
  exact (type_keys_reachable _ _ _ _ _ reachable_fresh E).
Qed.

Lemma reachable_typed_ax : reachable typed_ax.
Proof.
  exact (s_add _ _ 120 calm _ _ reachable_typed_a I typed_ax_add).
Defined.

Lemma tidy_long_source w : wordSource w = long_source -> tidy w.
Proof.
  intros Hw i n. rewrite Hw. unfold long_source.
  induction (Z.to_nat n) as [| m IH]; [reflexivity |].
  cbn [repeat forallb]. rewrite IH. reflexivity.
Qed.

Lemma tidy_blocked : sessions tidy blocked.
Proof.
  eapply (s_new _ 10 (mkWorld (clock_from 0) 0 long_source 0) blocked);
    [apply tidy_long_source; reflexivity | exact blocked_new].
Qed.

Lemma reachable_blocked : reachable blocked.
Proof. exact (s_new _ 10 _ blocked _ I blocked_new). Defined.

End SampleFacts.

(* ===================================================================== *)
(** * Properties of the engine *)
(* ===================================================================== *)

Module Properties.
Import Go GoFacts Game Model Samples Session SampleFacts.

(** ** Time-up *)

(** C1, as the code has it: once the elapsed time of a started session has
    reached the configured duration, [AddCharacter] and [HandleEnterKey]
    are rejected and leave positions, errors, display lines, word counts
    and buffer as they were; [AddCharacter] marks the session finished
    and changes nothing else, [HandleEnterKey] returns [false]. *)
Theorem time_up_rejects g c w :
  IsStarted g = true -> time_is_up g w = true ->
  exists w',
    AddCharacter g c w = Some (set_IsFinished true g, w') /\
    HandleEnterKey g w = Some (false, g, w').
Proof.
  intros Hs Hup.
  exists (if IsFinished g then w else tick w).
  rewrite AddCharacter_eq, HandleEnterKey_eq. unfold bind.
  rewrite Hs. cbn [negb ret].
  destruct (IsFinished g); [split; reflexivity |].
  rewrite IsTimeUp_started, Hup by assumption. split; reflexivity.
Qed.

Lemma time_up_rejects_witness :
  exists w',
    AddCharacter typed_a 98 late = Some (set_IsFinished true typed_a, w') /\
    HandleEnterKey typed_a late = Some (false, typed_a, w').
Proof. apply time_up_rejects; vm_compute; reflexivity. Defined.

(** C1 fails as stated: eleven seconds into a ten-second session,
    [RemoveCharacter] still takes the last character back and moves both
    positions, and neither it nor [HandleEnterKey] marks the session
    finished. *)
Lemma backspace_after_time_up :
  IsStarted typed_a = true /\ time_is_up typed_a late = true /\
  GlobalPos typed_a = 1 /\ GlobalPos (RemoveCharacter typed_a) = 0 /\
  CurrentPos (RemoveCharacter typed_a) = 0 /\
  IsFinished (RemoveCharacter typed_a) = false /\
  HandleEnterKey typed_a late = Some (false, typed_a, tick late) /\
  IsFinished typed_a = false.
Proof. vm_compute. repeat split; reflexivity. Qed.

(** ** The start of the session *)

(** C3, as the code has it: the session starts on the first call of
    [AddCharacter], whether the character is accepted or not; the call
    returns, sets [IsStarted] and takes the start time from the clock.
    Once the session is started no operation changes the start time, and
    neither [HandleEnterKey] nor [RemoveCharacter] starts a session. *)
Theorem start_on_first_AddCharacter g :
  reachable g ->
  (forall c w, room g w ->
     exists g' w',
       AddCharacter g c w = Some (g', w') /\ IsStarted g' = true /\
       StartTime g' =
         (if IsStarted g then StartTime g else Some (clock w (ticks w)))) /\
  (forall w b g' w',
     HandleEnterKey g w = Some (b, g', w') ->
     IsStarted g' = IsStarted g /\ StartTime g' = StartTime g) /\
  IsStarted (RemoveCharacter g) = IsStarted g /\
  StartTime (RemoveCharacter g) = StartTime g.
Proof.
  intros Hr. apply sessions_inv in Hr as Hinv. split; [| split].
  - intros c w Hroom.
    destruct (AddCharacter_total g c w Hinv Hroom) as (g' & w' & E).
    exists g', w'. split; [assumption |].
    rewrite AddCharacter_eq in E.
    apply bind_Some in E as (gs & ws & Es & E).
    assert (Hgs : IsStarted gs = true /\
                  StartTime gs = (if IsStarted g then StartTime g
                                  else Some (clock w (ticks w)))).
    { destruct (IsStarted g) eqn:Eg; cbn [negb] in Es.
      - apply ret_Some in Es as [-> _]. auto.
      - apply Start_Some in Es as [(Et & _) | (_ & -> & _)];
          [congruence | auto]. }
    destruct Hgs as [Hs1 Hs2]. rewrite <- Hs1, <- Hs2. clear Hs1 Hs2 Es.
    apply bind_Some in E as (up & wu & _ & E). destruct up.
    + apply ret_Some in E as [-> _]. auto.
    + unfold accept in E. apply bind_Some in E as (line0 & w1 & _ & E).
      destruct (CurrentPos gs =? len (runes line0)).
      * destruct (c =? 32).
        -- apply bind_Some in E as (input & w2 & _ & E).
           apply shiftLines_frame in E. fields. tauto.
        -- apply ret_Some in E as [-> _]. auto.
      * destruct ((CurrentPos gs <? len (runes line0))
                  && (0 <=? CurrentPos gs)).
        -- apply bind_Some in E as (input & w2 & _ & E).
           apply bind_Some in E as (e & w3 & _ & E).
           apply ret_Some in E as [-> _].
           destruct (negb (e =? c)); auto.
        -- apply ret_Some in E as [-> _]. auto.
  - intros w b g' w' E. rewrite HandleEnterKey_eq in E.
    apply bind_Some in E as (up & wu & _ & E). destruct up.
    + apply ret_Some in E as [E _]. inversion E; auto.
    + apply bind_Some in E as (line0 & w1 & _ & E).
      destruct (CurrentPos g =? len (runes line0)).
      * apply bind_Some in E as (ga & w2 & Ea & E).
        apply ret_Some in E as [E _]. inversion E; subst.
        unfold advance in Ea. apply bind_Some in Ea as (input & w3 & _ & Ea).
        apply shiftLines_frame in Ea. fields. tauto.
      * apply ret_Some in E as [E _]. inversion E; auto.
  - unfold RemoveCharacter.
    destruct ((0 <? slen (UserInput g)) && (0 <? CurrentPos g)); auto.
Qed.

Lemma start_on_first_AddCharacter_witness :
  exists g' w',
    AddCharacter blocked 97 calm = Some (g', w') /\ IsStarted g' = true /\
    StartTime g' = Some 0.
Proof.
  apply (proj1 (start_on_first_AddCharacter blocked reachable_blocked)).
  apply room_blocked. reflexivity.
Defined.

(** C3 fails as stated: in a fresh session whose first line is empty the
    cursor sits at the end of the line; the character [a] is rejected
    there (no position moves, no input is recorded), and still the session
    is started and the clock runs. *)
Lemma rejected_keystroke_starts_clock :
  IsStarted blocked = false /\
  index (DisplayLines blocked) 0 = Some EmptyString /\
  CurrentPos blocked = len (runes EmptyString) /\
  AddCharacter blocked 97 calm
  = Some (set_Started (Some 0) blocked, tick (tick calm)).
Proof. vm_compute. repeat split; reflexivity. Qed.

(** ** Keystrokes in the middle of the line *)

(** C4: in a running session with the cursor before the end of the first
    line, [AddCharacter(c)], for a space as for any other [c], returns;
    it compares the character of the line under the cursor with [c]; on
    a mismatch it records an error at the current [GlobalPos] and counts
    one more mistake; in both cases [CurrentPos] and [GlobalPos] advance by
    exactly one and there is no line advance (window, word count and
    buffer stay). *)
Theorem AddCharacter_mid_line g c w line0 :
  reachable g ->
  IsStarted g = true -> IsFinished g = false -> time_is_up g w = false ->
  index (DisplayLines g) 0 = Some line0 ->
  CurrentPos g < len (runes line0) ->
  slen (UserInput g) + slen (encode c) <= max_int ->
  exists expected g',
    index (runes line0) (CurrentPos g) = Some expected /\
    AddCharacter g c w = Some (g', tick w) /\
    CurrentPos g' = CurrentPos g + 1 /\
    GlobalPos g' = GlobalPos g + 1 /\
    (if expected =? c
     then Errors g' = Errors g /\ TotalErrorsMade g' = TotalErrorsMade g
     else Errors g' = <[GlobalPos g := true]> (Errors g) /\
          TotalErrorsMade g' = incr (TotalErrorsMade g) /\
          (TotalErrorsMade g < max_int ->
           TotalErrorsMade g' = TotalErrorsMade g + 1)) /\
    DisplayLines g' = DisplayLines g /\
    WordsTyped g' = WordsTyped g /\
    AllWords g' = AllWords g.
Proof.
  intros Hr Hs Hf Hup E0 Hlt Hin. apply sessions_inv in Hr as Hinv.
  destruct Hinv.
  destruct (index_in_range (runes line0) (CurrentPos g)) as [e Ee]; [lia |].
  exists e, (typed g c e). split; [assumption |].
  split.
  { rewrite AddCharacter_running by assumption.
    apply (accept_mid g c (tick w) line0 e); assumption. }
  assert (HG1 : incr (GlobalPos g) = GlobalPos g + 1)
    by (apply incr_id; unfold min_int; pose proof (slen_encode c); lia).
  assert (HC1 : incr (CurrentPos g) = CurrentPos g + 1)
    by (apply incr_id; unfold min_int; pose proof (slen_encode c); lia).
  unfold typed. destruct (e =? c); cbn [negb]; fields;
    rewrite ?HG1, ?HC1; repeat split; auto.
  intros Hm. apply incr_id. destruct inv_mistakes0. lia.
Qed.

Lemma AddCharacter_mid_line_witness :
  exists expected g',
    index (runes "ab cd") (CurrentPos typed_ab) = Some expected /\
    AddCharacter typed_ab 32 calm = Some (g', tick calm) /\
    CurrentPos g' = CurrentPos typed_ab + 1 /\
    GlobalPos g' = GlobalPos typed_ab + 1 /\
    (if expected =? 32
     then Errors g' = Errors typed_ab /\
          TotalErrorsMade g' = TotalErrorsMade typed_ab
     else Errors g' = <[GlobalPos typed_ab := true]> (Errors typed_ab) /\
          TotalErrorsMade g' = incr (TotalErrorsMade typed_ab) /\
          (TotalErrorsMade typed_ab < max_int ->
           TotalErrorsMade g' = TotalErrorsMade typed_ab + 1)) /\
    DisplayLines g' = DisplayLines typed_ab /\
    WordsTyped g' = WordsTyped typed_ab /\
    AllWords g' = AllWords typed_ab.
Proof.
  apply (AddCharacter_mid_line typed_ab 32 calm "ab cd" reachable_typed_ab);
    try (vm_compute; reflexivity).
  closed_le.
Defined.

(** C5: a mistyped character in the middle of the line, taken back at
    once by [RemoveCharacter], leaves [Errors] exactly as it was before the
    mistake, while [TotalErrorsMade] stays incremented by one; both
    positions are back where they were. *)
Theorem mistype_then_backspace g c w line0 expected :
  reachable g ->
  IsStarted g = true -> IsFinished g = false -> time_is_up g w = false ->
  index (DisplayLines g) 0 = Some line0 ->
  index (runes line0) (CurrentPos g) = Some expected ->
  expected <> c ->
  slen (UserInput g) + slen (encode c) <= max_int ->
  exists g',
    AddCharacter g c w = Some (g', tick w) /\
    Errors g' = <[GlobalPos g := true]> (Errors g) /\
    Errors (RemoveCharacter g') = Errors g /\
    TotalErrorsMade (RemoveCharacter g') = incr (TotalErrorsMade g) /\
    (TotalErrorsMade g < max_int ->
     TotalErrorsMade (RemoveCharacter g') = TotalErrorsMade g + 1) /\
    CurrentPos (RemoveCharacter g') = CurrentPos g /\
    GlobalPos (RemoveCharacter g') = GlobalPos g.
Proof.
  intros Hr Hs Hf Hup E0 Ee Hne Hin. apply sessions_inv in Hr as Hinv.
  destruct Hinv. pose proof (slen_encode c) as Henc.
  exists (typed g c expected). split.
  { rewrite AddCharacter_running by assumption.
    apply (accept_mid g c (tick w) line0 expected); assumption. }
  assert (HG1 : incr (GlobalPos g) = GlobalPos g + 1)
    by (apply incr_id; unfold min_int; lia).
  assert (HC1 : incr (CurrentPos g) = CurrentPos g + 1)
    by (apply incr_id; unfold min_int; lia).
  assert (HG2 : decr (GlobalPos g + 1) = GlobalPos g)
    by (rewrite decr_id; unfold min_int; lia).
  assert (HC2 : decr (CurrentPos g + 1) = CurrentPos g)
    by (rewrite decr_id; unfold min_int; lia).
  assert (Hfree : Errors g !! GlobalPos g = None).
  { destruct (Errors g !! GlobalPos g) eqn:El; [| reflexivity].
    assert (Hk : is_Some (Errors g !! GlobalPos g)) by (rewrite El; eauto).
    specialize (inv_errors0 _ Hk). lia. }
  unfold typed. destruct (Z.eqb_spec expected c) as [| _]; [contradiction |].
  cbn [negb]. fields. split; [reflexivity |].
  unfold RemoveCharacter. fields. rewrite HG1, HC1, slen_append.
  destruct (Z.ltb_spec 0 (slen (UserInput g) + slen (encode c))); [| lia].
  destruct (Z.ltb_spec 0 (CurrentPos g + 1)); [| lia].
  cbn [andb]. fields. rewrite HG2, HC2.
  repeat split; auto.
  - apply delete_insert_id. assumption.
  - intros Hm. apply incr_id. destruct inv_mistakes0. lia.
Qed.

Lemma mistype_then_backspace_witness :
  exists g',
    AddCharacter typed_a 120 calm = Some (g', tick calm) /\
    Errors g' = <[GlobalPos typed_a := true]> (Errors typed_a) /\
    Errors (RemoveCharacter g') = Errors typed_a /\
    TotalErrorsMade (RemoveCharacter g') = incr (TotalErrorsMade typed_a) /\
    (TotalErrorsMade typed_a < max_int ->
     TotalErrorsMade (RemoveCharacter g') = TotalErrorsMade typed_a + 1) /\
    CurrentPos (RemoveCharacter g') = CurrentPos typed_a /\
    GlobalPos (RemoveCharacter g') = GlobalPos typed_a.
Proof.
  apply (mistype_then_backspace typed_a 120 calm "ab cd" 98
           reachable_typed_a);
    try (vm_compute; reflexivity).
  - discriminate.
  - closed_le.
Defined.

(** ** Backspace *)

(** C8: [RemoveCharacter] changes nothing (and has no way to report an
    error) when [CurrentPos] is 0 or no input has been entered; otherwise
    it takes exactly one from [CurrentPos] and from [GlobalPos] and deletes
    the entry of [Errors] at the resulting [GlobalPos]; and [GlobalPos] is
    never negative in a reachable session. *)
Theorem RemoveCharacter_spec g :
  reachable g ->
  ((CurrentPos g = 0 \/ UserInput g = EmptyString) ->
   RemoveCharacter g = g) /\
  (CurrentPos g <> 0 -> UserInput g <> EmptyString ->
   CurrentPos (RemoveCharacter g) = CurrentPos g - 1 /\
   GlobalPos (RemoveCharacter g) = GlobalPos g - 1 /\
   Errors (RemoveCharacter g) = delete (GlobalPos g - 1) (Errors g) /\
   UserInput (RemoveCharacter g) = drop_last (UserInput g) /\
   TotalErrorsMade (RemoveCharacter g) = TotalErrorsMade g /\
   DisplayLines (RemoveCharacter g) = DisplayLines g /\
   WordsTyped (RemoveCharacter g) = WordsTyped g /\
   AllWords (RemoveCharacter g) = AllWords g) /\
  0 <= GlobalPos g /\ 0 <= GlobalPos (RemoveCharacter g).
Proof.
  intros Hr. apply sessions_inv in Hr as Hinv.
  pose proof (inv_RemoveCharacter g Hinv) as Hinv'.
  split; [| split; [| destruct Hinv, Hinv'; lia]].
  - intros [Hc | Hu]; unfold RemoveCharacter.
    + rewrite Hc. rewrite andb_false_r. reflexivity.
    + rewrite Hu. reflexivity.
  - intros Hc Hu. destruct Hinv. unfold RemoveCharacter.
    destruct (Z.ltb_spec 0 (slen (UserInput g))) as [_ | Hz].
    2: { exfalso. apply Hu, slen_zero.
         pose proof (slen_nonneg (UserInput g)). lia. }
    destruct (Z.ltb_spec 0 (CurrentPos g)); [| lia]. cbn [andb]. fields.
    rewrite !decr_id by (unfold min_int; lia). repeat split; reflexivity.
Qed.

Lemma RemoveCharacter_spec_witness :
  ((CurrentPos typed_ax = 0 \/ UserInput typed_ax = EmptyString) ->
   RemoveCharacter typed_ax = typed_ax) /\
  (CurrentPos typed_ax <> 0 -> UserInput typed_ax <> EmptyString ->
   CurrentPos (RemoveCharacter typed_ax) = CurrentPos typed_ax - 1 /\
   GlobalPos (RemoveCharacter typed_ax) = GlobalPos typed_ax - 1 /\
   Errors (RemoveCharacter typed_ax)
   = delete (GlobalPos typed_ax - 1) (Errors typed_ax) /\
   UserInput (RemoveCharacter typed_ax) = drop_last (UserInput typed_ax) /\
   TotalErrorsMade (RemoveCharacter typed_ax) = TotalErrorsMade typed_ax /\
   DisplayLines (RemoveCharacter typed_ax) = DisplayLines typed_ax /\
   WordsTyped (RemoveCharacter typed_ax) = WordsTyped typed_ax /\
   AllWords (RemoveCharacter typed_ax) = AllWords typed_ax) /\
  0 <= GlobalPos typed_ax /\ 0 <= GlobalPos (RemoveCharacter typed_ax).
Proof. exact (RemoveCharacter_spec typed_ax reachable_typed_ax). Defined.

(** ** The display window *)



(** ** Statistics *)

(** C2: for a started session [GetStats] returns; the elapsed time it
    uses is the configured duration when [IsTimeUp] says so and the time
    since the start, as read from the clock, otherwise; WPM is
    [GlobalPos / 5 / minutes] of that time when the minutes are above
    zero and 0 otherwise, so 0 when the elapsed time is zero; and WPM is
    never negative. *)
Theorem GetStats_wpm g w :
  reachable g -> IsStarted g = true ->
  let up := time_is_up g (tick w) in
  let used := if up then int_mul (Duration g) Second else elapsed g w in
  exists s,
    GetStats g w = Some (s, g, tick (tick w)) /\
    TimeElapsed s = used /\
    (up = true -> 0 <= Duration g <= 9223372036 ->
     TimeElapsed s = Duration g * Second) /\
    (up = false -> TimeElapsed s = elapsed g w) /\
    (PrimFloat.ltb 0 (Minutes used) = true ->
     WPM s = (float64 (GlobalPos g) / 5 / Minutes used)%float) /\
    (PrimFloat.ltb 0 (Minutes used) = false -> WPM s = 0%float) /\
    (used = 0 -> WPM s = 0%float) /\
    PrimFloat.ltb (WPM s) 0 = false.
Proof.
  intros Hr Hs up used. apply sessions_inv in Hr as Hinv.
  assert (Hpos : 0 <= GlobalPos g <= max_int) by (destruct Hinv; lia).
  exists (stats_of g (elapsed g w) up).
  split; [apply GetStats_started; assumption |].
  unfold stats_of. fold used. cbn [TimeElapsed WPM].
  split; [reflexivity |].
  split.
  { intros Hup Hd. unfold used. rewrite Hup. unfold int_mul.
    apply wrap_id. unfold in_int, min_int, max_int, Second. lia. }
  split; [intros Hup; unfold used; rewrite Hup; reflexivity |].
  split; [| split; [| split]].
  - intros Hm. rewrite Hm.
    rewrite (FloatFacts.wpm_not_negative _ _ Hpos Hm). reflexivity.
  - intros Hm. rewrite Hm. reflexivity.
  - intros Hz. rewrite Hz. reflexivity.
  - destruct (PrimFloat.ltb 0 (Minutes used)) eqn:Hm.
    + rewrite (FloatFacts.wpm_not_negative _ _ Hpos Hm).
      apply (FloatFacts.wpm_not_negative _ _ Hpos Hm).
    + reflexivity.
Qed.

Lemma GetStats_wpm_witness :
  exists s,
    GetStats typed_line late = Some (s, typed_line, tick (tick late)) /\
    TimeElapsed s = 10 * Second /\ WPM s = 6%float.
Proof.
  destruct (GetStats_wpm typed_line late reachable_typed_line eq_refl)
    as (s & E & _ & Hup & _ & Hw & _).
  exists s. split; [exact E |].
  split; [apply Hup; [vm_compute; reflexivity | vm_compute; split; discriminate] |].
  rewrite Hw; vm_compute; reflexivity.
Defined.

(** C6, as the code has it: [GetStats] always returns and leaves every
    field of the session as it is; two calls in a row return the same
    record when the session has not started, when time is up at both
    calls, and when the clock shows at the second call what it showed at
    the first. In a started session whose time is up at neither call,
    [TimeElapsed] is the time since the start as each call reads it, and
    the two records differ whenever the two readings do. *)
Theorem GetStats_pure g w :
  exists s1 s2 w1 w2,
    GetStats g w = Some (s1, g, w1) /\
    GetStats g w1 = Some (s2, g, w2) /\
    (IsStarted g = false -> s1 = s2) /\
    (time_is_up g (tick w) = true -> time_is_up g (tick w1) = true ->
     s1 = s2) /\
    (elapsed g w1 = elapsed g w ->
     time_is_up g (tick w1) = time_is_up g (tick w) -> s1 = s2) /\
    (IsStarted g = true ->
     time_is_up g (tick w) = false -> time_is_up g (tick w1) = false ->
     TimeElapsed s1 = elapsed g w /\ TimeElapsed s2 = elapsed g w1 /\
     (elapsed g w1 <> elapsed g w -> s1 <> s2)).
Proof.
  destruct (IsStarted g) eqn:Hs.
  - exists (stats_of g (elapsed g w) (time_is_up g (tick w))),
           (stats_of g (elapsed g (tick (tick w)))
                       (time_is_up g (tick (tick (tick w))))),
           (tick (tick w)), (tick (tick (tick (tick w)))).
    split; [apply GetStats_started; assumption |].
    split; [apply GetStats_started; assumption |].
    split; [discriminate |]. split; [| split].
    + intros H1 H2. rewrite H1, H2. reflexivity.
    + intros He Hu. rewrite He, Hu. reflexivity.
    + intros _ H1 H2. rewrite H1, H2.
      split; [reflexivity |]. split; [reflexivity |].
      intros Hne Heq. apply (f_equal TimeElapsed) in Heq.
      apply Hne. symmetry. exact Heq.
  - exists zeroStats, zeroStats, w, w.
    repeat split; auto using GetStats_fresh; discriminate.
Qed.

Lemma GetStats_pure_witness :
  exists s1 s2 w1 w2,
    GetStats typed_line late = Some (s1, typed_line, w1) /\
    GetStats typed_line w1 = Some (s2, typed_line, w2) /\ s1 = s2.
Proof.
  destruct (GetStats_pure typed_line late)
    as (s1 & s2 & w1 & w2 & E1 & E2 & _ & Hup & _ & _).
  exists s1, s2, w1, w2. split; [exact E1 |]. split; [exact E2 |].
  assert (Hw1 : w1 = tick (tick late)).
  { rewrite GetStats_started in E1 by reflexivity. congruence. }
  apply Hup; [| rewrite Hw1]; vm_compute; reflexivity.
Defined.

(** C6 fails as stated: in a running session two calls in a row differ,
    because the clock moves between them: the first call of this pair
    reads 0 seconds since the start, the second one reads 2. *)
Lemma stats_follow_the_clock :
  exists s1 s2 w1 w2,
    GetStats typed_a calm = Some (s1, typed_a, w1) /\
    GetStats typed_a w1 = Some (s2, typed_a, w2) /\
    TimeElapsed s1 = 0 /\ TimeElapsed s2 = 2 * Second /\
    WPM s1 = 0%float /\ WPM s2 = 6%float /\ s1 <> s2.
Proof.
  eexists _, _, _, _.
  split; [vm_compute; reflexivity |].
  split; [vm_compute; reflexivity |].
  repeat split; try (vm_compute; reflexivity).
  intros H. apply (f_equal TimeElapsed) in H. vm_compute in H. discriminate.
Qed.

End Properties.

(* ===================================================================== *)
(** * Further properties of the engine and of its renderer *)
(* ===================================================================== *)

Module Further.
Import Go GoFacts Game Model Samples More Session SampleFacts.

(** ** The outcomes of the operations *)

(** The session as the first lines of [AddCharacter] leave it. *)
Lemma AddCharacter_cases g c w g' w' :
  AddCharacter g c w = Some (g', w') ->
  exists gs,
    gs = (if IsStarted g then g
          else set_Started (Some (clock w (ticks w))) g) /\
    (g' = set_IsFinished true gs \/
     g' = gs \/
     (exists line0 e,
        index (DisplayLines g) 0 = Some line0 /\
        index (runes line0) (CurrentPos g) = Some e /\
        slen (UserInput g) + slen (encode c) <= max_int /\
        g' = typed gs c e) \/
     (c = 32 /\ IsFinished g = false /\
      (exists line0, index (DisplayLines g) 0 = Some line0 /\
                     CurrentPos g = len (runes line0)) /\
      exists ws, advance gs ws = Some (g', w'))).
Proof.
  intros H. rewrite AddCharacter_eq in H.
  apply bind_Some in H as (gs & ws & Es & H).
  exists gs.
  assert (Hgs : gs = (if IsStarted g then g
                      else set_Started (Some (clock w (ticks w))) g)).
  { destruct (IsStarted g) eqn:Eg; cbn [negb] in Es.
    - apply ret_Some in Es as [-> _]. reflexivity.
    - apply Start_Some in Es as [(Et & _) | (_ & -> & _)];
        [congruence | reflexivity]. }
  split; [assumption |].
  assert (Hsame : DisplayLines gs = DisplayLines g /\
                  CurrentPos gs = CurrentPos g /\
                  UserInput gs = UserInput g /\
                  IsFinished gs = IsFinished g)
    by (rewrite Hgs; destruct (IsStarted g); auto).
  destruct Hsame as (HD & HC & HU & HF).
  apply bind_Some in H as (up & wu & Eu & H). destruct up.
  - apply ret_Some in H as [-> _]. auto.
  - assert (Hnf : IsFinished g = false).
    { rewrite <- HF. destruct (IsFinished gs); [| reflexivity].
      apply ret_Some in Eu as [Eu _]. discriminate. }
    unfold accept in H. rewrite HD, HC, HU in H.
    apply bind_Some in H as (line0 & w1 & E0 & H).
    apply lift_Some in E0 as [E0 ->].
    destruct (Z.eqb_spec (CurrentPos g) (len (runes line0))) as [Heol | _].
    + destruct (Z.eqb_spec c 32) as [-> | _].
      * right. right. right. split; [reflexivity |]. split; [assumption |].
        split; [eauto |]. exists wu. unfold advance.
        rewrite HU. exact H.
      * apply ret_Some in H as [-> _]. auto.
    + destruct ((CurrentPos g <? len (runes line0)) && (0 <=? CurrentPos g)).
      * apply bind_Some in H as (input & w2 & Ec & H).
        apply lift_Some in Ec as [Ec ->].
        apply concat_Some in Ec as (-> & Hlen & Hmax).
        apply bind_Some in H as (e & w3 & Ee & H).
        apply lift_Some in Ee as [Ee ->]. fields. rewrite ?HC in Ee.
        apply ret_Some in H as [-> _].
        right. right. left. exists line0, e.
        split; [assumption |]. split; [assumption |].
        split; [rewrite <- Hlen; assumption |].
        unfold typed. rewrite HU. fields.
        destruct (negb (e =? c)); reflexivity.
      * apply ret_Some in H as [-> _]. auto.
Qed.

Lemma HandleEnterKey_cases g w b g' w' :
  HandleEnterKey g w = Some (b, g', w') ->
  (b = false /\ g' = g) \/
  (b = true /\ IsFinished g = false /\
   (exists line0, index (DisplayLines g) 0 = Some line0 /\
                  CurrentPos g = len (runes line0)) /\
   exists ws, advance g ws = Some (g', w')).
Proof.
  intros H. rewrite HandleEnterKey_eq in H.
  apply bind_Some in H as (up & wu & Eu & H). destruct up.
  - apply ret_Some in H as [E _]. inversion E. auto.
  - assert (Hnf : IsFinished g = false).
    { destruct (IsFinished g); [| reflexivity].
      apply ret_Some in Eu as [Eu _]. discriminate. }
    apply bind_Some in H as (line0 & w1 & E0 & H).
    apply lift_Some in E0 as [E0 ->].
    destruct (Z.eqb_spec (CurrentPos g) (len (runes line0))) as [Heol | _].
    + apply bind_Some in H as (ga & w2 & Ea & H).
      apply ret_Some in H as [E ->]. inversion E; subst.
      right. split; [reflexivity |]. split; [assumption |]. eauto.
    + apply ret_Some in H as [E _]. inversion E. auto.
Qed.

(** What [advance] leaves alone and what it sets. *)
Lemma advance_frame g w g' w' :
  advance g w = Some (g', w') ->
  UserInput g' = String.append (UserInput g) " " /\
  GlobalPos g' = incr (GlobalPos g) /\ CurrentPos g' = 0 /\
  Errors g' = Errors g /\ TotalErrorsMade g' = TotalErrorsMade g /\
  StartTime g' = StartTime g /\ Duration g' = Duration g /\
  IsStarted g' = IsStarted g /\ IsFinished g' = IsFinished g /\
  LinesPerView g' = LinesPerView g /\ CharsPerLine g' = CharsPerLine g.
Proof.
  unfold advance. intros H. apply bind_Some in H as (input & w1 & Ec & H).
  apply lift_Some in Ec as [Ec ->]. apply concat_Some in Ec as (-> & _).
  apply shiftLines_frame in H. fields. tauto.
Qed.

(** ** Lines fit the line width *)

Lemma fillLine_width c : forall rest cur line rest',
  slen cur <= c -> fillLine c cur rest = (line, rest') -> slen line <= c.
Proof.
  induction rest as [| word rest IH]; intros cur line rest' Hc E;
    cbn [fillLine] in E.
  - inversion E; subst. assumption.
  - destruct (Z.leb_spec
                (slen cur + (if 0 <? slen cur then 1 else 0) + slen word) c)
      as [Hfit | _].
    + eapply IH; [| exact E].
      rewrite slen_append.
      destruct (0 <? slen cur); [rewrite slen_append |];
        change (slen " ") with 1 in *; lia.
    + inversion E; subst. assumption.
Qed.

Lemma fillLines_width c n : forall rest,
  0 <= c -> Forall (fun line => slen line <= c) (fillLines c n rest).
Proof.
  induction n as [| n IH]; intros rest Hc; [constructor |].
  destruct rest as [| word rest]; [constructor |].
  cbn [fillLines].
  destruct (fillLine c EmptyString (word :: rest)) as [cur rest'] eqn:E.
  constructor; [| apply IH; assumption].
  destruct (0 <? slen cur); [| exact Hc].
  apply (fillLine_width c (word :: rest) EmptyString cur rest' Hc E).
Qed.

Lemma window_width g :
  0 <= CharsPerLine g ->
  Forall (fun line => slen line <= CharsPerLine g) (window g).
Proof.
  intros Hc. unfold window, padLines. apply List.Forall_app. split.
  - apply fillLines_width. assumption.
  - induction (Z.to_nat _) as [| k IH]; cbn [repeat]; constructor;
      [exact Hc | assumption].
Qed.

Lemma shift_width g w g' w' :
  CharsPerLine g = 50 -> shiftLines g w = Some (g', w') ->
  Forall (fun line => slen line <= 50) (DisplayLines g').
Proof.
  intros Hc H. apply shiftLines_Some in H as (line0 & gd & _ & Eg & H).
  apply generateDisplayLines_Some in Eg as [_ Hgd].
  assert (Hd : Forall (fun line => slen line <= 50) (DisplayLines gd)).
  { rewrite Hgd. cbn [DisplayLines set_DisplayLines].
    match goal with
    | |- Forall _ (padLines _ (fillLines _ _ (skipn _ (AllWords ?g1)))) =>
        change (Forall (fun line => slen line <= 50) (window g1));
        pose proof (window_width g1) as Hw
    end.
    fields. rewrite Hc in Hw. apply Hw. lia. }
  destruct H as [(_ & -> & _) | (_ & _ & -> & _)]; assumption.
Qed.

(** ** More invariants *)

Lemma kept_same g g' :
  DisplayLines g' = DisplayLines g -> Errors g' = Errors g ->
  (IsFinished g' = true -> IsStarted g' = true) ->
  kept g -> kept g'.
Proof.
  intros HD HE HF []. constructor; rewrite ?HD, ?HE; assumption.
Qed.

Lemma kept_advance g w g' w' :
  CharsPerLine g = 50 -> kept g -> advance g w = Some (g', w') -> kept g'.
Proof.
  intros Hc [] H. pose proof (advance_frame _ _ _ _ H) as Hf.
  destruct Hf as (_ & _ & _ & HE & _ & _ & _ & HS & HF & _).
  apply advance_words in H as (gs & (_ & _ & _ & Hcs & _) & H).
  constructor.
  - apply (shift_width gs w g' w'); [congruence | assumption].
  - rewrite HE. assumption.
  - rewrite HS, HF. assumption.
Qed.

Lemma sessions_kept ok g : sessions ok g -> kept g.
Proof.
  intros Hs. induction Hs as [d w g w' _ E | g c w g' w' Hs IH _ E
                             | g w b g' w' Hs IH _ E | g Hs IH].
  - unfold NewTypingGame in E. apply bind_Some in E as (words & w1 & _ & E).
    apply lift_Some in E as [E _].
    apply generateDisplayLines_Some in E as [_ ->].
    constructor.
    + cbn [DisplayLines set_DisplayLines].
      match goal with
      | |- Forall _ (padLines (LinesPerView ?g1) _) =>
          apply (window_width g1)
      end. fields. lia.
    + fields. intros k v Hk. rewrite lookup_empty in Hk. discriminate.
    + fields. discriminate.
  - pose proof (inv_chars _ (sessions_inv _ _ Hs)) as Hc.
    apply AddCharacter_cases in E as (gs & Hgs & E).
    assert (Hks : kept gs /\ IsStarted gs = true /\ CharsPerLine gs = 50).
    { rewrite Hgs. destruct (IsStarted g) eqn:Eg; [auto |].
      split; [| auto]. destruct IH. constructor; fields; auto. }
    destruct Hks as (Hks & Hst & Hcs).
    destruct E as [-> | [-> | [(line0 & e & _ & _ & _ & ->) | (_ & _ & _ & ws & E)]]].
    + destruct Hks. constructor; fields; auto.
    + assumption.
    + destruct Hks. unfold typed.
      destruct (negb (e =? c)); constructor; fields; auto.
      intros k v Hk. destruct (decide (GlobalPos gs = k)) as [Heq | Hne].
      * rewrite Heq, lookup_insert_eq in Hk. congruence.
      * rewrite lookup_insert_ne in Hk by assumption. eauto.
    + eapply kept_advance; eassumption.
  - pose proof (inv_chars _ (sessions_inv _ _ Hs)) as Hc.
    apply HandleEnterKey_cases in E as [(_ & ->) | (_ & _ & _ & ws & E)];
      [assumption | eapply kept_advance; eassumption].
  - destruct IH. unfold RemoveCharacter.
    destruct ((0 <? slen (UserInput g)) && (0 <? CurrentPos g));
      constructor; fields; auto.
    intros k v Hk. apply lookup_delete_Some in Hk as [_ Hk]. eauto.
Qed.

(** X1: the lines [generateDisplayLines] builds never exceed the line
    width: every line of the window has at most [CharsPerLine] bytes (for
    a width that is not negative), so every display line of a reachable
    session has at most 50, and the text [GetDisplayText] joins them to
    has at most 152. *)
Theorem lines_fit :
  (forall g, 0 <= CharsPerLine g ->
     Forall (fun line => slen line <= CharsPerLine g) (window g)) /\
  (forall g, reachable g ->
     Forall (fun line => slen line <= 50) (DisplayLines g) /\
     slen (GetDisplayText g) <= 152).
Proof.
  split; [exact window_width |].
  intros g Hr. pose proof (kept_width _ (sessions_kept _ _ Hr)) as Hw.
  split; [assumption |].
  pose proof (inv_window _ (sessions_inv _ _ Hr)) as Hl.
  unfold GetDisplayText.
  destruct (DisplayLines g) as [| a [| b [| c [| d rest]]]];
    unfold len in Hl; cbn [length] in Hl; try lia.
  inversion Hw as [| ? ? Ha Hw1]; subst.
  inversion Hw1 as [| ? ? Hb Hw2]; subst.
  inversion Hw2 as [| ? ? Hc _]; subst.
  cbn [Join]. rewrite !slen_append. change (slen " ") with 1. lia.
Qed.

Lemma lines_fit_witness :
  Forall (fun line => slen line <= 50) (DisplayLines eol200) /\
  slen (GetDisplayText eol200) <= 152.
Proof. exact (proj2 lines_fit eol200 reachable_eol200). Defined.

(** ** Keystrokes that are ignored *)

(** X2: in a running session a character other than space typed at the
    end of the line changes nothing, and Enter pressed before the end of
    the line changes nothing and returns [false]; both only read the
    clock. *)
Theorem ignored_keystrokes g c w line0 :
  IsStarted g = true -> IsFinished g = false -> time_is_up g w = false ->
  index (DisplayLines g) 0 = Some line0 ->
  (CurrentPos g = len (runes line0) -> c <> 32 ->
   AddCharacter g c w = Some (g, tick w)) /\
  (CurrentPos g <> len (runes line0) ->
   HandleEnterKey g w = Some (false, g, tick w)).
Proof.
  intros Hs Hf Hup E0. split.
  - intros Heol Hc. rewrite AddCharacter_running by assumption.
    unfold accept, bind. rewrite E0. cbn [lift].
    rewrite Heol, Z.eqb_refl.
    destruct (Z.eqb_spec c 32); [contradiction | reflexivity].
  - intros Hmid. rewrite HandleEnterKey_running by assumption.
    unfold bind. rewrite E0. cbn [lift].
    destruct (Z.eqb_spec (CurrentPos g) (len (runes line0)));
      [contradiction | reflexivity].
Qed.

Lemma ignored_keystrokes_witness :
  (CurrentPos typed_line = len (runes "ab cd") -> 120 <> 32 ->
   AddCharacter typed_line 120 calm = Some (typed_line, tick calm)) /\
  (CurrentPos typed_line <> len (runes "ab cd") ->
   HandleEnterKey typed_line calm = Some (false, typed_line, tick calm)).
Proof.
  apply (ignored_keystrokes typed_line 120 calm "ab cd");
    vm_compute; reflexivity.
Defined.

(** ** A finished session *)

Lemma set_IsFinished_id g : IsFinished g = true -> set_IsFinished true g = g.
Proof. destruct g. cbn. intros ->. reflexivity. Qed.

(** X3: once a reachable session is marked finished, [AddCharacter] and
    [HandleEnterKey] leave it exactly as it is, whatever the character
    and whatever the clock shows; they do not even read the clock. *)
Theorem finished_is_frozen g c w :
  reachable g -> IsFinished g = true ->
  AddCharacter g c w = Some (g, w) /\
  HandleEnterKey g w = Some (false, g, w).
Proof.
  intros Hr Hf.
  pose proof (kept_finished _ (sessions_kept _ _ Hr) Hf) as Hs.
  rewrite AddCharacter_eq, HandleEnterKey_eq. unfold bind.
  rewrite Hs, Hf. cbn [negb ret].
  rewrite Hf. cbn [ret]. rewrite set_IsFinished_id by assumption.
  split; reflexivity.
Qed.

Lemma reachable_finished_a : reachable finished_a.
Proof.
  assert (E : AddCharacter typed_a 98 late = Some (finished_a, tick late))
    by (vm_compute; reflexivity).
  exact (s_add _ _ 98 late _ _ reachable_typed_a I E).
Qed.

Lemma finished_is_frozen_witness :
  AddCharacter finished_a 98 calm = Some (finished_a, calm) /\
  HandleEnterKey finished_a calm = Some (false, finished_a, calm).
Proof.
  exact (finished_is_frozen finished_a 98 calm reachable_finished_a eq_refl).
Defined.

(** ** Line advances *)

Lemma RemoveCharacter_at_start g :
  CurrentPos g = 0 -> RemoveCharacter g = g.
Proof.
  intros Hc. unfold RemoveCharacter. rewrite Hc, andb_false_r. reflexivity.
Qed.

(** A line advance in a reachable session counts one more character. *)
Lemma advance_counts g w g' w' :
  inv g -> advance g w = Some (g', w') ->
  GlobalPos g' = GlobalPos g + 1.
Proof.
  intros Hinv H. pose proof (inv_advance _ _ _ _ Hinv H) as Hinv'.
  apply advance_frame in H as (HU & HG & _).
  rewrite HG. apply incr_id.
  pose proof (inv_input _ Hinv') as Hin. rewrite HU, slen_append in Hin.
  change (slen " ") with 1 in Hin.
  destruct Hinv. unfold min_int. lia.
Qed.

(** X4: the result of [HandleEnterKey] tells whether the session changed.
    When it returns [false] the session is exactly as before; when it
    returns [true] the session was not finished, the cursor was at the
    end of the line, a space was recorded as input, [GlobalPos] grew by
    one, [CurrentPos] is 0 and the errors are as before. *)
Theorem enter_reports_advance g w b g' w' :
  reachable g -> HandleEnterKey g w = Some (b, g', w') ->
  (b = false -> g' = g) /\
  (b = true ->
   IsFinished g = false /\
   (exists line0, index (DisplayLines g) 0 = Some line0 /\
                  CurrentPos g = len (runes line0)) /\
   UserInput g' = String.append (UserInput g) " " /\
   GlobalPos g' = GlobalPos g + 1 /\ CurrentPos g' = 0 /\
   Errors g' = Errors g /\ TotalErrorsMade g' = TotalErrorsMade g).
Proof.
  intros Hr H. apply sessions_inv in Hr as Hinv.
  apply HandleEnterKey_cases in H as [(-> & ->) | (-> & Hf & Heol & ws & H)].
  - split; [reflexivity | discriminate].
  - split; [discriminate |]. intros _.
    pose proof (advance_counts _ _ _ _ Hinv H) as HG.
    apply advance_frame in H as (HU & _ & HC & HE & HT & _).
    repeat split; assumption.
Qed.

Lemma enter_reports_advance_witness :
  exists g' w',
    HandleEnterKey eol200 plenty = Some (true, g', w') /\
    GlobalPos g' = GlobalPos eol200 + 1 /\ CurrentPos g' = 0.
Proof.
  destruct (line_advance eol200 plenty line17) as [_ Ee];
    [reflexivity | reflexivity | vm_compute; reflexivity | reflexivity
    | vm_compute; reflexivity | closed_le | closed_le | closed_le
    | closed_le | closed_le |].
  exists (fst (advanced eol200 (tick plenty) line17)),
         (snd (advanced eol200 (tick plenty) line17)).
  split; [exact Ee |].
  destruct (enter_reports_advance eol200 plenty true _ _
              reachable_eol200 Ee) as [_ H].
  destruct (H eq_refl) as (_ & _ & _ & HG & HC & _).
  exact (conj HG HC).
Defined.

(** X5: backspace never crosses a line boundary: right after a line
    advance, by Enter or by a space accepted at the end of the line,
    [RemoveCharacter] changes nothing. *)
Theorem no_backspace_across_lines g :
  reachable g ->
  (forall w g' w',
     HandleEnterKey g w = Some (true, g', w') -> RemoveCharacter g' = g') /\
  (forall w line0 g' w',
     index (DisplayLines g) 0 = Some line0 ->
     CurrentPos g = len (runes line0) ->
     AddCharacter g 32 w = Some (g', w') -> GlobalPos g' <> GlobalPos g ->
     RemoveCharacter g' = g').
Proof.
  intros Hr. split.
  - intros w g' w' H.
    apply HandleEnterKey_cases in H as [(Hb & _) | (_ & _ & _ & ws & H)];
      [discriminate |].
    apply advance_frame in H as (_ & _ & HC & _).
    apply RemoveCharacter_at_start. assumption.
  - intros w line0 g' w' E0 Heol H Hacc.
    apply AddCharacter_cases in H as (gs & Hgs & H).
    assert (HG : GlobalPos gs = GlobalPos g)
      by (rewrite Hgs; destruct (IsStarted g); reflexivity).
    destruct H as [-> | [-> | [(l0 & e & El0 & Ee & _) | (_ & _ & _ & ws & H)]]].
    + fields. congruence.
    + congruence.
    + rewrite E0 in El0. inversion El0; subst l0.
      apply index_Some in Ee. lia.
    + apply advance_frame in H as (_ & _ & HC & _).
      apply RemoveCharacter_at_start. assumption.
Qed.

Lemma no_backspace_across_lines_witness :
  exists g' w',
    HandleEnterKey eol200 plenty = Some (true, g', w') /\
    RemoveCharacter g' = g'.
Proof.
  destruct (line_advance eol200 plenty line17) as [_ Ee];
    [reflexivity | reflexivity | vm_compute; reflexivity | reflexivity
    | vm_compute; reflexivity | closed_le | closed_le | closed_le
    | closed_le | closed_le |].
  exists (fst (advanced eol200 (tick plenty) line17)),
         (snd (advanced eol200 (tick plenty) line17)).
  split; [exact Ee |].
  exact (proj1 (no_backspace_across_lines eol200 reachable_eol200) _ _ _ Ee).
Defined.

(** ** Runes, fields and bytes *)

(** Decoding yields at most one rune per byte. *)
Lemma decode_length s : (length (decode s) <= length s)%nat.
Proof.
  assert (H : forall n s, (length s <= n)%nat ->
                          (length (decode s) <= length s)%nat).
  { induction n as [| n IH]; intros [| b0 t0] Hs; cbn [length] in Hs;
      try (cbn; lia).
    assert (H0 : (length (decode t0) <= length t0)%nat) by (apply IH; lia).
    assert (Ht : forall b t, t0 = b :: t ->
                   (length (decode t) <= length t)%nat /\
                   forall b' t', t = b' :: t' ->
                     (length (decode t') <= length t')%nat /\
                     forall b'' t'', t' = b'' :: t'' ->
                       (length (decode t'') <= length t'')%nat).
    { intros b t ->. cbn [length] in Hs. split; [apply IH; lia |].
      intros b' t' ->. cbn [length] in Hs. split; [apply IH; lia |].
      intros b'' t'' ->. cbn [length] in Hs. apply IH; lia. }
    change (decode (b0 :: t0)) with
      (if b0 <? 128 then b0 :: decode t0
       else
         let bad := RuneError :: decode t0 in
         if (194 <=? b0) && (b0 <=? 223) then
           match t0 with
           | b1 :: t1 =>
             if is_cont b1
             then ((b0 - 192) * 64 + (b1 - 128)) :: decode t1
             else bad
           | _ => bad
           end
         else if (224 <=? b0) && (b0 <=? 239) then
           match t0 with
           | b1 :: (b2 :: t2) =>
             let lo := if b0 =? 224 then 160 else 128 in
             let hi := if b0 =? 237 then 159 else 191 in
             if (lo <=? b1) && (b1 <=? hi) && is_cont b2
             then ((b0 - 224) * 4096 + (b1 - 128) * 64 + (b2 - 128))
                    :: decode t2
             else bad
           | _ => bad
           end
         else if (240 <=? b0) && (b0 <=? 244) then
           match t0 with
           | b1 :: (b2 :: (b3 :: t3)) =>
             let lo := if b0 =? 240 then 144 else 128 in
             let hi := if b0 =? 244 then 143 else 191 in
             if (lo <=? b1) && (b1 <=? hi) && is_cont b2 && is_cont b3
             then ((b0 - 240) * 262144 + (b1 - 128) * 4096
                   + (b2 - 128) * 64 + (b3 - 128)) :: decode t3
             else bad
           | _ => bad
           end
         else bad).
    cbv zeta.
    destruct (b0 <? 128); [cbn [length] in *; lia |].
    destruct ((194 <=? b0) && (b0 <=? 223)).
    { destruct t0 as [| b1 t1]; [cbn [length] in *; lia |].
      destruct (Ht b1 t1 eq_refl) as [H1 _].
      destruct (is_cont b1); cbn [length] in *; lia. }
    destruct ((224 <=? b0) && (b0 <=? 239)).
    { destruct t0 as [| b1 [| b2 t2]]; try (cbn [length] in *; lia).
      destruct (Ht b1 _ eq_refl) as [_ H2].
      destruct (H2 b2 t2 eq_refl) as [H3 _].
      destruct (_ && is_cont b2); cbn [length] in *; lia. }
    destruct ((240 <=? b0) && (b0 <=? 244)).
    { destruct t0 as [| b1 [| b2 [| b3 t3]]]; try (cbn [length] in *; lia).
      destruct (Ht b1 _ eq_refl) as [_ H2].
      destruct (H2 b2 _ eq_refl) as [_ H3].
      pose proof (H3 b3 t3 eq_refl) as H4.
      destruct (_ && is_cont b3); cbn [length] in *; lia. }
    cbn [length] in *. lia. }
  apply (H (length s)). lia.
Qed.

Lemma count_fields_le space b l : count_fields space b l <= len l.
Proof.
  revert b. induction l as [| x l IH]; intros b; [unfold len; cbn; lia |].
  cbn [count_fields]. specialize (IH (space x)). unfold len in *.
  cbn [length]. destruct (b && negb (space x)); lia.
Qed.

Lemma len_bytes s : len (bytes s) = slen s.
Proof.
  unfold len, slen, bytes. rewrite length_map.
  induction s as [| a s IH]; cbn [list_ascii_of_string length String.length];
    lia.
Qed.

(** A text has at most as many fields as bytes. *)
Lemma Fields_len_le s : Fields_len s <= slen s.
Proof.
  unfold Fields_len. rewrite <- len_bytes.
  destruct (forallb _ _); [apply count_fields_le |].
  pose proof (count_fields_le IsSpace true (runes s)).
  pose proof (decode_length (bytes s)). unfold runes, rune, len in *. lia.
Qed.

(** Wrapping cannot turn a sum that is just out of range into a value
    that is not negative. *)
Lemma wrap_nonneg z :
  0 <= z <= max_int + 2 ^ 62 -> 0 <= wrap z -> wrap z = z.
Proof.
  intros Hz Hw. destruct (Z_le_gt_dec z max_int) as [Hle | Hgt].
  - apply wrap_id. unfold in_int, min_int. lia.
  - exfalso. unfold wrap, max_int in *.
    replace (z + 2 ^ 63) with ((z + 2 ^ 63 - 2 ^ 64) + 1 * 2 ^ 64) in Hw
      by ring.
    rewrite Z.mod_add in Hw by lia.
    rewrite Z.mod_small in Hw by lia. lia.
Qed.

(** ** What no operation changes *)

Lemma index_Forall {A} (P : A -> Prop) (l : list A) i x :
  Forall P l -> index l i = Some x -> P x.
Proof.
  intros Hl Hi. apply index_nth in Hi as [_ Hi].
  rewrite List.Forall_forall in Hl. apply Hl.
  apply (nth_error_In l (Z.to_nat i)). assumption.
Qed.

(** The words a line advance counts and the words it may append. *)
Lemma advance_words_count g w g' w' :
  inv g -> kept g -> advance g w = Some (g', w') ->
  exists line0 new,
    index (DisplayLines g) 0 = Some line0 /\
    WordsTyped g' = WordsTyped g + Fields_len line0 /\
    AllWords g' = AllWords g ++ new.
Proof.
  intros Hinv Hk H.
  apply advance_words in H as (gs & (HA & HD & HW & HC & HL) & H).
  apply shiftLines_Some in H as (line0 & gd & E0 & Eg & H).
  rewrite HD in E0. rewrite HW in Eg.
  pose proof (index_Forall _ _ _ _ (kept_width _ Hk) E0) as Hlen.
  cbv beta in Hlen.
  pose proof (Fields_len_le line0) as Hfl.
  pose proof (Fields_len_nonneg line0) as Hf0.
  pose proof (inv_words _ Hinv) as Hw.
  apply generateDisplayLines_Some in Eg as [Hnn Hgd]. fields.
  rewrite HL, (inv_lines _ Hinv) in Hnn.
  assert (Hadd : int_add (WordsTyped g) (Fields_len line0)
                 = WordsTyped g + Fields_len line0).
  { apply wrap_nonneg; [unfold max_int in *; lia | apply Hnn; lia]. }
  assert (Hfacts : WordsTyped gd = WordsTyped g + Fields_len line0 /\
                   AllWords gd = AllWords g).
  { rewrite Hgd. fields. rewrite Hadd. auto. }
  destruct Hfacts as [HWd HAd]. exists line0.
  destruct H as [(_ & -> & _) | (_ & _ & -> & _)].
  - exists []. rewrite app_nil_r. auto.
  - exists (wordSource w (draws w) 100). fields. rewrite HA. auto.
Qed.

(** X6: no operation changes the configured duration, the line width or
    the number of lines, none resets the started or the finished flag,
    the word buffer only grows at its end (what it held stays in place),
    and [WordsTyped] never goes back: it stays or grows by the number of
    fields of the completed line, at most 50. *)
Theorem operations_preserve g g' :
  reachable g -> step (fun _ => True) g g' ->
  Duration g' = Duration g /\ LinesPerView g' = LinesPerView g /\
  CharsPerLine g' = CharsPerLine g /\
  (IsStarted g = true -> IsStarted g' = true) /\
  (IsFinished g = true -> IsFinished g' = true) /\
  (exists new, AllWords g' = AllWords g ++ new) /\
  WordsTyped g <= WordsTyped g' <= WordsTyped g + 50.
Proof.
  intros Hr Hstep. apply sessions_inv in Hr as Hinv.
  apply sessions_kept in Hr as Hk.
  assert (Hsame : forall g1,
            Duration g1 = Duration g -> LinesPerView g1 = LinesPerView g ->
            CharsPerLine g1 = CharsPerLine g ->
            (IsStarted g = true -> IsStarted g1 = true) ->
            (IsFinished g = true -> IsFinished g1 = true) ->
            AllWords g1 = AllWords g -> WordsTyped g1 = WordsTyped g ->
            Duration g1 = Duration g /\ LinesPerView g1 = LinesPerView g /\
            CharsPerLine g1 = CharsPerLine g /\
            (IsStarted g = true -> IsStarted g1 = true) /\
            (IsFinished g = true -> IsFinished g1 = true) /\
            (exists new, AllWords g1 = AllWords g ++ new) /\
            WordsTyped g <= WordsTyped g1 <= WordsTyped g + 50).
  { intros g1 H1 H2 H3 H4 H5 H6 H7. repeat split; auto; try lia.
    exists []. rewrite app_nil_r. assumption. }
  assert (Hadv : forall gs ws w',
            Duration gs = Duration g -> LinesPerView gs = LinesPerView g ->
            CharsPerLine gs = CharsPerLine g ->
            (IsStarted g = true -> IsStarted gs = true) ->
            IsFinished gs = IsFinished g ->
            AllWords gs = AllWords g -> WordsTyped gs = WordsTyped g ->
            DisplayLines gs = DisplayLines g -> inv gs -> kept gs ->
            advance gs ws = Some (g', w') ->
            Duration g' = Duration g /\ LinesPerView g' = LinesPerView g /\
            CharsPerLine g' = CharsPerLine g /\
            (IsStarted g = true -> IsStarted g' = true) /\
            (IsFinished g = true -> IsFinished g' = true) /\
            (exists new, AllWords g' = AllWords g ++ new) /\
            WordsTyped g <= WordsTyped g' <= WordsTyped g + 50).
  { intros gs ws w' H1 H2 H3 H4 H5 H6 H7 H8 Hinvs Hks E.
    destruct (advance_words_count _ _ _ _ Hinvs Hks E)
      as (line0 & new & E0 & HW & HA).
    pose proof (index_Forall _ _ _ _ (kept_width _ Hks) E0) as Hlen.
    cbv beta in Hlen.
    pose proof (Fields_len_le line0). pose proof (Fields_len_nonneg line0).
    apply advance_frame in E
      as (_ & _ & _ & _ & _ & _ & HD & HS & HF & HL & HC).
    rewrite HD, HS, HF, HL, HC, HW, HA, H1, H2, H3, H5, H6, H7.
    repeat split; eauto; lia. }
  destruct Hstep as [c w g1 w1 _ E | w b g1 w1 _ E |].
  - pose proof (inv_AddCharacter _ _ _ _ _ Hinv E) as Hinv'.
    apply AddCharacter_cases in E as (gs & Hgs & E).
    assert (Hv : Duration gs = Duration g /\
                 LinesPerView gs = LinesPerView g /\
                 CharsPerLine gs = CharsPerLine g /\
                 IsStarted gs = true /\ IsFinished gs = IsFinished g /\
                 AllWords gs = AllWords g /\ WordsTyped gs = WordsTyped g /\
                 DisplayLines gs = DisplayLines g /\ inv gs /\ kept gs).
    { rewrite Hgs. destruct (IsStarted g) eqn:Eg;
        repeat (split; [first [reflexivity | assumption] |]).
      - assumption.
      - split.
        + destruct Hinv. constructor; fields; auto; discriminate.
        + destruct Hk. constructor; fields; auto. }
    destruct Hv as (V1 & V2 & V3 & V4 & V5 & V6 & V7 & V8 & V9 & V10).
    destruct E as [-> | [-> | [(line0 & e & _ & _ & _ & ->)
                              | (_ & _ & _ & ws & E)]]].
    + apply Hsame; fields; auto.
    + apply Hsame; auto. congruence.
    + unfold typed. destruct (negb (e =? c)); apply Hsame; fields; auto;
        congruence.
    + apply (Hadv gs ws w1); auto.
  - apply HandleEnterKey_cases in E as [(_ & ->) | (_ & _ & _ & ws & E)].
    + apply Hsame; auto.
    + apply (Hadv g ws w1); auto.
  - apply Hsame; unfold RemoveCharacter;
      destruct ((0 <? slen (UserInput g)) && (0 <? CurrentPos g)); auto.
Qed.

Lemma operations_preserve_witness :
  Duration typed_ab = Duration typed_a /\
  LinesPerView typed_ab = LinesPerView typed_a /\
  CharsPerLine typed_ab = CharsPerLine typed_a /\
  (IsStarted typed_a = true -> IsStarted typed_ab = true) /\
  (IsFinished typed_a = true -> IsFinished typed_ab = true) /\
  (exists new, AllWords typed_ab = AllWords typed_a ++ new) /\
  WordsTyped typed_a <= WordsTyped typed_ab <= WordsTyped typed_a + 50.
Proof.
  apply (operations_preserve typed_a typed_ab reachable_typed_a).
  exact (step_add _ _ 98 calm _ _ I typed_ab_add).
Defined.

(** ** A keystroke and a backspace *)

Lemma drop_last_append_one s a :
  drop_last (String.append s (String a EmptyString)) = s.
Proof.
  induction s as [| b s IH]; [reflexivity |].
  rewrite append_String.
  destruct (String.append s (String a EmptyString)) as [| x rest] eqn:E.
  - destruct s; discriminate.
  - change (drop_last (String b (String x rest)))
      with (String b (drop_last (String x rest))).
    rewrite IH. reflexivity.
Qed.

Lemma encode_ascii c :
  0 <= c < 128 -> encode c = String (byte_of c) EmptyString.
Proof.
  intros [H0 H1]. unfold encode.
  destruct (Z.leb_spec 0 c); [| lia]. destruct (Z.ltb_spec c 128); [| lia].
  reflexivity.
Qed.

Lemma slen_encode_wide c : ~ 0 <= c < 128 -> 2 <= slen (encode c).
Proof.
  intros Hc. unfold encode. rewrite slen_string_of_bytes.
  destruct (Z.leb_spec 0 c), (Z.ltb_spec c 128); cbn [andb]; try lia;
    repeat match goal with
           | |- context [if ?b then _ else _] => destruct b
           end; unfold len; cbn [length]; lia.
Qed.

Lemma slen_drop_last_append s t :
  0 < slen t ->
  slen (drop_last (String.append s t)) = slen s + slen t - 1.
Proof.
  intros Ht. rewrite slen_drop_last; rewrite slen_append;
    pose proof (slen_nonneg s); lia.
Qed.

(** The positions, and the errors when the key was free, after a
    keystroke in the middle of the line was taken back. *)
Lemma typed_removed g c e :
  inv g -> slen (UserInput g) + slen (encode c) <= max_int ->
  RemoveCharacter (typed g c e)
  = set_UserInput (drop_last (String.append (UserInput g) (encode c)))
      (if negb (e =? c)
       then set_TotalErrorsMade (incr (TotalErrorsMade g)) g else g).
Proof.
  intros Hinv Hroom. destruct Hinv. pose proof (slen_encode c) as Henc.
  assert (HG1 : incr (GlobalPos g) = GlobalPos g + 1)
    by (apply incr_id; unfold min_int; lia).
  assert (HC1 : incr (CurrentPos g) = CurrentPos g + 1)
    by (apply incr_id; unfold min_int; lia).
  assert (HG2 : decr (GlobalPos g + 1) = GlobalPos g)
    by (rewrite decr_id; unfold min_int; lia).
  assert (HC2 : decr (CurrentPos g + 1) = CurrentPos g)
    by (rewrite decr_id; unfold min_int; lia).
  assert (Hfree : Errors g !! GlobalPos g = None).
  { destruct (Errors g !! GlobalPos g) eqn:El; [| reflexivity].
    assert (Hk : is_Some (Errors g !! GlobalPos g)) by (rewrite El; eauto).
    specialize (inv_errors0 _ Hk). lia. }
  unfold typed, RemoveCharacter.
  destruct (negb (e =? c)); fields; rewrite HG1, HC1, slen_append;
    (destruct (Z.ltb_spec 0 (slen (UserInput g) + slen (encode c)));
       [| lia]);
    (destruct (Z.ltb_spec 0 (CurrentPos g + 1)); [| lia]);
    cbn [andb]; fields; rewrite HG2, HC2;
    [rewrite delete_insert_id by assumption
    | rewrite delete_id by assumption];
    destruct g; reflexivity.
Qed.

(** X7: a one-byte character (0 to 127) typed in the middle of the line
    and taken back at once leaves the session exactly as it was when the
    character matched the line; when it did not, the only trace is the
    count of mistakes made. *)
Theorem keystroke_backspace_roundtrip g c w line0 expected :
  reachable g ->
  IsStarted g = true -> IsFinished g = false -> time_is_up g w = false ->
  index (DisplayLines g) 0 = Some line0 ->
  index (runes line0) (CurrentPos g) = Some expected ->
  0 <= c < 128 ->
  slen (UserInput g) + 1 <= max_int ->
  exists g',
    AddCharacter g c w = Some (g', tick w) /\
    RemoveCharacter g'
    = (if expected =? c then g
       else set_TotalErrorsMade (incr (TotalErrorsMade g)) g).
Proof.
  intros Hr Hs Hf Hup E0 Ee Hc Hroom. apply sessions_inv in Hr as Hinv.
  assert (Henc : slen (encode c) = 1)
    by (rewrite encode_ascii by assumption; reflexivity).
  exists (typed g c expected). split.
  - rewrite AddCharacter_running by assumption.
    apply (accept_mid g c (tick w) line0 expected); try assumption. lia.
  - rewrite typed_removed by (assumption || lia).
    rewrite encode_ascii, drop_last_append_one by assumption.
    destruct (expected =? c); cbn [negb]; destruct g; reflexivity.
Qed.

Lemma keystroke_backspace_roundtrip_witness :
  exists g',
    AddCharacter typed_a 98 calm = Some (g', tick calm) /\
    RemoveCharacter g'
    = (if 98 =? 98 then typed_a
       else set_TotalErrorsMade (incr (TotalErrorsMade typed_a)) typed_a).
Proof.
  apply (keystroke_backspace_roundtrip typed_a 98 calm "ab cd" 98
           reachable_typed_a);
    try (vm_compute; reflexivity).
  - vm_compute. split; [discriminate | reflexivity].
  - closed_le.
Defined.

(** X8: [RemoveCharacter] takes back one byte of the input, not one
    character: after a character that [string(char)] encodes in more
    than one byte (any [char] outside 0 to 127), typed in the middle of
    the line and taken back at once, both positions are back where they
    were, but the input text keeps all bytes of the character except the
    last and is longer than before. *)
Theorem backspace_removes_one_byte g c w line0 :
  reachable g ->
  IsStarted g = true -> IsFinished g = false -> time_is_up g w = false ->
  index (DisplayLines g) 0 = Some line0 ->
  CurrentPos g < len (runes line0) ->
  ~ 0 <= c < 128 ->
  slen (UserInput g) + slen (encode c) <= max_int ->
  exists g',
    AddCharacter g c w = Some (g', tick w) /\
    CurrentPos (RemoveCharacter g') = CurrentPos g /\
    GlobalPos (RemoveCharacter g') = GlobalPos g /\
    UserInput (RemoveCharacter g')
    = drop_last (String.append (UserInput g) (encode c)) /\
    slen (UserInput (RemoveCharacter g'))
    = slen (UserInput g) + slen (encode c) - 1 /\
    slen (UserInput g) < slen (UserInput (RemoveCharacter g')).
Proof.
  intros Hr Hs Hf Hup E0 Hlt Hc Hroom. apply sessions_inv in Hr as Hinv.
  pose proof (slen_encode_wide c Hc) as Hwide.
  destruct (index_in_range (runes line0) (CurrentPos g)) as [e Ee];
    [destruct Hinv; lia |].
  exists (typed g c e). split.
  - rewrite AddCharacter_running by assumption.
    apply (accept_mid g c (tick w) line0 e); assumption.
  - rewrite typed_removed by assumption.
    destruct (negb (e =? c)); fields;
      rewrite slen_drop_last_append by lia; repeat split; lia.
Qed.

Lemma backspace_removes_one_byte_witness :
  exists g',
    AddCharacter typed_a 233 calm = Some (g', tick calm) /\
    CurrentPos (RemoveCharacter g') = CurrentPos typed_a /\
    GlobalPos (RemoveCharacter g') = GlobalPos typed_a /\
    UserInput (RemoveCharacter g')
    = drop_last (String.append (UserInput typed_a) (encode 233)) /\
    slen (UserInput (RemoveCharacter g'))
    = slen (UserInput typed_a) + slen (encode 233) - 1 /\
    slen (UserInput typed_a) < slen (UserInput (RemoveCharacter g')).
Proof.
  apply (backspace_removes_one_byte typed_a 233 calm "ab cd"
           reachable_typed_a);
    try (vm_compute; reflexivity).
  - vm_compute. intros [_ H]. discriminate.
  - closed_le.
Defined.

(** ** Errors and statistics *)

(** A map with keys from 0 up to, but not including, [n] has at most [n]
    entries. *)
Lemma size_keys_below (m : gmap Z bool) n :
  0 <= n -> (forall k, is_Some (m !! k) -> 0 <= k < n) ->
  Z.of_nat (size m) <= n.
Proof.
  intros Hn Hk. rewrite <- (size_dom (D := gset Z)).
  assert (Hsub : dom m ⊆ (list_to_set (seqZ 0 n) : gset Z)).
  { intros k Hin. apply elem_of_dom in Hin.
    apply elem_of_list_to_set, elem_of_seqZ. specialize (Hk k Hin). lia. }
  apply subseteq_size in Hsub.
  rewrite size_list_to_set in Hsub by apply NoDup_seqZ.
  rewrite length_seqZ in Hsub. lia.
Qed.

(** X9: in a reachable session every entry of [Errors] is [true] and sits
    at a position below [GlobalPos], so there are at most [GlobalPos]
    of them: the [UncorrectedErrors] that [GetStats] reports never exceed
    its [CharactersTyped]. *)
Theorem errors_bounded g :
  reachable g ->
  (forall k v, Errors g !! k = Some v -> v = true /\ 0 <= k < GlobalPos g) /\
  Z.of_nat (size (Errors g)) <= GlobalPos g /\
  (forall w, IsStarted g = true ->
     exists s w',
       GetStats g w = Some (s, g, w') /\
       0 <= UncorrectedErrors s <= CharactersTyped s).
Proof.
  intros Hr. apply sessions_inv in Hr as Hinv.
  apply sessions_kept in Hr as Hk.
  assert (Hpos : 0 <= GlobalPos g) by (destruct Hinv; lia).
  pose proof (size_keys_below _ _ Hpos (inv_errors _ Hinv)) as Hsize.
  split; [| split; [assumption |]].
  - intros k v E. split; [apply (kept_true _ Hk k v E) |].
    apply (inv_errors _ Hinv). rewrite E. eauto.
  - intros w Hs. eexists _, _.
    split; [apply GetStats_started; assumption |].
    unfold stats_of. cbn [UncorrectedErrors CharactersTyped]. lia.
Qed.

Lemma errors_bounded_witness :
  Z.of_nat (size (Errors typed_ax)) <= GlobalPos typed_ax.
Proof.
  exact (proj1 (proj2 (errors_bounded typed_ax reachable_typed_ax))).
Defined.

(** ** Typing what the line shows *)

Lemma skipn_nth_error {A} (l : list A) : forall p e,
  nth_error l p = Some e -> skipn p l = e :: skipn (S p) l.
Proof.
  induction l as [| x l IH]; intros [| p] e E; cbn in E; try discriminate.
  - inversion E. reflexivity.
  - cbn [skipn]. rewrite (IH p e E). reflexivity.
Qed.

Lemma in_time_now g w n : in_time g w (S n) -> time_is_up g w = false.
Proof.
  intros H. specialize (H 0%nat). rewrite Nat.add_0_r in H. apply H. lia.
Qed.

Lemma in_time_tick g w g' n :
  Duration g' = Duration g -> StartTime g' = StartTime g ->
  in_time g w (S n) -> in_time g' (tick w) n.
Proof.
  intros HD HS H i Hi. specialize (H (S i)). rewrite HD, HS.
  cbn [tick clock ticks].
  replace (S (ticks w) + i)%nat with (ticks w + S i)%nat by lia.
  apply H. lia.
Qed.

(** X10: in a running session, typing the next [n] characters exactly
    as the first display line shows them is accepted key by key, as long
    as the clock stays short of the duration at the [n] readings these
    keystrokes take: both positions advance by [n], and neither [Errors]
    nor the count of mistakes nor the window changes. *)
Theorem correct_typing n : forall g w line0,
  reachable g ->
  IsStarted g = true -> IsFinished g = false -> in_time g w n ->
  index (DisplayLines g) 0 = Some line0 ->
  CurrentPos g + Z.of_nat n <= len (runes line0) ->
  slen (UserInput g) + 4 * Z.of_nat n <= max_int ->
  exists g',
    type_keys (firstn n (skipn (Z.to_nat (CurrentPos g)) (runes line0))) g w
    = Some (g', Nat.iter n tick w) /\
    reachable g' /\
    CurrentPos g' = CurrentPos g + Z.of_nat n /\
    GlobalPos g' = GlobalPos g + Z.of_nat n /\
    Errors g' = Errors g /\ TotalErrorsMade g' = TotalErrorsMade g /\
    DisplayLines g' = DisplayLines g /\ WordsTyped g' = WordsTyped g.
Proof.
  induction n as [| n IH]; intros g w line0 Hr Hs Hf Ht E0 Hn Hroom.
  - exists g. cbn [firstn type_keys Nat.iter].
    repeat split; auto; lia.
  - apply sessions_inv in Hr as Hinv.
    destruct (index_in_range (runes line0) (CurrentPos g)) as [e Ee];
      [destruct Hinv; lia |].
    pose proof Ee as Hnth. apply index_nth in Hnth as [_ Hnth].
    rewrite (skipn_nth_error _ _ _ Hnth). cbn [firstn type_keys].
    pose proof (slen_encode e) as Henc.
    assert (Ea : AddCharacter g e w = Some (typed g e e, tick w)).
    { rewrite AddCharacter_running by (eauto using in_time_now).
      apply (accept_mid g e (tick w) line0 e); try assumption. lia. }
    assert (HG1 : incr (GlobalPos g) = GlobalPos g + 1)
      by (apply incr_id; destruct Hinv; unfold min_int; lia).
    assert (HC1 : incr (CurrentPos g) = CurrentPos g + 1)
      by (apply incr_id; destruct Hinv; unfold min_int; lia).
    assert (Hfacts :
              CurrentPos (typed g e e) = CurrentPos g + 1 /\
              GlobalPos (typed g e e) = GlobalPos g + 1 /\
              Errors (typed g e e) = Errors g /\
              TotalErrorsMade (typed g e e) = TotalErrorsMade g /\
              DisplayLines (typed g e e) = DisplayLines g /\
              WordsTyped (typed g e e) = WordsTyped g /\
              IsStarted (typed g e e) = IsStarted g /\
              IsFinished (typed g e e) = IsFinished g /\
              Duration (typed g e e) = Duration g /\
              StartTime (typed g e e) = StartTime g /\
              UserInput (typed g e e)
              = String.append (UserInput g) (encode e)).
    { unfold typed. rewrite Z.eqb_refl. cbn [negb]. fields.
      rewrite HG1, HC1. repeat split; reflexivity. }
    destruct Hfacts as (FC & FG & FE & FT & FD & FW & FS & FF & FDu & FSt & FU).
    destruct (IH (typed g e e) (tick w) line0) as (g' & Ek & Hr' & R);
      try congruence.
    + exact (s_add _ g e w _ _ Hr I Ea).
    + apply (in_time_tick g w); assumption.
    + rewrite FC. lia.
    + rewrite FU, slen_append. lia.
    + exists g'. unfold bind. rewrite Ea.
      replace (S (Z.to_nat (CurrentPos g)))
        with (Z.to_nat (CurrentPos (typed g e e)))
        by (rewrite FC; destruct Hinv; lia).
      rewrite Ek. split; [rewrite Nat.iter_succ_r; reflexivity |].
      split; [assumption |].
      destruct R as (R1 & R2 & R3 & R4 & R5 & R6).
      rewrite R1, R2, R3, R4, R5, R6, FC, FG, FE, FT, FD, FW.
      repeat split; lia.
Qed.

Lemma correct_typing_witness :
  exists g',
    type_keys (firstn 4 (skipn (Z.to_nat (CurrentPos typed_a))
                           (runes "ab cd"))) typed_a calm
    = Some (g', Nat.iter 4 tick calm) /\
    reachable g' /\
    CurrentPos g' = CurrentPos typed_a + Z.of_nat 4 /\
    GlobalPos g' = GlobalPos typed_a + Z.of_nat 4 /\
    Errors g' = Errors typed_a /\
    TotalErrorsMade g' = TotalErrorsMade typed_a /\
    DisplayLines g' = DisplayLines typed_a /\
    WordsTyped g' = WordsTyped typed_a.
Proof.
  apply (correct_typing 4 typed_a calm "ab cd" reachable_typed_a).
  - reflexivity.
  - reflexivity.
  - intros i Hi.
    do 4 (destruct i as [| i]; [vm_compute; reflexivity |]). lia.
  - reflexivity.
  - closed_le.
  - closed_le.
Defined.

(** ** The window is a greedy word wrap *)

Lemma append_assoc s t u :
  String.append (String.append s t) u = String.append s (String.append t u).
Proof.
  induction s as [| a s IH]; [rewrite !append_empty; reflexivity |].
  rewrite !append_String, IH. reflexivity.
Qed.

Lemma Join_cons_append a b l :
  Join (String.append a b :: l) " " = String.append a (Join (b :: l) " ").
Proof.
  destruct l as [| x l]; cbn [Join]; [reflexivity |].
  rewrite append_assoc. reflexivity.
Qed.

Lemma slen_Join_cons cur l : slen cur <= slen (Join (cur :: l) " ").
Proof.
  destruct l as [| x l]; cbn [Join]; [lia |].
  rewrite slen_append.
  match goal with
  | |- _ <= _ + slen ?t => pose proof (slen_nonneg t)
  end.
  lia.
Qed.

(** The inner loop on a line that is not empty: the line it leaves is
    the line it found joined with the words it took, and the word it
    stops at does not fit. *)
Lemma fillLine_greedy c : forall rest cur line rest',
  0 < slen cur ->
  fillLine c cur rest = (line, rest') ->
  exists taken,
    rest = taken ++ rest' /\ line = Join (cur :: taken) " " /\
    match rest' with
    | [] => True
    | word :: _ => c < slen line + 1 + slen word
    end.
Proof.
  induction rest as [| word rest IH]; intros cur line rest' Hcur E;
    cbn [fillLine] in E.
  - inversion E; subst. exists []. repeat split; reflexivity.
  - destruct (Z.ltb_spec 0 (slen cur)) as [_ | Hno]; [| lia].
    destruct (Z.leb_spec (slen cur + 1 + slen word) c) as [Hfit | Hfit].
    + apply IH in E as (taken & Hr & Hl & Hstop).
      * exists (word :: taken). split; [rewrite Hr; reflexivity |].
        split; [| assumption].
        rewrite Hl, Join_cons_append. cbn [Join].
        rewrite append_assoc. reflexivity.
      * rewrite !slen_append. pose proof (slen_nonneg word).
        change (slen " ") with 1. lia.
    + inversion E; subst. exists []. repeat split; try reflexivity.
      cbn [Join]. lia.
Qed.

(** The inner loop from the empty line, over words none of which is
    empty. *)
Lemma fillLine_greedy_empty c rest line rest' :
  Forall (fun word => 0 < slen word) rest ->
  fillLine c EmptyString rest = (line, rest') ->
  exists taken,
    rest = taken ++ rest' /\ line = Join taken " " /\
    match rest' with
    | [] => True
    | word :: _ =>
      c < slen line + (if 0 <? slen line then 1 else 0) + slen word
    end.
Proof.
  intros Hne E. destruct rest as [| word rest]; cbn [fillLine] in E.
  - inversion E; subst. exists []. repeat split; reflexivity.
  - change (slen "") with 0 in E. cbn [Z.ltb Z.compare] in E.
    rewrite append_empty in E. inversion Hne as [| ? ? Hw Hrest]; subst.
    destruct (Z.leb_spec (0 + 0 + slen word) c) as [Hfit | Hfit].
    + apply fillLine_greedy in E as (taken & Hr & Hl & Hstop);
        [| assumption].
      exists (word :: taken). split; [rewrite Hr; reflexivity |].
      split; [assumption |].
      pose proof (slen_Join_cons word taken) as Hlen. rewrite <- Hl in Hlen.
      destruct (Z.ltb_spec 0 (slen line)) as [_ | Hno]; [| lia].
      assumption.
    + inversion E; subst. exists []. repeat split; try reflexivity.
      change (slen "") with 0. cbn [Z.ltb Z.compare]. lia.
Qed.

Lemma fillLines_greedy c n : forall rest,
  Forall (fun word => 0 < slen word) rest ->
  exists chunks rest',
    rest = List.concat chunks ++ rest' /\
    fillLines c n rest = map (fun ch => Join ch " ") chunks /\
    packed c chunks rest' /\
    (length chunks <= n)%nat /\ (rest' = [] \/ length chunks = n).
Proof.
  induction n as [| n IH]; intros rest Hne.
  - exists [], rest. cbn. repeat split; auto.
  - destruct rest as [| word rest].
    + exists [], []. cbn. repeat split; auto. lia.
    + cbn [fillLines].
      destruct (fillLine c EmptyString (word :: rest)) as [cur r1] eqn:E.
      destruct (fillLine_greedy_empty _ _ _ _ Hne E)
        as (taken & Hr & Hl & Hstop).
      assert (Hne1 : Forall (fun word => 0 < slen word) r1).
      { rewrite Hr in Hne. apply Forall_app in Hne. tauto. }
      destruct (IH r1 Hne1) as (chunks & rest' & Hr1 & Hf & Hp & Hn & Hend).
      exists (taken :: chunks), rest'.
      split; [cbn [List.concat]; rewrite <- app_assoc, <- Hr1; exact Hr |].
      split.
      { cbn [map]. rewrite Hf, <- Hl. f_equal.
        destruct (Z.ltb_spec 0 (slen cur)) as [_ | Hno]; [reflexivity |].
        symmetry. apply slen_zero. pose proof (slen_nonneg cur). lia. }
      split; [cbn [packed]; rewrite <- Hr1, <- Hl; split; assumption |].
      cbn [length]. split; [lia |]. destruct Hend; [left | right]; auto.
Qed.

(** X11: [generateDisplayLines] wraps the words not yet typed greedily.
    When none of them is empty, the window is made of consecutive chunks
    of these words, in order and without a gap, each chunk joined by
    single spaces; a chunk ends only where the next word has no room on
    its line, and the window stops short of [LinesPerView] chunks only
    when the words have run out. *)
Theorem greedy_lines g :
  0 <= LinesPerView g -> 0 <= WordsTyped g ->
  Forall (fun word => 0 < slen word)
         (skipn (Z.to_nat (WordsTyped g)) (AllWords g)) ->
  exists chunks rest',
    generateDisplayLines g
    = Some (set_DisplayLines
              (padLines (LinesPerView g)
                 (map (fun ch => Join ch " ") chunks)) g) /\
    skipn (Z.to_nat (WordsTyped g)) (AllWords g)
    = List.concat chunks ++ rest' /\
    packed (CharsPerLine g) chunks rest' /\
    len chunks <= LinesPerView g /\
    (rest' = [] \/ len chunks = LinesPerView g).
Proof.
  intros Hl Hw Hne.
  destruct (fillLines_greedy (CharsPerLine g) (Z.to_nat (LinesPerView g))
              _ Hne) as (chunks & rest' & Hr & Hf & Hp & Hn & Hend).
  exists chunks, rest'.
  rewrite generateDisplayLines_total by assumption. unfold window.
  rewrite Hf. split; [reflexivity |]. split; [assumption |].
  split; [assumption |]. unfold len.
  split; [lia |]. destruct Hend; [left | right]; [assumption | lia].
Qed.

Lemma greedy_lines_witness :
  exists chunks rest',
    generateDisplayLines fresh
    = Some (set_DisplayLines
              (padLines (LinesPerView fresh)
                 (map (fun ch => Join ch " ") chunks)) fresh) /\
    skipn (Z.to_nat (WordsTyped fresh)) (AllWords fresh)
    = List.concat chunks ++ rest' /\
    packed (CharsPerLine fresh) chunks rest' /\
    len chunks <= LinesPerView fresh /\
    (rest' = [] \/ len chunks = LinesPerView fresh).
Proof.
  apply (greedy_lines fresh); [closed_le | closed_le |].
  repeat constructor.
Defined.

(** ** The window slides by one line *)

Lemma count_fields_proper l :
  forallb plain_byte l = true -> l <> [] ->
  count_fields asciiSpace true l = 1.
Proof.
  destruct l as [| x l]; [congruence |]. intros H _.
  cbn [forallb count_fields] in *.
  apply andb_true_iff in H as [Hx Hl]. unfold plain_byte in Hx.
  apply andb_true_iff in Hx as [_ Hx]. apply negb_true_iff in Hx.
  rewrite Hx, count_fields_inside by assumption. reflexivity.
Qed.

Lemma proper_word_parts s :
  proper_word s = true -> plain_word s = true /\ 0 < slen s.
Proof.
  unfold proper_word. intros H. apply andb_true_iff in H as [Hp Hn].
  split; [assumption |]. destruct (Z.ltb_spec 0 (slen s)); [lia | discriminate].
Qed.

Lemma proper_words_nonempty l :
  forallb proper_word l = true -> Forall (fun word => 0 < slen word) l.
Proof.
  induction l as [| x l IH]; cbn [forallb]; intros H; constructor.
  - apply andb_true_iff in H as [H _]. apply proper_word_parts in H. tauto.
  - apply IH. apply andb_true_iff in H. tauto.
Qed.

Lemma count_fields_proper_word s :
  proper_word s = true -> count_fields asciiSpace true (bytes s) = 1.
Proof.
  intros H. apply proper_word_parts in H as [Hp Hn].
  apply count_fields_proper; [exact Hp |].
  intros E. pose proof (len_bytes s) as Hl. rewrite E in Hl.
  change (len []) with 0 in Hl. lia.
Qed.

(** A line of proper words joined by single spaces has as many fields as
    words. *)
Lemma Fields_Join taken :
  forallb proper_word taken = true ->
  is_ascii (Join taken " ") = true /\
  count_fields asciiSpace true (bytes (Join taken " ")) = len taken.
Proof.
  induction taken as [| x l IH]; intros H.
  - split; reflexivity.
  - cbn [forallb] in H. apply andb_true_iff in H as [Hx Hl].
    specialize (IH Hl). destruct IH as [IHa IHc].
    pose proof (proper_word_parts _ Hx) as [Hp _].
    destruct l as [| y r].
    + cbn [Join]. split; [apply plain_word_ascii, Hp |].
      rewrite count_fields_proper_word by assumption. reflexivity.
    + change (Join (x :: y :: r) " ")
        with (String.append x (String.append " " (Join (y :: r) " "))).
      split.
      * apply is_ascii_append; [apply plain_word_ascii, Hp |].
        apply is_ascii_append; [reflexivity | assumption].
      * rewrite !bytes_append. change (bytes " ") with [32]. cbn [app].
        rewrite count_fields_after_space, IHc,
          count_fields_proper_word by assumption.
        unfold len. cbn [length]. lia.
Qed.

Lemma fillLines_nil c n : fillLines c n [] = [].
Proof. destruct n; reflexivity. Qed.

Lemma fillLines_cons c n word rest :
  fillLines c (S n) (word :: rest)
  = (let '(currentLine, rest') := fillLine c EmptyString (word :: rest) in
     (if 0 <? slen currentLine then currentLine else EmptyString)
       :: fillLines c n rest').
Proof. reflexivity. Qed.

(** One more line to fill changes none of the lines before it. *)
Lemma nth_fillLines_more c n : forall rest i,
  (i < n)%nat ->
  nth i (fillLines c (S n) rest) EmptyString
  = nth i (fillLines c n rest) EmptyString.
Proof.
  induction n as [| n IH]; intros rest i Hi; [lia |].
  destruct rest as [| word rest]; [rewrite !fillLines_nil; reflexivity |].
  rewrite (fillLines_cons c (S n)), (fillLines_cons c n).
  destruct (fillLine c EmptyString (word :: rest)) as [cur r1].
  destruct i as [| i]; [reflexivity |]. cbn [nth]. apply IH. lia.
Qed.

(** The first line holds the words it took, and the lines after it are
    the lines filled from the words it left. *)
Lemma fillLines_head c n rest :
  Forall (fun word => 0 < slen word) rest ->
  exists taken r1,
    rest = taken ++ r1 /\
    nth 0 (fillLines c (S n) rest) EmptyString = Join taken " " /\
    forall i, nth (S i) (fillLines c (S n) rest) EmptyString
              = nth i (fillLines c n r1) EmptyString.
Proof.
  intros Hne. destruct rest as [| word rest].
  - exists [], []. repeat split. intros i.
    rewrite !fillLines_nil. destruct i; reflexivity.
  - rewrite fillLines_cons.
    destruct (fillLine c EmptyString (word :: rest)) as [cur r1] eqn:E.
    destruct (fillLine_greedy_empty _ _ _ _ Hne E) as (taken & Hr & Hl & _).
    exists taken, r1. split; [assumption |]. split; [| reflexivity].
    cbn [nth]. rewrite <- Hl.
    destruct (Z.ltb_spec 0 (slen cur)) as [_ | Hno]; [reflexivity |].
    symmetry. apply slen_zero. pose proof (slen_nonneg cur). lia.
Qed.

Lemma index_padLines n lines i :
  len lines <= n -> 0 <= i < n ->
  index (padLines n lines) i = Some (nth (Z.to_nat i) lines EmptyString).
Proof.
  intros Hl Hi. unfold index.
  rewrite len_padLines by (pose proof (len_nonneg lines); lia).
  destruct (Z.leb_spec 0 i); [| lia]. destruct (Z.ltb_spec i n); [| lia].
  cbn [andb]. unfold padLines, len in *.
  destruct (Nat.lt_ge_cases (Z.to_nat i) (length lines)) as [Hin | Hout].
  - rewrite nth_error_app1 by assumption.
    apply nth_error_nth'. assumption.
  - rewrite nth_error_app2 by assumption.
    rewrite nth_overflow by assumption.
    apply nth_error_repeat. lia.
Qed.

(** X12: the window slides. In a session whose window is the one
    [generateDisplayLines] computes from its buffer, over proper words,
    [shiftLines] moves [WordsTyped] past exactly the words of the first
    line, and every line but the last of the new window is the line that
    stood below it before. *)
Theorem window_slides g w line0 :
  DisplayLines g = window g ->
  index (DisplayLines g) 0 = Some line0 ->
  0 <= WordsTyped g <= len (AllWords g) ->
  len (AllWords g) + len (wordSource w (draws w) 100) <= max_int ->
  forallb proper_word (skipn (Z.to_nat (WordsTyped g)) (AllWords g)) = true ->
  exists taken g' w',
    shiftLines g w = Some (g', w') /\
    line0 = Join taken " " /\
    WordsTyped g' = WordsTyped g + len taken /\
    skipn (Z.to_nat (WordsTyped g)) (AllWords g)
    = taken ++ skipn (Z.to_nat (WordsTyped g')) (AllWords g) /\
    forall i, 0 <= i -> i + 1 < LinesPerView g ->
              index (DisplayLines g') i = index (DisplayLines g) (i + 1).
Proof.
  intros Hwin E0 Hw Hroom Hp.
  assert (HL : 0 < LinesPerView g).
  { destruct (Z_lt_le_dec 0 (LinesPerView g)) as [| Hno]; [assumption |].
    exfalso. rewrite Hwin in E0. unfold window, padLines in E0.
    replace (Z.to_nat (LinesPerView g)) with 0%nat in E0 by lia.
    cbn [fillLines] in E0. change (len []) with 0 in E0.
    replace (Z.to_nat (LinesPerView g - 0)) with 0%nat in E0 by lia.
    discriminate E0. }
  pose proof (len_nonneg (wordSource w (draws w) 100)) as Hsrc.
  destruct (Z.to_nat (LinesPerView g)) as [| n] eqn:En; [lia |].
  set (rest := skipn (Z.to_nat (WordsTyped g)) (AllWords g)) in *.
  assert (Hrest : len rest = len (AllWords g) - WordsTyped g).
  { unfold rest, len in *. rewrite length_skipn. lia. }
  destruct (fillLines_head (CharsPerLine g) n rest
              (proper_words_nonempty _ Hp)) as (taken & r1 & Hr & H0 & Hnext).
  assert (Hold : forall j, 0 <= j < LinesPerView g ->
            index (DisplayLines g) j
            = Some (nth (Z.to_nat j)
                      (fillLines (CharsPerLine g) (S n) rest) EmptyString)).
  { intros j Hj. rewrite Hwin. unfold window. rewrite En. fold rest.
    apply index_padLines; [| assumption].
    pose proof (length_fillLines (CharsPerLine g) (S n) rest).
    unfold len. lia. }
  assert (Hline : line0 = Join taken " ").
  { rewrite Hold in E0 by lia. change (Z.to_nat 0) with 0%nat in E0.
    rewrite H0 in E0. congruence. }
  assert (Htaken : forallb proper_word taken = true).
  { rewrite Hr, forallb_app in Hp. apply andb_true_iff in Hp. tauto. }
  assert (Hf : Fields_len line0 = len taken).
  { destruct (Fields_Join taken Htaken) as [Ha Hc].
    rewrite Hline, Fields_len_ascii; assumption. }
  assert (Hlt : len taken <= len rest).
  { rewrite Hr, len_app. pose proof (len_nonneg r1). lia. }
  assert (Hskip : skipn (Z.to_nat (WordsTyped g + len taken)) (AllWords g)
                  = r1).
  { replace (Z.to_nat (WordsTyped g + len taken))
      with (length taken + Z.to_nat (WordsTyped g))%nat by (unfold len; lia).
    rewrite <- List.skipn_skipn. fold rest. rewrite Hr.
    apply drop_app_length. }
  assert (Hnew : forall i, 0 <= i -> i + 1 < LinesPerView g ->
            index (window (set_CurrentPos 0
                             (set_WordsTyped (WordsTyped g + len taken) g))) i
            = index (DisplayLines g) (i + 1)).
  { intros i Hi Hi1. rewrite Hold by lia. unfold window. fields.
    rewrite En, Hskip.
    rewrite index_padLines;
      [| pose proof (length_fillLines (CharsPerLine g) (S n) r1);
         unfold len; lia | lia].
    replace (Z.to_nat (i + 1)) with (S (Z.to_nat i)) by lia.
    rewrite Hnext, nth_fillLines_more by lia. reflexivity. }
  rewrite (shiftLines_total g w line0) by (try assumption; lia).
  rewrite Hf.
  destruct (len (AllWords g) - 50 <? WordsTyped g + len taken);
    eexists taken, _, _; (split; [reflexivity |]);
    (split; [assumption |]); unfold shifted; fields; rewrite Hf, Hskip;
    (split; [reflexivity |]); (split; [assumption |]); exact Hnew.
Qed.

Lemma window_slides_witness :
  exists taken g' w',
    shiftLines eol200 plenty = Some (g', w') /\
    line17 = Join taken " " /\
    WordsTyped g' = WordsTyped eol200 + len taken /\
    skipn (Z.to_nat (WordsTyped eol200)) (AllWords eol200)
    = taken ++ skipn (Z.to_nat (WordsTyped g')) (AllWords eol200) /\
    forall i, 0 <= i -> i + 1 < LinesPerView eol200 ->
              index (DisplayLines g') i = index (DisplayLines eol200) (i + 1).
Proof.
  apply (window_slides eol200 plenty line17).
  - vm_compute. reflexivity.
  - vm_compute. reflexivity.
  - split; closed_le.
  - closed_le.
  - vm_compute. reflexivity.
Defined.

(** ** What the renderer shows of a keystroke *)

Lemma typed_fields g c expected :
  min_int <= CurrentPos g < max_int -> min_int <= GlobalPos g < max_int ->
  CurrentPos (typed g c expected) = CurrentPos g + 1 /\
  GlobalPos (typed g c expected) = GlobalPos g + 1 /\
  Errors (typed g c expected)
  = if expected =? c then Errors g
    else <[GlobalPos g := true]> (Errors g).
Proof.
  intros HC HG. unfold typed.
  destruct (expected =? c); cbn [negb]; fields;
    rewrite !incr_id by assumption; repeat split; reflexivity.
Qed.

(** X13: the renderer after a keystroke. When a running session accepts a
    character in the middle of its line, [styleChar] shows the column
    just typed in the error style if the character differs from the one
    displayed and in the bold style if it is the same, moves the cursor
    style one column on, and shows every column before unchanged. *)
Theorem styleChar_after_keystroke g c w line0 expected :
  reachable g ->
  IsStarted g = true -> IsFinished g = false -> time_is_up g w = false ->
  index (DisplayLines g) 0 = Some line0 ->
  index (runes line0) (CurrentPos g) = Some expected ->
  slen (UserInput g) + slen (encode c) <= max_int ->
  exists g',
    AddCharacter g c w = Some (g', tick w) /\
    (forall ch, styleChar g ch (CurrentPos g) = (cursorStyle, encode ch)) /\
    (forall ch, styleChar g' ch (CurrentPos g)
                = (if expected =? c then boldStyle else errorStyle,
                   encode ch)) /\
    (forall ch, styleChar g' ch (CurrentPos g + 1)
                = (cursorStyle, encode ch)) /\
    (forall ch i, 0 <= i < CurrentPos g ->
                  styleChar g' ch i = styleChar g ch i).
Proof.
  intros Hr Hs Hf Hup E0 Ee Hroom. apply sessions_inv in Hr as Hinv.
  pose proof (inv_pos _ Hinv) as HC. pose proof (inv_input _ Hinv) as HG.
  pose proof (inv_errors _ Hinv) as HE. pose proof (slen_encode c) as Hc.
  exists (typed g c expected).
  split.
  { rewrite AddCharacter_running by assumption.
    apply (accept_mid g c (tick w) line0 expected); assumption. }
  destruct (typed_fields g c expected) as (FC & FG & FE);
    [unfold min_int; lia | unfold min_int; lia |].
  assert (Hsub : forall i, 0 <= i <= CurrentPos g ->
            int_sub (GlobalPos g + 1) (int_sub (CurrentPos g + 1) i)
            = GlobalPos g - CurrentPos g + i /\
            int_sub (GlobalPos g) (int_sub (CurrentPos g) i)
            = GlobalPos g - CurrentPos g + i).
  { intros i Hi. unfold int_sub.
    rewrite !(wrap_id (_ - i)) by (unfold in_int, min_int, max_int in *; lia).
    rewrite !wrap_id by (unfold in_int, min_int, max_int in *; lia).
    lia. }
  split; [| split; [| split]].
  - intros ch. unfold styleChar. rewrite Z.ltb_irrefl, Z.eqb_refl.
    reflexivity.
  - intros ch. unfold styleChar. rewrite FC, FG, FE.
    destruct (Z.ltb_spec (CurrentPos g) (CurrentPos g + 1)); [| lia].
    destruct (Hsub (CurrentPos g)) as [-> _]; [lia |].
    replace (GlobalPos g - CurrentPos g + CurrentPos g) with (GlobalPos g)
      by lia.
    destruct (expected =? c).
    + destruct (Errors g !! GlobalPos g) as [v |] eqn:El; [| reflexivity].
      assert (Hk : 0 <= GlobalPos g < GlobalPos g) by (apply HE; eauto).
      lia.
    + rewrite lookup_insert_eq. reflexivity.
  - intros ch. unfold styleChar. rewrite FC, Z.ltb_irrefl, Z.eqb_refl.
    reflexivity.
  - intros ch i Hi. unfold styleChar. rewrite FC, FG, FE.
    destruct (Z.ltb_spec i (CurrentPos g + 1)); [| lia].
    destruct (Z.ltb_spec i (CurrentPos g)); [| lia].
    destruct (Hsub i) as [-> ->]; [lia |].
    destruct (expected =? c); [reflexivity |].
    rewrite lookup_insert_ne by lia. reflexivity.
Qed.

Lemma styleChar_after_keystroke_witness :
  exists g',
    AddCharacter typed_a 120 calm = Some (g', tick calm) /\
    (forall ch, styleChar typed_a ch (CurrentPos typed_a)
                = (cursorStyle, encode ch)) /\
    (forall ch, styleChar g' ch (CurrentPos typed_a)
                = (if 98 =? 120 then boldStyle else errorStyle,
                   encode ch)) /\
    (forall ch, styleChar g' ch (CurrentPos typed_a + 1)
                = (cursorStyle, encode ch)) /\
    (forall ch i, 0 <= i < CurrentPos typed_a ->
                  styleChar g' ch i = styleChar typed_a ch i).
Proof.
  apply (styleChar_after_keystroke typed_a 120 calm "ab cd" 98
           reachable_typed_a); try (vm_compute; reflexivity).
  closed_le.
Defined.

(** ** Readings of the clock and requests for words *)

Lemma shiftLines_world g w g' w' :
  shiftLines g w = Some (g', w') -> used g g' w w' 0.
Proof.
  intros H. apply shiftLines_Some in H as (line0 & gd & _ & Eg & H).
  apply generateDisplayLines_Some in Eg as [_ Hgd].
  assert (Hall : AllWords gd = AllWords g) by (rewrite Hgd; reflexivity).
  unfold used. rewrite Nat.add_0_r.
  destruct H as [(_ & -> & ->) | (_ & _ & -> & ->)]; fields;
    cbn [drawn clock wordSource ticks draws]; repeat split; auto.
Qed.

Lemma accept_world g c w g' w' :
  accept g c w = Some (g', w') -> used g g' w w' 0.
Proof.
  assert (Hnone : used g g w w 0)
    by (unfold used; rewrite Nat.add_0_r; auto 6).
  unfold accept. intros H.
  apply bind_Some in H as (line0 & w1 & E0 & H).
  apply lift_Some in E0 as [_ ->].
  destruct (CurrentPos g =? len (runes line0)).
  - destruct (c =? 32).
    + apply bind_Some in H as (input & w1 & Ec & H).
      apply lift_Some in Ec as [_ ->].
      apply shiftLines_world in H. exact H.
    + apply ret_Some in H as [-> ->]. exact Hnone.
  - destruct ((CurrentPos g <? len (runes line0)) && (0 <=? CurrentPos g)).
    + apply bind_Some in H as (input & w1 & Ec & H).
      apply lift_Some in Ec as [_ ->].
      apply bind_Some in H as (expected & w1 & Ee & H).
      apply lift_Some in Ee as [_ ->].
      apply ret_Some in H as [-> ->].
      unfold used in *. destruct (negb (expected =? c)); fields; exact Hnone.
    + apply ret_Some in H as [-> ->]. exact Hnone.
Qed.

Lemma used_after_ticks g gs g' w w' n :
  AllWords gs = AllWords g ->
  used gs g' (Nat.iter n tick w) w' 0 -> used g g' w w' n.
Proof.
  intros HA (Hc & Hs & Ht & Hd). rewrite HA in Hd.
  assert (Hw : clock (Nat.iter n tick w) = clock w /\
               wordSource (Nat.iter n tick w) = wordSource w /\
               draws (Nat.iter n tick w) = draws w /\
               ticks (Nat.iter n tick w) = (ticks w + n)%nat).
  { clear. induction n as [| n IH].
    - change (Nat.iter 0 tick w) with w. rewrite Nat.add_0_r. auto.
    - destruct IH as (Hc & Hs & Hd & Ht). rewrite Nat.iter_succ.
      cbn [tick clock wordSource draws ticks]. rewrite Hc, Hs, Hd, Ht.
      repeat split; lia. }
  destruct Hw as (Wc & Ws & Wd & Wt).
  rewrite Wc, Ws, Wd, Wt, Nat.add_0_r in *. unfold used. auto.
Qed.

(** X14: what the operations ask of the outside. [AddCharacter] reads the
    clock once to start a session that is not started and once more for
    the time check of a session that is not finished, and
    [HandleEnterKey] reads it once, for a started session that is not
    finished; neither reads it otherwise. Each asks the word source at
    most once, for the 100 words it appends to the buffer, and a buffer
    that is not appended to stays as it was. *)
Theorem clock_and_source_use g w :
  (forall c g' w',
     AddCharacter g c w = Some (g', w') ->
     used g g' w w'
       ((if IsStarted g then 0 else 1) + (if IsFinished g then 0 else 1))) /\
  (forall b g' w',
     HandleEnterKey g w = Some (b, g', w') ->
     used g g' w w'
       (if IsFinished g then 0 else if IsStarted g then 1 else 0)).
Proof.
  assert (Hret : forall gs g' n w',
            AllWords gs = AllWords g -> AllWords g' = AllWords gs ->
            w' = Nat.iter n tick w -> used g g' w w' n).
  { intros gs g' n w' HA HA' ->. apply (used_after_ticks g gs); [exact HA |].
    unfold used. rewrite Nat.add_0_r. auto 6. }
  split.
  - intros c g' w' H. rewrite AddCharacter_eq in H.
    apply bind_Some in H as (gs & ws & Es & H).
    assert (Hs : AllWords gs = AllWords g /\ IsFinished gs = IsFinished g /\
                 IsStarted gs = true /\
                 ws = Nat.iter (if IsStarted g then 0 else 1) tick w).
    { destruct (IsStarted g) eqn:Eg; cbn [negb] in Es.
      - apply ret_Some in Es as [-> ->]. auto.
      - apply Start_Some in Es as [(Et & _) | (_ & -> & ->)];
          [congruence | auto]. }
    destruct Hs as (HA & HF & HS & ->).
    apply bind_Some in H as (up & wu & Eu & H).
    assert (Hu : wu = Nat.iter ((if IsStarted g then 0 else 1)
                                + (if IsFinished g then 0 else 1)) tick w).
    { rewrite <- HF. destruct (IsFinished gs).
      - apply ret_Some in Eu as [_ ->]. rewrite Nat.add_0_r. reflexivity.
      - rewrite IsTimeUp_started in Eu by assumption.
        inversion Eu. rewrite Nat.add_comm. reflexivity. }
    subst wu. destruct up.
    + apply ret_Some in H as [-> ->]. apply (Hret gs); auto.
    + apply accept_world in H. apply (used_after_ticks g gs); assumption.
  - intros b g' w' H. rewrite HandleEnterKey_eq in H.
    apply bind_Some in H as (up & wu & Eu & H).
    assert (Hu : wu = Nat.iter (if IsFinished g then 0
                                else if IsStarted g then 1 else 0) tick w).
    { destruct (IsFinished g).
      - apply ret_Some in Eu as [_ ->]. reflexivity.
      - destruct (IsStarted g) eqn:Eg.
        + rewrite IsTimeUp_started in Eu by assumption.
          inversion Eu. reflexivity.
        + rewrite IsTimeUp_fresh in Eu by assumption.
          inversion Eu. reflexivity. }
    subst wu. destruct up.
    + apply ret_Some in H as [E ->]. inversion E; subst.
      apply (Hret g); auto.
    + apply bind_Some in H as (line0 & w1 & E0 & H).
      apply lift_Some in E0 as [_ ->].
      destruct (CurrentPos g =? len (runes line0)).
      * apply bind_Some in H as (ga & wa & Ea & H).
        apply ret_Some in H as [E ->]. inversion E; subst.
        unfold advance in Ea.
        apply bind_Some in Ea as (input & w1 & Ec & Ea).
        apply lift_Some in Ec as [_ ->].
        apply shiftLines_world in Ea.
        apply (used_after_ticks g g); [reflexivity | exact Ea].
      * apply ret_Some in H as [E ->]. inversion E; subst.
        apply (Hret g); auto.
Qed.

Lemma clock_and_source_use_witness :
  used fresh typed_a calm (tick (tick calm))
    ((if IsStarted fresh then 0 else 1)
     + (if IsFinished fresh then 0 else 1)).
Proof.
  exact (proj1 (clock_and_source_use fresh calm) 97 typed_a _ typed_a_add).
Defined.

(** ** The new session *)

(** X15: [NewTypingGame] asks the word source once, for 200 words, and
    never reads the clock. The session it returns holds these words, the
    window [generateDisplayLines] computes from them, the duration it was
    given, and nothing typed. Whatever that duration is, zero and
    negative ones included, the new session is not timed out, its
    statistics are the zero record, and both are found without reading
    the clock; a backspace leaves it as it is. *)
Theorem new_session d w :
  len (wordSource w (draws w) 200) <= max_int ->
  exists g,
    NewTypingGame d w = Some (g, drawn w) /\
    g = mkGame (wordSource w (draws w) 200) (window g) EmptyString 0 0 None d
               false false ∅ 0 3 50 0 /\
    (forall w1, IsTimeUp g w1 = Some (false, w1)) /\
    (forall w1, GetStats g w1 = Some (zeroStats, g, w1)) /\
    RemoveCharacter g = g.
Proof.
  intros Hlen. unfold NewTypingGame, bind, GenerateWords.
  destruct (Z.leb_spec (len (wordSource w (draws w) 200)) max_int); [| lia].
  rewrite generateDisplayLines_total by (cbn; lia). cbn [lift].
  eexists. split; [reflexivity |]. split; [reflexivity |].
  split; [intros w1; apply IsTimeUp_fresh; reflexivity |].
  split; [reflexivity |]. apply RemoveCharacter_at_start. reflexivity.
Qed.

Lemma new_session_witness :
  exists g,
    NewTypingGame 0 plenty = Some (g, drawn plenty) /\
    g = mkGame (wordSource plenty (draws plenty) 200) (window g) EmptyString
               0 0 None 0 false false ∅ 0 3 50 0 /\
    (forall w1, IsTimeUp g w1 = Some (false, w1)) /\
    (forall w1, GetStats g w1 = Some (zeroStats, g, w1)) /\
    RemoveCharacter g = g.
Proof. apply (new_session 0 plenty). closed_le. Defined.

(** ** Words that a line has no room for *)

(** X16: over a word source that delivers words (ASCII text without
    white space), [WordsTyped] never passes a word that is longer than
    [CharsPerLine], wherever in the buffer it stands: the count is at or
    before its index in every session, and no sequence of
    [AddCharacter], [HandleEnterKey] and [RemoveCharacter] takes the
    count past it or moves the word. *)
Theorem no_word_skipped g k word :
  sessions tidy g ->
  index (AllWords g) k = Some word -> CharsPerLine g < slen word ->
  WordsTyped g <= k /\
  (forall g', steps tidy g g' ->
     index (AllWords g') k = Some word /\
     WordsTyped g <= WordsTyped g' <= k).
Proof.
  intros Hs Ek Hlong. apply sessions_orderly in Hs as Ho.
  split; [apply (ord_blocked _ Ho k word Ek Hlong) |].
  intros g' Hsteps.
  destruct (steps_orderly g g' Ho Hsteps) as (Ho' & Hw & [new Hn] & Hc).
  assert (Ek' : index (AllWords g') k = Some word)
    by (rewrite Hn; apply index_app_Some; assumption).
  split; [assumption |]. split; [assumption |].
  apply (ord_blocked _ Ho' k word Ek'). rewrite Hc. assumption.
Qed.

Lemma no_word_skipped_witness :
  WordsTyped blocked <= 1 /\
  (forall g', steps tidy blocked g' ->
     index (AllWords g') 1 = Some long_word /\
     WordsTyped blocked <= WordsTyped g' <= 1).
Proof.
  apply (no_word_skipped blocked 1 long_word tidy_blocked).
  - vm_compute. reflexivity.
  - vm_compute. reflexivity.
Defined.

End Further.

(* ===================================================================== *)
(** * The word buffer: over-long words, and the growth of the buffer *)
(* ===================================================================== *)

Module Supply.
Import Go GoFacts Game Model Samples More Session SampleFacts Further.

(** ** The window and the buffer it was computed from *)

Lemma shown_same g g' : same_words g g' -> shown g -> shown g'.
Proof.
  intros (HA & HD & HW & HC & HL) (old & new & Ho & Hd).
  exists old, new. split; [congruence |].
  rewrite HD, Hd. unfold window. fields. rewrite HW, HC, HL. reflexivity.
Qed.

Lemma shown_shift g w g' w' : shiftLines g w = Some (g', w') -> shown g'.
Proof.
  intros H. apply shiftLines_Some in H as (line0 & gd & _ & Eg & H).
  apply generateDisplayLines_Some in Eg as [_ Hgd].
  destruct H as [(_ & -> & _) | (_ & _ & -> & _)]; rewrite Hgd.
  - exists (AllWords g), []. fields.
    split; [rewrite app_nil_r; reflexivity | reflexivity].
  - exists (AllWords g), (wordSource w (draws w) 100). fields.
    split; reflexivity.
Qed.

Lemma shown_words_step g g' w : shown g -> words_step g g' w -> shown g'.
Proof.
  intros Hsh [Hsame | (gs & ws & w' & _ & _ & H)].
  - eapply shown_same; eassumption.
  - eapply shown_shift; eassumption.
Qed.

Lemma sessions_shown ok g : sessions ok g -> shown g.
Proof.
  induction 1 as [d w g w' _ E | g c w g' w' _ IH _ E
                 | g w b g' w' _ IH _ E | g _ IH].
  - unfold NewTypingGame in E. apply bind_Some in E as (words & w1 & _ & E).
    apply lift_Some in E as [E _].
    apply generateDisplayLines_Some in E as [_ ->].
    exists words, []. fields.
    split; [rewrite app_nil_r; reflexivity | reflexivity].
  - apply AddCharacter_words in E. eapply shown_words_step; eassumption.
  - apply HandleEnterKey_words in E. eapply shown_words_step; eassumption.
  - apply (shown_same g); [apply RemoveCharacter_words | assumption].
Qed.

(** Where the word at [WordsTyped] is too long for a line, the first
    display line is empty: the window was computed either with that word
    in front, or after the buffer of the time was used up. *)
Lemma shown_blocked g word :
  inv g -> shown g ->
  index (AllWords g) (WordsTyped g) = Some word ->
  CharsPerLine g < slen word ->
  index (DisplayLines g) 0 = Some EmptyString.
Proof.
  intros Hinv (old & new & Ho & Hd) Ei Hlong.
  pose proof (inv_lines _ Hinv) as Hl. pose proof (inv_words _ Hinv) as Hw.
  rewrite Hd.
  destruct (Z_lt_ge_dec (WordsTyped g) (len old)) as [Hin | Hout].
  - apply (window_blocked (set_AllWords old g) word); fields;
      [lia | lia | | assumption].
    rewrite Ho in Ei. apply (index_app_old _ new); assumption.
  - rewrite window_exhausted; fields; [reflexivity | assumption | lia].
Qed.

(** ** A session in front of an over-long word stays there *)

Lemma stuck_step g g' w word :
  inv g -> shown g ->
  index (AllWords g) (WordsTyped g) = Some word ->
  CharsPerLine g < slen word ->
  words_step g g' w ->
  WordsTyped g' = WordsTyped g /\
  (exists new, AllWords g' = AllWords g ++ new) /\
  CharsPerLine g' = CharsPerLine g.
Proof.
  intros Hinv Hsh Ei Hlong
    [(HA & _ & HW & HC & _)
    | (gs & ws & w' & (HA & HD & HW & HC & HL) & _ & H)].
  - split; [assumption |].
    split; [exists []; rewrite app_nil_r; assumption | assumption].
  - pose proof (shown_blocked g word Hinv Hsh Ei Hlong) as E0.
    apply shiftLines_Some in H as (line0 & gd & E0' & Eg & H).
    rewrite HD, E0 in E0'. inversion E0'; subst line0.
    change (Fields_len "") with 0 in Eg.
    apply generateDisplayLines_Some in Eg as [_ Hgd].
    assert (Hadd : int_add (WordsTyped gs) 0 = WordsTyped g).
    { unfold int_add. rewrite Z.add_0_r, HW. apply wrap_id.
      pose proof (inv_words _ Hinv). unfold in_int, min_int. lia. }
    rewrite Hadd in Hgd.
    destruct H as [(_ & -> & _) | (_ & _ & -> & _)]; rewrite Hgd; fields;
      rewrite ?HA, ?HC.
    + split; [reflexivity |].
      split; [exists []; rewrite app_nil_r; reflexivity | reflexivity].
    + split; [reflexivity |]. split; [eauto | reflexivity].
Qed.

Lemma step_reachable g g' :
  reachable g -> step (fun _ => True) g g' -> reachable g'.
Proof.
  intros Hr [c w g1 w1 _ E | w b g1 w1 _ E |].
  - exact (s_add _ g c w g1 w1 Hr I E).
  - exact (s_enter _ g w b g1 w1 Hr I E).
  - exact (s_remove _ g Hr).
Qed.

Lemma step_words g g' :
  step (fun _ => True) g g' -> exists w, words_step g g' w.
Proof.
  intros [c w g1 w1 _ E | w b g1 w1 _ E |].
  - exists w. eapply AddCharacter_words; eassumption.
  - exists w. eapply HandleEnterKey_words; eassumption.
  - exists calm. left. apply RemoveCharacter_words.
Qed.

Lemma stuck_steps word g g' :
  steps (fun _ => True) g g' ->
  reachable g ->
  index (AllWords g) (WordsTyped g) = Some word ->
  CharsPerLine g < slen word ->
  WordsTyped g' = WordsTyped g /\
  index (AllWords g') (WordsTyped g) = Some word.
Proof.
  induction 1 as [g | g g1 g2 H1 _ IH]; intros Hr Ei Hlong; [auto |].
  destruct (step_words g g1 H1) as [w Hw].
  destruct (stuck_step g g1 w word (sessions_inv _ _ Hr)
              (sessions_shown _ _ Hr) Ei Hlong Hw) as (HW & [new HA] & HC).
  destruct IH as [HW2 Ei2].
  - eapply step_reachable; eassumption.
  - rewrite HW, HA. apply index_app_Some. assumption.
  - rewrite HC. assumption.
  - rewrite HW in HW2, Ei2. auto.
Qed.

(** C10: whenever the word at index [WordsTyped] is longer than
    [CharsPerLine], the first line [generateDisplayLines] produces is the
    empty string. In every reachable session in front of such a word the
    first display line is empty and the cursor is at its end; a line
    advance from it returns and adds zero to [WordsTyped]; and no
    sequence of [AddCharacter], [HandleEnterKey] and [RemoveCharacter]
    changes [WordsTyped] or moves the word: it stays where it is and
    blocks. *)
Theorem overlong_word_blocks :
  (forall g word,
     0 < LinesPerView g -> 0 <= WordsTyped g ->
     index (AllWords g) (WordsTyped g) = Some word ->
     CharsPerLine g < slen word ->
     generateDisplayLines g = Some (set_DisplayLines (window g) g) /\
     index (window g) 0 = Some EmptyString) /\
  (forall g word,
     reachable g ->
     index (AllWords g) (WordsTyped g) = Some word ->
     CharsPerLine g < slen word ->
     index (DisplayLines g) 0 = Some EmptyString /\
     CurrentPos g = 0 /\
     (forall w,
        len (AllWords g) + len (wordSource w (draws w) 100) <= max_int ->
        exists g' w',
          shiftLines g w = Some (g', w') /\
          WordsTyped g' = WordsTyped g) /\
     (forall g', steps (fun _ => True) g g' ->
        WordsTyped g' = WordsTyped g /\
        index (AllWords g') (WordsTyped g) = Some word)).
Proof.
  split.
  - intros g word Hl Hw Ei Hlong.
    split; [apply generateDisplayLines_total; [lia | assumption] |].
    apply (window_blocked g word); assumption.
  - intros g word Hr Ei Hlong. apply sessions_inv in Hr as Hinv.
    pose proof (shown_blocked g word Hinv (sessions_shown _ _ Hr) Ei Hlong)
      as E0.
    split; [assumption |]. split; [| split].
    + pose proof (inv_cursor _ Hinv _ E0) as Hc.
      pose proof (inv_pos _ Hinv) as Hp.
      change (len (runes "")) with 0 in Hc. lia.
    + intros w Hroom. pose proof (inv_words _ Hinv) as Hw.
      pose proof (inv_lines _ Hinv) as Hl.
      rewrite (shiftLines_total g w EmptyString);
        try assumption; try lia;
        [| change (Fields_len "") with 0; lia ].
      change (Fields_len "") with 0. rewrite Z.add_0_r.
      destruct (len (AllWords g) - 50 <? WordsTyped g);
        eexists _, _; (split; [reflexivity |]);
        unfold shifted; fields; change (Fields_len "") with 0; lia.
    + intros g' Hsteps. apply (stuck_steps word g g'); assumption.
Qed.

Lemma overlong_word_blocks_witness :
  index (DisplayLines blocked) 0 = Some EmptyString /\
  CurrentPos blocked = 0 /\
  forall g', steps (fun _ => True) blocked g' ->
    WordsTyped g' = WordsTyped blocked /\
    index (AllWords g') (WordsTyped blocked) = Some long_word.
Proof.
  destruct (proj2 overlong_word_blocks blocked long_word reachable_blocked)
    as (H1 & H2 & _ & H4).
  - vm_compute. reflexivity.
  - vm_compute. reflexivity.
  - exact (conj H1 (conj H2 H4)).
Defined.

(** ** The growth of the word buffer *)

(** What a line advance does to the word count and to the buffer. *)
Lemma advance_policy g w g' w' :
  LinesPerView g = 3 -> 0 <= WordsTyped g <= max_int ->
  Forall (fun line => slen line <= 50) (DisplayLines g) ->
  advance g w = Some (g', w') ->
  exists line0,
    index (DisplayLines g) 0 = Some line0 /\
    WordsTyped g' = WordsTyped g + Fields_len line0 /\
    (len (AllWords g) - WordsTyped g' < 50 ->
     AllWords g' = AllWords g ++ wordSource w (draws w) 100 /\
     w' = drawn w) /\
    (50 <= len (AllWords g) - WordsTyped g' ->
     AllWords g' = AllWords g /\ w' = w).
Proof.
  intros HL3 Hw Hwidth H.
  apply advance_words in H as (gs & (HA & HD & HW & HC & HL) & H).
  apply shiftLines_Some in H as (line0 & gd & E0 & Eg & H).
  rewrite HD in E0. rewrite HW in Eg.
  pose proof (index_Forall _ _ _ _ Hwidth E0) as Hlen. cbv beta in Hlen.
  pose proof (Fields_len_le line0) as Hfl.
  pose proof (Fields_len_nonneg line0) as Hf0.
  apply generateDisplayLines_Some in Eg as [Hnn Hgd]. fields.
  rewrite HL, HL3 in Hnn.
  assert (Hadd : int_add (WordsTyped g) (Fields_len line0)
                 = WordsTyped g + Fields_len line0).
  { apply wrap_nonneg; [unfold max_int in *; lia | apply Hnn; lia]. }
  assert (Hfacts : WordsTyped gd = WordsTyped g + Fields_len line0 /\
                   AllWords gd = AllWords g).
  { rewrite Hgd. fields. rewrite Hadd. auto. }
  destruct Hfacts as [HWd HAd]. exists line0. split; [assumption |].
  rewrite HA, HWd in H.
  destruct H as [(Hno & -> & ->) | (Hyes & _ & -> & ->)]; fields.
  - apply Z.ltb_ge in Hno. rewrite HWd, HAd.
    split; [reflexivity |]. split; [intros; lia | auto].
  - apply Z.ltb_lt in Hyes. rewrite HWd.
    split; [reflexivity |]. split; [auto | intros; lia].
Qed.

(** The world at the call of [advance]: the clock may have been read,
    the word source has not been asked. *)
Lemma start_world g w g' w' :
  (if negb (IsStarted g) then Start g else ret g) w = Some (g', w') ->
  g' = (if IsStarted g then g
        else set_Started (Some (clock w (ticks w))) g) /\
  w' = (if IsStarted g then w else tick w).
Proof.
  destruct (IsStarted g) eqn:Eg; cbn [negb]; intros H.
  - apply ret_Some in H as [-> ->]. auto.
  - apply Start_Some in H as [(Et & _) | (_ & -> & ->)];
      [congruence | auto].
Qed.

Lemma time_check_draws g w up wu :
  (if IsFinished g then ret true else IsTimeUp g) w = Some (up, wu) ->
  wordSource wu = wordSource w /\ draws wu = draws w.
Proof.
  destruct (IsFinished g); intros H.
  - apply ret_Some in H as [_ ->]. auto.
  - destruct (IsStarted g) eqn:Eg.
    + rewrite IsTimeUp_started in H by assumption. inversion H. auto.
    + rewrite IsTimeUp_fresh in H by assumption. inversion H. auto.
Qed.

(** A line advance is a call of [advance], on the session as [Start]
    leaves it when a space brings it about. *)
Lemma advances_advance g w g' w' :
  inv g -> advances g w g' w' ->
  exists gs ws line0,
    same_words g gs /\
    wordSource ws = wordSource w /\ draws ws = draws w /\
    index (DisplayLines g) 0 = Some line0 /\
    CurrentPos g = len (runes line0) /\
    advance gs ws = Some (g', w').
Proof.
  intros Hinv [H | (H & Hmoved & line0 & E0 & Heol)].
  - rewrite HandleEnterKey_eq in H.
    apply bind_Some in H as (up & wu & Eu & H).
    apply time_check_draws in Eu as [Hs Hd]. destruct up.
    { apply ret_Some in H as [E _]. inversion E. }
    apply bind_Some in H as (line0 & w1 & E0 & H).
    apply lift_Some in E0 as [E0 ->].
    destruct (Z.eqb_spec (CurrentPos g) (len (runes line0))) as [Heol | _].
    + apply bind_Some in H as (ga & w2 & Ea & H).
      apply ret_Some in H as [E ->]. inversion E; subst.
      exists g, wu, line0. auto 10 using same_words_refl.
    + apply ret_Some in H as [E _]. inversion E.
  - rewrite AddCharacter_eq in H.
    apply bind_Some in H as (gs & ws & Es & H).
    apply start_world in Es as [Hgs Hws].
    assert (Hsame : same_words g gs /\ CurrentPos gs = CurrentPos g /\
                    GlobalPos gs = GlobalPos g)
      by (rewrite Hgs; unfold same_words; destruct (IsStarted g); auto 10).
    destruct Hsame as (Hsame & HC & HG).
    assert (Hw1 : wordSource ws = wordSource w /\ draws ws = draws w)
      by (rewrite Hws; destruct (IsStarted g); auto).
    destruct Hw1 as [Hs1 Hd1].
    apply bind_Some in H as (up & wu & Eu & H).
    apply time_check_draws in Eu as [Hs Hd]. destruct up.
    { apply ret_Some in H as [-> _]. fields. congruence. }
    pose proof Hsame as (_ & HD & _).
    unfold accept in H. apply bind_Some in H as (l0 & w1 & E0' & H).
    apply lift_Some in E0' as [E0' ->].
    rewrite HD, E0 in E0'. inversion E0'; subst l0.
    rewrite HC, Heol, Z.eqb_refl in H. change (32 =? 32) with true in H.
    change (advance gs wu = Some (g', w')) in H.
    exists gs, wu, line0. repeat split; try assumption; try congruence;
      apply Hsame.
Qed.

(** C9, as the code has it: every line advance (Enter accepted, or a
    space accepted at the end of the line, in a session started or not)
    counts the fields of the completed line as words and then runs the
    growth policy on that count: when fewer than 50 words of the buffer
    are left beyond it, the word source is asked once and its answer to
    the request for 100 words (100 words, if it delivers what it is asked
    for) is appended behind the buffer as it is; when 50 words or more
    are left, the buffer stays as it is and the
    word source is not asked. Enter at the end of the line of a session
    that is not finished, and whose time is not up if it is started,
    advances the line, and so does a space, whose call starts the
    session first if need be. *)
Theorem growth_policy g :
  reachable g ->
  (forall w g' w',
     advances g w g' w' ->
     exists line0,
       index (DisplayLines g) 0 = Some line0 /\
       CurrentPos g = len (runes line0) /\
       WordsTyped g' = WordsTyped g + Fields_len line0 /\
       (len (AllWords g) - WordsTyped g' < 50 ->
        AllWords g' = AllWords g ++ wordSource w (draws w) 100 /\
        draws w' = S (draws w) /\
        (len (wordSource w (draws w) 100) = 100 ->
         len (AllWords g') = len (AllWords g) + 100)) /\
       (50 <= len (AllWords g) - WordsTyped g' ->
        AllWords g' = AllWords g /\ draws w' = draws w)) /\
  (forall w line0,
     IsFinished g = false ->
     index (DisplayLines g) 0 = Some line0 ->
     CurrentPos g = len (runes line0) ->
     WordsTyped g + Fields_len line0 <= max_int ->
     slen (UserInput g) + 1 <= max_int ->
     len (AllWords g) + len (wordSource w (draws w) 100) <= max_int ->
     ((IsStarted g = true -> time_is_up g w = false) ->
      exists g' w', HandleEnterKey g w = Some (true, g', w')) /\
     (time_is_up
        (if IsStarted g then g
         else set_Started (Some (clock w (ticks w))) g)
        (if IsStarted g then w else tick w) = false ->
      exists g' w',
        AddCharacter g 32 w = Some (g', w') /\
        GlobalPos g' = GlobalPos g + 1)).
Proof.
  intros Hr. apply sessions_inv in Hr as Hinv.
  apply sessions_kept in Hr as Hk.
  pose proof (inv_lines _ Hinv) as Hl. pose proof (inv_words _ Hinv) as Hw.
  split.
  - intros w g' w' Hadv.
    destruct (advances_advance g w g' w' Hinv Hadv)
      as (gs & ws & line0 & (HA & HD & HW & HC & HL) & Hs & Hd & E0 & Heol
          & Ha).
    destruct (advance_policy gs ws g' w') as (l0 & E0' & HW' & Hyes & Hno);
      try assumption; try congruence.
    { rewrite HD. apply (kept_width _ Hk). }
    rewrite HD, E0 in E0'. inversion E0'; subst l0.
    rewrite HA, HW, Hs, Hd in *.
    exists line0. split; [assumption |]. split; [assumption |].
    split; [assumption |]. split.
    + intros Hlt. destruct (Hyes Hlt) as [-> ->]. cbn [drawn draws].
      rewrite Hd. split; [reflexivity |]. split; [reflexivity |].
      intros Hsrc. rewrite len_app, Hsrc. reflexivity.
    + intros Hge. destruct (Hno Hge) as [-> ->]. auto.
  - intros w line0 Hf E0 Heol Hwf Hin Hroom. split.
    + intros Hup. rewrite HandleEnterKey_eq. unfold bind at 1. rewrite Hf.
      assert (Hu : exists wu,
                 IsTimeUp g w = Some (false, wu) /\
                 wordSource wu = wordSource w /\ draws wu = draws w).
      { destruct (IsStarted g) eqn:Eg.
        - exists (tick w). rewrite IsTimeUp_started, Hup by auto. auto.
        - exists w. rewrite IsTimeUp_fresh by assumption. auto. }
      destruct Hu as (wu & -> & Hs & Hd). unfold bind at 1.
      rewrite E0. cbn [lift]. rewrite Heol, Z.eqb_refl. unfold bind at 1.
      rewrite (advance_eq g wu line0) by (rewrite ?Hs, ?Hd; auto; lia).
      destruct (advanced g wu line0) as [g' w']. eexists _, _. reflexivity.
    + intros Hup. rewrite AddCharacter_eq. unfold bind at 1.
      set (gs := if IsStarted g then g
                 else set_Started (Some (clock w (ticks w))) g) in *.
      set (ws := if IsStarted g then w else tick w) in *.
      assert (Es : (if negb (IsStarted g) then Start g else ret g) w
                   = Some (gs, ws)).
      { unfold gs, ws, Start. destruct (IsStarted g); reflexivity. }
      rewrite Es.
      assert (Hgs : IsStarted gs = true /\ IsFinished gs = false /\
                    DisplayLines gs = DisplayLines g /\
                    CurrentPos gs = CurrentPos g /\
                    GlobalPos gs = GlobalPos g /\
                    UserInput gs = UserInput g /\
                    WordsTyped gs = WordsTyped g /\
                    AllWords gs = AllWords g /\
                    LinesPerView gs = LinesPerView g /\
                    wordSource ws = wordSource w /\ draws ws = draws w).
      { unfold gs, ws. destruct (IsStarted g) eqn:Eg; fields;
          repeat split; auto. }
      destruct Hgs as (GS & GF & GD & GC & GG & GU & GW & GA & GL & Hs & Hd).
      unfold bind at 1. rewrite GF, IsTimeUp_started, Hup by assumption.
      assert (Ea : accept gs 32 (tick ws)
                   = Some (advanced gs (tick ws) line0)).
      { rewrite <- (advance_eq gs (tick ws) line0);
          [| rewrite ?GD, ?GL, ?GW, ?GU, ?GA; auto; try lia ..].
        - unfold accept, advance, bind at 1. rewrite GD, E0. cbn [lift].
          rewrite GC, Heol, Z.eqb_refl. reflexivity.
        - change (draws (tick ws)) with (draws ws).
          change (wordSource (tick ws)) with (wordSource ws).
          rewrite Hs, Hd. assumption. }
      rewrite Ea. destruct (advanced gs (tick ws) line0) as [g' w'] eqn:Eg'.
      exists g', w'. split; [reflexivity |].
      assert (Hadv : advance gs (tick ws) = Some (g', w')).
      { rewrite (advance_eq gs (tick ws) line0), Eg';
          [reflexivity | rewrite ?GD, ?GL, ?GW, ?GU, ?GA; auto; try lia ..].
        change (draws (tick ws)) with (draws ws).
        change (wordSource (tick ws)) with (wordSource ws).
        rewrite Hs, Hd. assumption. }
      apply advance_frame in Hadv as (_ & HG & _). rewrite HG, GG.
      apply incr_id. pose proof (inv_pos _ Hinv). pose proof (inv_input _ Hinv).
      unfold min_int. lia.
Qed.

(** The sessions [eol150] and [eol175] are typed from [fresh_a]. *)
Lemma fresh_a_new : NewTypingGame 10 steady = Some (fresh_a, drawn steady).
Proof. vm_compute. reflexivity. Qed.

Lemma eol150_typed :
  exists w',
    type_keys (keys_to 5) fresh_a (drawn steady) = Some (eol150, w').
Proof. eexists. vm_compute. reflexivity. Qed.

Lemma eol175_typed :
  exists w',
    type_keys (keys_to 6) fresh_a (drawn steady) = Some (eol175, w').
Proof. eexists. vm_compute. reflexivity. Qed.

Lemma reachable_eol150 : reachable eol150.
Proof.
  destruct eol150_typed as [w' E].
  apply (type_keys_reachable _ _ _ _ _
           (s_new _ 10 steady _ _ I fresh_a_new) E).
Qed.

Lemma reachable_eol175 : reachable eol175.
Proof.
  destruct eol175_typed as [w' E].
  apply (type_keys_reachable _ _ _ _ _
           (s_new _ 10 steady _ _ I fresh_a_new) E).
Qed.

Lemma growth_policy_witness :
  exists g' w',
    HandleEnterKey eol175 steady = Some (true, g', w') /\
    WordsTyped g' = 175 /\
    AllWords g' = AllWords eol175 ++ wordSource steady (draws steady) 100 /\
    draws w' = S (draws steady) /\
    len (AllWords g') = len (AllWords eol175) + 100.
Proof.
  destruct (growth_policy eol175 reachable_eol175) as [HA HB].
  destruct (HB steady line25) as [HE _];
    [reflexivity | reflexivity | vm_compute; reflexivity
    | closed_le | closed_le | closed_le |].
  destruct HE as (g' & w' & E); [intros _; vm_compute; reflexivity |].
  exists g', w'. split; [exact E |].
  destruct (HA steady g' w' (or_introl E))
    as (line0 & E0 & _ & HW & Hyes & _).
  assert (Hl : line0 = line25).
  { cbv [eol175 DisplayLines] in E0. rewrite index_0_cons in E0.
    congruence. }
  subst line0.
  assert (Hf : Fields_len line25 = 25) by (vm_compute; reflexivity).
  assert (Hlen : len (AllWords eol175) = 200) by (vm_compute; reflexivity).
  rewrite Hf in HW. change (WordsTyped eol175) with 150 in HW.
  split; [rewrite HW; reflexivity |].
  destruct Hyes as (HA' & Hd' & Hn'); [rewrite Hlen, HW; lia |].
  split; [exact HA' |]. split; [exact Hd' |].
  apply Hn'. vm_compute. reflexivity.
Defined.

(** C9 fails as stated at the boundary: with 200 words in the buffer and
    125 of them counted, the line advance counts the 25 words of the
    completed line; the count, 150, is then within 50 of the length of
    the buffer, exactly 50 words are left, and nothing is appended:
    [150 > 200 - 50] does not hold. *)
Lemma no_growth_at_fifty :
  reachable eol150 /\
  exists g' w',
    HandleEnterKey eol150 steady = Some (true, g', w') /\
    AddCharacter eol150 32 steady = Some (g', w') /\
    len (AllWords eol150) = 200 /\ WordsTyped g' = 150 /\
    len (AllWords eol150) - WordsTyped g' = 50 /\
    AllWords g' = AllWords eol150 /\ draws w' = draws steady.
Proof.
  split; [exact reachable_eol150 |].
  eexists _, _.
  split; [vm_compute; reflexivity |].
  repeat split; vm_compute; reflexivity.
Qed.

End Supply.
